(** * news-swipe-api: the feed engine and the ingestion pipeline

    A shallow embedding of the server (the feed, swipe and helper
    functions of the Express application) and of the batch ingestion
    script, with the properties of the specification stated over it.

    Conventions of the embedding:
    - a JavaScript number is an IEEE-754 binary64 value ([float]);
    - a JavaScript string is a [string] (code units below 256);
    - an exception is the [Thrown] result of the small error monad below;
    - the tables of the datastore are lists of rows, a query is a total
      function of the tables (the datastore is reachable and evaluates
      the statement);
    - randomness ([Math.random], [ORDER BY RANDOM()]) is an explicit
      argument. *)

From Stdlib Require Import String Ascii.
From Stdlib Require Import List Bool Arith ZArith Lia Permutation Sorted.
From Stdlib Require Import PrimFloat.
From Stdlib Require Uint63 FloatOps SpecFloat FloatAxioms DecimalString.
Import ListNotations.

Local Open Scope string_scope.
Local Open Scope list_scope.
Local Open Scope nat_scope.

(** ** Results of JavaScript code that may throw *)

Inductive Res (A : Type) : Type :=
| Ok (a : A)
| Thrown.
Arguments Ok {A} a.
Arguments Thrown {A}.

Definition res_bind {A B} (r : Res A) (k : A -> Res B) : Res B :=
  match r with
  | Ok a => k a
  | Thrown => Thrown
  end.

Fixpoint res_map {A B} (f : A -> Res B) (l : list A) : Res (list B) :=
  match l with
  | [] => Ok []
  | x :: l' =>
      res_bind (f x) (fun y => res_bind (res_map f l') (fun ys => Ok (y :: ys)))
  end.

(** ** The text of numbers

    The conversions between a number and its text are the runtime's
    ([Number::toString] and the value of a JSON number literal); they are
    the two operations of this interface. *)

Class JSRuntime : Type := {
  Number_toString : float -> string;
  StringToNumber : string -> float
}.

(** ** JavaScript arrays as lists *)

Module JSArray.

(** [arr[i]] of an array of numbers used as an operand: a missing
    element is [undefined], and arithmetic on it gives NaN. *)
Definition get (arr : list float) (i : nat) : float := nth i arr nan.

(** [arr[i] = x] for [i] inside the array (every assignment of the
    program is); outside, this model leaves the array as it is. *)
Fixpoint set {A} (i : nat) (x : A) (arr : list A) : list A :=
  match arr, i with
  | [], _ => []
  | _ :: t, O => x :: t
  | h :: t, S i' => h :: set i' x t
  end.

(** [for (let i = 0; i < n; i++) arr[i] = f(i, arr[i])] *)
Definition for_each_index (n : nat) (f : nat -> float -> float)
    (arr : list float) : list float :=
  fold_left (fun a i => set i (f i (get a i)) a) (seq 0 n) arr.

End JSArray.

(** ** Text utilities *)

Module Text.

(** Leading characters satisfying [ws] dropped. *)
Fixpoint drop_leading (ws : ascii -> bool) (s : string) : string :=
  match s with
  | EmptyString => EmptyString
  | String c s' => if ws c then drop_leading ws s' else s
  end.

(** Trailing characters satisfying [ws] dropped. *)
Fixpoint drop_trailing (ws : ascii -> bool) (s : string) : string :=
  match s with
  | EmptyString => EmptyString
  | String c s' =>
      match drop_trailing ws s' with
      | EmptyString => if ws c then EmptyString else String c EmptyString
      | r => String c r
      end
  end.

Definition trim (ws : ascii -> bool) (s : string) : string :=
  drop_trailing ws (drop_leading ws s).

Fixpoint all_chars (p : ascii -> bool) (s : string) : bool :=
  match s with
  | EmptyString => true
  | String c s' => p c && all_chars p s'
  end.

Definition is_empty (s : string) : bool :=
  match s with EmptyString => true | _ => false end.

End Text.

(** ** JSON text of a vector of numbers

    [JSON.stringify] of an array of numbers, and [JSON.parse] of the text
    of such an array.  The grammar is JSON's; the value of a number
    literal is the runtime's [StringToNumber]. *)

Module JSON.

Definition is_ws (c : ascii) : bool :=
  match c with
  | " "%char | "009"%char | "010"%char | "013"%char => true
  | _ => false
  end.

Inductive CharClass : Type :=
| CMinus | CPlus | CZero | CNonZero | CDot | CExp | COther.

Definition classify (c : ascii) : CharClass :=
  match c with
  | "-"%char => CMinus
  | "+"%char => CPlus
  | "0"%char => CZero
  | "1"%char | "2"%char | "3"%char | "4"%char | "5"%char
  | "6"%char | "7"%char | "8"%char | "9"%char => CNonZero
  | "."%char => CDot
  | "e"%char | "E"%char => CExp
  | _ => COther
  end.

(** The characters a number is made of. *)
Definition number_char (c : ascii) : bool :=
  match classify c with
  | COther => false
  | _ => true
  end.

(** The states of the recogniser of a JSON number: an optional minus
    sign, an integer part (a single zero, or a non-zero digit followed
    by digits), an optional fraction (a dot and at least one digit) and
    an optional exponent (e or E, an optional sign, at least one
    digit). *)
Inductive NumState : Type :=
| NStart | NMinus | NZero | NInt | NDot | NFrac | NE | NESign | NExp.

Definition step (st : NumState) (k : CharClass) : option NumState :=
  match st, k with
  | NStart, CMinus => Some NMinus
  | (NStart | NMinus), CZero => Some NZero
  | (NStart | NMinus), CNonZero => Some NInt
  | NInt, (CZero | CNonZero) => Some NInt
  | (NZero | NInt), CDot => Some NDot
  | (NZero | NInt | NFrac), CExp => Some NE
  | (NDot | NFrac), (CZero | CNonZero) => Some NFrac
  | NE, (CPlus | CMinus) => Some NESign
  | (NE | NESign | NExp), (CZero | CNonZero) => Some NExp
  | _, _ => None
  end.

Definition accepting (st : NumState) : bool :=
  match st with
  | NZero | NInt | NFrac | NExp => true
  | _ => false
  end.

Fixpoint run (st : NumState) (s : string) : bool :=
  match s with
  | EmptyString => accepting st
  | String c s' =>
      match step st (classify c) with
      | Some st' => run st' s'
      | None => false
      end
  end.

Definition is_number (s : string) : bool := run NStart s.

(** The items of an array body: the text after the opening bracket is
    cut at every comma up to the closing bracket; the text after that
    bracket is returned with them. *)
Fixpoint split_items (s : string) : option (list string * string) :=
  match s with
  | EmptyString => None
  | String c s' =>
      if Ascii.eqb c "]" then Some ([EmptyString], s')
      else
        match split_items s' with
        | Some (item :: items, rest) =>
            if Ascii.eqb c "," then Some (EmptyString :: item :: items, rest)
            else Some (String c item :: items, rest)
        | _ => None
        end
  end.

Section WithRuntime.
Context {RT : JSRuntime}.

Definition parse_number (item : string) : option float :=
  let tok := Text.trim is_ws item in
  if is_number tok then Some (StringToNumber tok) else None.

Fixpoint parse_numbers (items : list string) : option (list float) :=
  match items with
  | [] => Some []
  | item :: items' =>
      match parse_number item, parse_numbers items' with
      | Some x, Some xs => Some (x :: xs)
      | _, _ => None
      end
  end.

(** [JSON.parse(text)] for the text of an array of numbers; [None]
    when the text is not one. *)
Definition parse_vector (text : string) : option (list float) :=
  match Text.drop_leading is_ws text with
  | String "[" body =>
      match split_items body with
      | Some (items, rest) =>
          if Text.all_chars is_ws rest then
            match items with
            | [item] =>
                if Text.all_chars is_ws item then Some []
                else parse_numbers items
            | _ => parse_numbers items
            end
          else None
      | None => None
      end
  | _ => None
  end.

(** [JSON.stringify] of a number: a NaN or an infinity is [null]. *)
Definition stringify_number (x : float) : string :=
  if is_finite x then Number_toString x else "null".

(** [JSON.stringify] of an array of numbers. *)
Definition stringify_vector (v : list float) : string :=
  "[" ++ String.concat "," (map stringify_number v) ++ "]".

End WithRuntime.

End JSON.

(** ** The runtime's conversions between numbers and text

    [Number::toString] and the value of a number literal as the
    language defines them: the text of a finite number is made of the
    fewest decimal digits that read back as the number, the closest ones
    when there is a choice, written without an exponent from 1e-6 up to
    1e21; the value of a literal is the binary64 value nearest to the
    decimal it writes, ties to the even mantissa. *)

Module Ecma.
Import SpecFloat.

Local Open Scope Z_scope.

(** *** Decimal digits *)

Definition digit_char (d : Z) : ascii :=
  match d with
  | 0 => "0" | 1 => "1" | 2 => "2" | 3 => "3" | 4 => "4"
  | 5 => "5" | 6 => "6" | 7 => "7" | 8 => "8" | _ => "9"
  end%char.

(** The digits are the characters 48 to 57, in order. *)
Definition digit_value (c : ascii) : option Z :=
  let code := Z.of_N (N_of_ascii c) in
  if (48 <=? code) && (code <=? 57) then Some (code - 48) else None.

Definition is_digit (c : ascii) : bool :=
  match digit_value c with
  | Some _ => true
  | None => false
  end.

(** The decimal digits of a natural number, most significant first,
    in front of [acc]. *)
Fixpoint digits_from (fuel : nat) (n : Z) (acc : string) : string :=
  let acc' := String (digit_char (n mod 10)) acc in
  match fuel with
  | O => acc'
  | S fuel' => if n <? 10 then acc' else digits_from fuel' (n / 10) acc'
  end.

Definition digits_of (n : Z) : string :=
  digits_from (Z.to_nat (Z.log2 n)) n EmptyString.

(** The number a text of digits writes, after [acc]. *)
Fixpoint number_from (s : string) (acc : Z) : Z :=
  match s with
  | EmptyString => acc
  | String c s' =>
      number_from s'
        (10 * acc + match digit_value c with Some d => d | None => 0 end)
  end.

Definition number_of (s : string) : Z := number_from s 0.

Fixpoint zeros (n : nat) : string :=
  match n with
  | O => EmptyString
  | S n' => String "0" (zeros n')
  end.

Fixpoint take (n : nat) (s : string) : string :=
  match n, s with
  | S n', String c s' => String c (take n' s')
  | _, _ => EmptyString
  end.

Fixpoint drop (n : nat) (s : string) : string :=
  match n, s with
  | S n', String _ s' => drop n' s'
  | _, _ => s
  end.

(** The text without its trailing zeros. *)
Definition strip_zeros (s : string) : string :=
  Text.drop_trailing (fun c => Ascii.eqb c "0") s.

(** Digits that a number is written with: at least one, the first not
    a zero. *)
Definition well_formed (ds : string) : bool :=
  match ds with
  | EmptyString => false
  | String c _ => negb (Ascii.eqb c "0") && Text.all_chars is_digit ds
  end.

(** *** The number a decimal rounds to

    The real number [n / d] ([0 <= n], [0 < d]) rounded to the nearest
    binary64 value, ties to the even mantissa: every finite binary64
    value is a multiple of two to the -1074, so the mantissa is the
    quotient of [n * 2 ^ 1074] by [d] and by the power of two that leaves
    53 bits, rounded. *)
Definition round_ratio (neg : bool) (n d : Z) : spec_float :=
  let a := n * 2 ^ 1074 in
  let s := Z.max (Z.log2 (a / d) - 52) 0 in
  let den := d * 2 ^ s in
  let q := a / den in
  let r := a mod den in
  let m :=
    match 2 * r ?= den with
    | Lt => q
    | Eq => if Z.even q then q else q + 1
    | Gt => q + 1
    end in
  let '(m, s) := if m =? 2 ^ 53 then (2 ^ 52, s + 1) else (m, s) in
  match m with
  | Zpos p =>
      if 2045 <? s then S754_infinity neg else S754_finite neg p (s - 1074)
  | _ => S754_zero neg
  end.

(** The decimal [s * 10 ^ e] as a fraction. *)
Definition numerator (s e : Z) : Z := if 0 <=? e then s * 10 ^ e else s.
Definition denominator (e : Z) : Z := if 0 <=? e then 1 else 10 ^ (- e).

(** The binary64 value of the decimal [s * 10 ^ e], negated for [neg]. *)
Definition round_decimal (neg : bool) (s e : Z) : spec_float :=
  round_ratio neg (numerator s e) (denominator e).

Definition same_value (x y : spec_float) : bool :=
  match x, y with
  | S754_zero a, S754_zero b => Bool.eqb a b
  | S754_infinity a, S754_infinity b => Bool.eqb a b
  | S754_nan, S754_nan => true
  | S754_finite a m e, S754_finite b m' e' =>
      Bool.eqb a b && Pos.eqb m m' && Z.eqb e e'
  | _, _ => false
  end.

(** *** Number::toString *)

(** The digits [ds] with the decimal point at [n], that is the decimal
    [ds * 10 ^ (n - length ds)], are a way to write the value
    [m * 2 ^ e]: they are well formed and round to it. *)
Definition reads_as (m : positive) (e : Z) (ds : string) (n : Z) : bool :=
  well_formed ds
  && same_value
       (round_decimal false (number_of ds) (n - Z.of_nat (String.length ds)))
       (S754_finite false m e).

(** The candidate of the integer [c] at the decimal exponent [e10]. *)
Definition candidate (c e10 : Z) : string * Z :=
  let ds := digits_of c in
  (strip_zeros ds, e10 + Z.of_nat (String.length ds)).

(** The value is [a / b], below one; the least [j] from [1] on with
    [b <= a * 10 ^ j]. *)
Fixpoint leading (fuel : nat) (a b : Z) (j : Z) : Z :=
  match fuel with
  | O => j
  | S fuel' => if b <=? a * 10 then j else leading fuel' (a * 10) b (j + 1)
  end.

(** [n] such that [10 ^ (n - 1) <= a / b < 10 ^ n]. *)
Definition magnitude (a b : Z) : Z :=
  if b <=? a then Z.of_nat (String.length (digits_of (a / b)))
  else 1 - leading 400 a b 1.

(** The candidates with [k] digits next to [a / b]: the decimals just
    below and just above, the closer one first (the even one on a
    tie). *)
Definition neighbours (a b : Z) (k : Z) : list (string * Z) :=
  let e10 := magnitude a b - k in
  let num := if e10 <? 0 then a * 10 ^ (- e10) else a in
  let den := if e10 <? 0 then b else b * 10 ^ e10 in
  let lo := num / den in
  let r := num mod den in
  let below := candidate lo e10 in
  let above := candidate (lo + 1) e10 in
  match 2 * r ?= den with
  | Lt => [below; above]
  | Gt => [above; below]
  | Eq => if Z.even lo then [below; above] else [above; below]
  end.

(** The first candidate that reads as the value, with [k], [k + 1],
    ... digits. *)
Fixpoint shortest (fuel : nat) (m : positive) (e : Z) (a b : Z) (k : Z)
    : option (string * Z) :=
  match fuel with
  | O => None
  | S fuel' =>
      match find (fun c => reads_as m e (fst c) (snd c)) (neighbours a b k) with
      | Some c => Some c
      | None => shortest fuel' m e a b (k + 1)
      end
  end.

(** The digits of the exact value [m * 2 ^ e]. *)
Definition exact (m : positive) (e : Z) : string * Z :=
  if 0 <=? e then
    let ds := digits_of (Zpos m * 2 ^ e) in (ds, Z.of_nat (String.length ds))
  else
    let ds := digits_of (Zpos m * 5 ^ (- e)) in
    (ds, e + Z.of_nat (String.length ds)).

(** The digits and the position of the point of the finite value
    [m * 2 ^ e]: as few digits as read back as the value (17 are enough
    for a binary64 value; the exact digits stand behind them). *)
Definition digits (m : positive) (e : Z) : string * Z :=
  let a := if 0 <=? e then Zpos m * 2 ^ e else Zpos m in
  let b := if 0 <=? e then 1 else 2 ^ (- e) in
  match shortest 17 m e a b 1 with
  | Some c => c
  | None => exact m e
  end.

(** The text of the digits [ds] with the point at [n]. *)
Definition render (ds : string) (n : Z) : string :=
  let k := Z.of_nat (String.length ds) in
  if (-6 <? n) && (n <=? 21) then
    if k <=? n then (ds ++ zeros (Z.to_nat (n - k)))%string
    else if 0 <? n then
      (take (Z.to_nat n) ds ++ "." ++ drop (Z.to_nat n) ds)%string
    else ("0." ++ zeros (Z.to_nat (- n)) ++ ds)%string
  else
    let e := n - 1 in
    let mark := if e <? 0 then "e-"%string else "e+"%string in
    let exponent := (mark ++ digits_of (Z.abs e))%string in
    if k =? 1 then (ds ++ exponent)%string
    else (take 1 ds ++ "." ++ drop 1 ds ++ exponent)%string.

Definition Number_toString (x : float) : string :=
  match FloatOps.Prim2SF x with
  | S754_nan => "NaN"
  | S754_zero _ => "0"
  | S754_infinity neg => if neg then "-Infinity" else "Infinity"
  | S754_finite neg m e =>
      let '(ds, n) := digits m e in
      ((if neg then "-" else "") ++ render ds n)%string
  end.

(** *** The value of a number literal *)

(** The longest prefix of digits, and what follows it. *)
Fixpoint span_digits (s : string) : string * string :=
  match s with
  | EmptyString => (EmptyString, EmptyString)
  | String c s' =>
      if is_digit c then
        let '(ds, rest) := span_digits s' in (String c ds, rest)
      else (EmptyString, s)
  end.

(** The text [rest] does not go on with a digit. *)
Definition stops (rest : string) : Prop :=
  match rest with
  | EmptyString => True
  | String c _ => is_digit c = false
  end.

(** The exponent part of a literal, if the text is one: nothing, or
    [e] or [E], an optional sign and digits. *)
Definition exponent_part (s : string) : option Z :=
  match s with
  | EmptyString => Some 0
  | String c r =>
      if Ascii.eqb c "e" || Ascii.eqb c "E" then
        let '(minus, r1) :=
          match r with
          | String c' r' =>
              if Ascii.eqb c' "-" then (true, r')
              else if Ascii.eqb c' "+" then (false, r')
              else (false, r)
          | EmptyString => (false, r)
          end in
        let '(ex, r2) := span_digits r1 in
        if Text.is_empty r2
        then Some (if minus then - number_of ex else number_of ex)
        else None
      else None
  end.

(** Digits and decimal exponent of a literal without sign: digits, an
    optional point with digits, an optional exponent. *)
Definition unsigned_literal (s : string) : option (Z * Z) :=
  let '(int, s2) := span_digits s in
  let '(frac, s3) :=
    match s2 with
    | String c r =>
        if Ascii.eqb c "." then span_digits r else (EmptyString, s2)
    | EmptyString => (EmptyString, s2)
    end in
  match exponent_part s3 with
  | Some ex =>
      Some (number_of (int ++ frac), ex - Z.of_nat (String.length frac))
  | None => None
  end.

(** Sign, digits and decimal exponent of a number literal. *)
Definition literal (s : string) : option (bool * Z * Z) :=
  match s with
  | String c r =>
      if Ascii.eqb c "-" then
        option_map (fun p => (true, fst p, snd p)) (unsigned_literal r)
      else option_map (fun p => (false, fst p, snd p)) (unsigned_literal s)
  | EmptyString => None
  end.

Definition StringToNumber (s : string) : float :=
  match literal s with
  | Some (neg, m, e) => FloatOps.SF2Prim (round_decimal neg m e)
  | None => nan
  end.

Definition runtime : JSRuntime :=
  Build_JSRuntime Number_toString StringToNumber.

End Ecma.

(** ** JavaScript values (what a JSON body can hold, and [undefined]) *)

Module JS.

#[local] Unset Elimination Schemes.
Inductive Value : Type :=
| JUndefined
| JNull
| JBool (b : bool)
| JNum (x : float)
| JStr (s : string)
| JArr (elems : list Value)
| JObj (fields : list (string * Value)).
#[local] Set Elimination Schemes.

Definition number_of_nat (n : nat) : float :=
  of_uint63 (Uint63.of_Z (Z.of_nat n)).

(** ToBoolean: [undefined], [null], [false], [0], [-0], [NaN] and the
    empty string are falsy. *)
Definition truthy (v : Value) : bool :=
  match v with
  | JUndefined | JNull => false
  | JBool b => b
  | JNum x => negb (is_zero x || is_nan x)
  | JStr s => negb (Text.is_empty s)
  | JArr _ | JObj _ => true
  end.

Definition falsy (v : Value) : bool := negb (truthy v).

Fixpoint lookup (name : string) (fields : list (string * Value)) : Value :=
  match fields with
  | [] => JUndefined
  | (k, v) :: rest => if String.eqb k name then v else lookup name rest
  end.

(** [v.name]: a TypeError on [undefined] and [null]; on an object its
    field or [undefined]; a string or an array only has [length]. *)
Definition get_prop (v : Value) (name : string) : Res Value :=
  match v with
  | JUndefined | JNull => Thrown
  | JObj fields => Ok (lookup name fields)
  | JArr elems =>
      Ok (if String.eqb name "length" then JNum (number_of_nat (List.length elems))
          else JUndefined)
  | JStr s =>
      Ok (if String.eqb name "length" then JNum (number_of_nat (String.length s))
          else JUndefined)
  | JBool _ | JNum _ => Ok JUndefined
  end.

(** [v[0]] *)
Definition get_first (v : Value) : Res Value :=
  match v with
  | JUndefined | JNull => Thrown
  | JObj fields => Ok (lookup "0" fields)
  | JArr elems => Ok (nth 0 elems JUndefined)
  | JStr (String c _) => Ok (JStr (String c EmptyString))
  | JStr EmptyString => Ok JUndefined
  | JBool _ | JNum _ => Ok JUndefined
  end.

Section WithRuntime.
Context {RT : JSRuntime}.

(** ToString, with [Array.prototype.join]'s treatment of the elements
    of a nested array ([undefined] and [null] give the empty text). *)
Fixpoint to_string (v : Value) : string :=
  match v with
  | JUndefined => "undefined"
  | JNull => "null"
  | JBool true => "true"
  | JBool false => "false"
  | JNum x => Number_toString x
  | JStr s => s
  | JArr elems =>
      String.concat ","
        (map (fun e => match e with
                       | JUndefined | JNull => EmptyString
                       | _ => to_string e
                       end) elems)
  | JObj _ => "[object Object]"
  end.

(** [v.join(',')]: only an array has the method; on any other value
    that can come out of a JSON body the call is a TypeError. *)
Definition join_comma (v : Value) : Res string :=
  match v with
  | JArr _ => Ok (to_string v)
  | _ => Thrown
  end.

End WithRuntime.

(** A vector of floats: an array whose elements are all finite numbers. *)
Definition is_vector (v : Value) : bool :=
  match v with
  | JArr elems =>
      forallb (fun e => match e with JNum x => is_finite x | _ => false end) elems
  | _ => false
  end.

(** The absent result of the embedding adapter. *)
Definition absent (v : Value) : bool :=
  match v with
  | JUndefined | JNull => true
  | _ => false
  end.

End JS.

(** ** The datastore *)

Module Store.

Record Article : Type := {
id : Z;
title : string;
description : string;
article_url : string;
image_url : string;
source_name : string;
published_at : string;
embedding : string
}.

(** [liked] is a nullable boolean column; [swipe_time] is filled by the
  datastore. *)
Record Swipe : Type := {
user_id : Z;
article_id : Z;
liked : option bool;
swipe_time : nat
}.

Record DB : Type := {
articles : list Article;
user_swipes : list Swipe;
next_article_id : Z;
clock : nat
}.

(** What the datastore computes on its side: the distance operator of
  its vector type, and the typing of the parameters bound to an integer
  and to a boolean column ([None]: the value is refused and the
  statement fails; [Some None] is SQL's NULL). *)
Class Datastore : Type := {
cosine_distance : string -> string -> float;
to_integer : JS.Value -> option Z;
to_boolean : JS.Value -> option (option bool)
}.

(** The order of the datastore on the values of its double precision
    type, which ORDER BY sorts by: a NaN is equal to a NaN and greater
    than every other value; the other values are ordered as numbers. *)
Definition float8_le (x y : float) : bool :=
  if PrimFloat.is_nan y then true
  else if PrimFloat.is_nan x then false
  else (x <=? y)%float.

End Store.

(** ** ORDER BY *)

Module OrderBy.
Section Sort.
Context {A : Type} (leb : A -> A -> bool).

Fixpoint insert (x : A) (l : list A) : list A :=
  match l with
  | [] => [x]
  | y :: l' => if leb x y then x :: l else y :: insert x l'
  end.

Fixpoint sort (l : list A) : list A :=
  match l with
  | [] => []
  | x :: l' => insert x (sort l')
  end.

End Sort.

(** [ORDER BY RANDOM()]: the datastore draws a key for every candidate
    row ([keys k] for the k-th) and sorts by it. *)
Definition random {A} (keys : nat -> nat) (rows : list A) : list A :=
  map snd
    (sort (fun x y => fst x <=? fst y)
       (combine (map keys (seq 0 (List.length rows))) rows)).

End OrderBy.

(** ** The server: helper functions and handlers *)

Module Server.

Import JSArray Store.

Definition TASTE_PROFILE_SIZE : nat := 3.
Definition SMART_FEED_SIZE : nat := 7.
Definition DUMB_FEED_SIZE : nat := 3.

(** *** shuffleArray *)

(** [[array[i], array[j]] = [array[j], array[i]]] *)
Definition swap {A} (i j : nat) (array : list A) : list A :=
  match nth_error array i, nth_error array j with
  | Some ai, Some aj => set j ai (set i aj array)
  | _, _ => array
  end.

(** The loop [for (let i = ...; i > 0; i--)] from index [i] down.  The
    head of [rnd] is the draw of [Math.random()] of this iteration;
    [floor(Math.random() * (i + 1))] is a number of [0 .. i], here the
    draw modulo [i + 1]. *)
Fixpoint shuffle_from {A} (i : nat) (rnd : list nat) (array : list A) : list A :=
  match i with
  | O => array
  | S i' =>
      let j := hd 0 rnd mod (i + 1) in
      shuffle_from i' (tl rnd) (swap i j array)
  end.

Definition shuffleArray {A} (rnd : list nat) (array : list A) : list A :=
  shuffle_from (List.length array - 1) rnd array.

(** *** The queries of GET /api/feed *)

(** [id NOT IN (SELECT article_id FROM user_swipes WHERE user_id = $1)] *)
Definition swiped_by (db : DB) (userId : Z) (articleId : Z) : bool :=
  existsb (fun us => (user_id us =? userId)%Z && (article_id us =? articleId)%Z)
    (user_swipes db).

Definition never_swiped (db : DB) (userId : Z) : list Article :=
  filter (fun a => negb (swiped_by db userId (id a))) (articles db).

(** [articles a JOIN user_swipes us ON a.id = us.article_id
     WHERE us.user_id = $1 AND us.liked = true] *)
Definition liked_join (db : DB) (userId : Z) : list (Article * Swipe) :=
  flat_map
    (fun a =>
       map (fun us => (a, us))
         (filter
            (fun us =>
               (id a =? article_id us)%Z && (user_id us =? userId)%Z
               && match liked us with Some true => true | _ => false end)
            (user_swipes db)))
    (articles db).

(** tasteQuery: [... ORDER BY us.swipe_time DESC LIMIT $2], the
    embedding column of each row. *)
Definition tasteQuery (db : DB) (userId : Z) (limit : nat) : list string :=
  map (fun r => embedding (fst r))
    (firstn limit
       (OrderBy.sort
          (fun x y => swipe_time (snd y) <=? swipe_time (snd x))
          (liked_join db userId))).

(** A row of the feed: the smart query returns the article's columns
    and its similarity, the dumb queries return the article. *)
Inductive FeedRow : Type :=
| SmartRow (a : Article) (similarity : float)
| DumbRow (a : Article).

Definition row_article (r : FeedRow) : Article :=
  match r with
  | SmartRow a _ => a
  | DumbRow a => a
  end.

Definition row_id (r : FeedRow) : Z := id (row_article r).

Section WithDatastore.
Context {RT : JSRuntime} {DS : Datastore}.

(** [(1 - (embedding <=> $2)) as similarity]; a NULL parameter gives a
    NULL, which has no order. *)
Definition similarity (tasteVector : option string) (a : Article) : float :=
  match tasteVector with
  | Some t => (1 - cosine_distance (embedding a) t)%float
  | None => nan
  end.

(** smartQuery: never swiped, [ORDER BY similarity DESC LIMIT 7]. *)
Definition smartQuery (db : DB) (userId : Z) (tasteVector : option string)
    : list FeedRow :=
  firstn SMART_FEED_SIZE
    (OrderBy.sort
       (fun x y =>
          match x, y with
          | SmartRow _ sx, SmartRow _ sy => float8_le sy sx
          | _, _ => true
          end)
       (map (fun a => SmartRow a (similarity tasteVector a))
          (never_swiped db userId))).

(** [smartArticleIds.length > 0 ? smartArticleIds.join(',') : '0'],
    as the list of the ids the text names. *)
Definition idPlaceholders (smartArticleIds : list Z) : list Z :=
  if 0 <? List.length smartArticleIds then smartArticleIds else [0%Z].

(** dumbQuery of the blended feed: never swiped, [id NOT IN
    (idPlaceholders)], [ORDER BY RANDOM() LIMIT 3]. *)
Definition dumbQuery (db : DB) (keys : nat -> nat) (userId : Z)
    (smartArticleIds : list Z) : list FeedRow :=
  map DumbRow
    (firstn DUMB_FEED_SIZE
       (OrderBy.random keys
          (filter
             (fun a =>
                negb (existsb (Z.eqb (id a)) (idPlaceholders smartArticleIds)))
             (never_swiped db userId)))).

(** dumbQuery of a new user: never swiped, [ORDER BY RANDOM() LIMIT 10]. *)
Definition coldQuery (db : DB) (keys : nat -> nat) (userId : Z) : list FeedRow :=
  map DumbRow (firstn 10 (OrderBy.random keys (never_swiped db userId))).

(** *** averageVectors *)

(** [JSON.parse] on the text of a stored embedding.  The embedding
    column holds the texts of vectors, and on such a text this is the
    vector.  On any other text the model throws: [JSON.parse] itself
    throws only on a text that is no JSON at all and returns every other
    JSON value as it is, so the model throws wherever the code does, and
    a statement about texts that are not vectors is not to be read off
    it. *)
Definition JSON_parse (text : string) : Res (list float) :=
  match JSON.parse_vector text with
  | Some v => Ok v
  | None => Thrown
  end.

Definition averageVectors (vectorStrings : list string) : Res (option string) :=
  if List.length vectorStrings =? 0 then Ok None
  else
    res_bind (res_map JSON_parse vectorStrings) (fun vectors =>
      let vectorLength := List.length (nth 0 vectors []) in
      let numVectors := List.length vectors in
      let averageVector := repeat zero vectorLength in
      let averageVector :=
        fold_left
          (fun averageVector vector =>
             for_each_index vectorLength
               (fun i a => (a + get vector i)%float) averageVector)
          vectors averageVector in
      let averageVector :=
        for_each_index vectorLength
          (fun _ a => (a / JS.number_of_nat numVectors)%float) averageVector in
      Ok (Some (JSON.stringify_vector averageVector))).

(** The taste vector of a user: the taste query, then averageVectors
    (the handler computes it inline). *)
Definition buildTaste (db : DB) (userId : Z) : Res (option string) :=
  averageVectors (tasteQuery db userId TASTE_PROFILE_SIZE).

(** *** GET /api/feed *)

Inductive FeedResponse : Type :=
| Feed200 (finalFeed : list FeedRow)
| Feed500.

(** What the handler does on its way, in order. *)
Inductive Step : Type :=
| RunTasteQuery
| CallAverageVectors
| RunSmartQuery
| RunDumbQuery
| CallShuffleArray
| RunColdQuery.

(** [keys] are the datastore's random keys, [rnd] the draws of
    [Math.random]. *)
Definition feed (db : DB) (keys : nat -> nat) (rnd : list nat) (userId : Z)
    : FeedResponse * list Step :=
  let tasteResult := tasteQuery db userId TASTE_PROFILE_SIZE in
  if 0 <? List.length tasteResult then
    match averageVectors tasteResult with
    | Thrown => (Feed500, [RunTasteQuery; CallAverageVectors])
    | Ok tasteVector =>
        let smartRows := smartQuery db userId tasteVector in
        let finalFeed := smartRows in
        let smartArticleIds := map row_id smartRows in
        let dumbRows := dumbQuery db keys userId smartArticleIds in
        let finalFeed := finalFeed ++ dumbRows in
        (Feed200 (shuffleArray rnd finalFeed),
         [RunTasteQuery; CallAverageVectors; RunSmartQuery; RunDumbQuery;
          CallShuffleArray])
    end
  else
    (Feed200 (coldQuery db keys userId), [RunTasteQuery; RunColdQuery]).

(** *** POST /api/swipe *)

Inductive SwipeResponse : Type :=
| Swipe201 (row : Swipe)
| Swipe400
| Swipe500.

(** [INSERT INTO user_swipes (user_id, article_id, liked)
     VALUES ($1, $2, $3) RETURNING *] *)
Definition insert_swipe (db : DB) (userId : Z) (articleId liked : JS.Value)
    : Res (Swipe * DB) :=
  match to_integer articleId, to_boolean liked with
  | Some aid, Some l =>
      let row := {| user_id := userId; article_id := aid; liked := l;
                    swipe_time := clock db |} in
      Ok (row,
          {| articles := articles db;
             user_swipes := user_swipes db ++ [row];
             next_article_id := next_article_id db;
             clock := S (clock db) |})
  | _, _ => Thrown
  end.

Definition is_undefined (v : JS.Value) : bool :=
  match v with JS.JUndefined => true | _ => false end.

(** The handler on the fields [articleId] and [liked] of the body
    ([JUndefined] for a field the body does not have). *)
Definition swipe (db : DB) (userId : Z) (articleId liked : JS.Value)
    : SwipeResponse * DB :=
  if JS.falsy articleId || is_undefined liked then (Swipe400, db)
  else
    match insert_swipe db userId articleId liked with
    | Ok (row, db') => (Swipe201 row, db')
    | Thrown => (Swipe500, db)
    end.

End WithDatastore.

End Server.

(** ** The ingestion script *)

Module Ingest.

Definition CATEGORIES : list string :=
  ["general"; "technology"; "science"; "sports"; "entertainment"].

Definition ARTICLES_PER_CATEGORY : nat := 50.

(** *** The outside world *)

(** A headline of the source.  [title], [image] and [description] are
    the fields the script tests ([None]: null or missing); [source] is
    [article.source.name], [None] when the record has no [source]. *)
Record RawArticle : Type := {
  title : option string;
  description : option string;
  url : string;
  image : option string;
  source : option string;
  publishedAt : string
}.

(** What an HTTP request comes to: no response at all, or a response
    with its status and its body. *)
Inductive Http (A : Type) : Type :=
| NetworkError
| Response (status : nat) (data : A).
Arguments NetworkError {A}.
Arguments Response {A} status data.

(** axios resolves on a status of 200 .. 299 and rejects otherwise. *)
Definition resolves (status : nat) : bool := (200 <=? status) && (status <? 300).

(** The headline source answers a category with [response.data.articles]
    ([None]: no such field); the embedding service answers a text with a
    JSON body; the pool hands out a connection or fails. *)
Record World : Type := {
  gnews : string -> Http (option (list RawArticle));
  ml : string -> Http JS.Value;
  connect_ok : bool
}.

Record Env : Type := {
  GNEWS_API_KEY : option string;
  ML_SERVICE_URL : option string
}.

(** *** The state of a run *)

Record State : Type := {
  db : Store.DB;
  totalProcessedCount : nat;
  fetched : list string;   (* the categories requested from the source *)
  embedded : list string;  (* the texts posted to the embedding service *)
  slept : nat              (* milliseconds spent in sleep *)
}.

Definition M (A : Type) : Type := State -> Res A * State.

Definition ret {A} (a : A) : M A := fun st => (Ok a, st).

Definition throw {A} : M A := fun st => (Thrown, st).

Definition bind {A B} (m : M A) (k : A -> M B) : M B :=
  fun st =>
    match m st with
    | (Ok a, st') => k a st'
    | (Thrown, st') => (Thrown, st')
    end.

(** [try { m } catch (err) { handler }] *)
Definition try_catch {A} (m : M A) (handler : M A) : M A :=
  fun st =>
    match m st with
    | (Ok a, st') => (Ok a, st')
    | (Thrown, st') => handler st'
    end.

Definition lift {A} (r : Res A) : M A := fun st => (r, st).

Declare Scope ingest_scope.
Delimit Scope ingest_scope with ingest.
Notation "x <- m ;; k" := (bind m (fun x => k))
  (at level 61, m at next level, right associativity) : ingest_scope.
Notation "m ;;; k" := (bind m (fun _ => k))
  (at level 61, right associativity) : ingest_scope.
Local Open Scope ingest_scope.

Definition set_db (d : Store.DB) (st : State) : State :=
  {| db := d; totalProcessedCount := totalProcessedCount st;
     fetched := fetched st; embedded := embedded st; slept := slept st |}.

Definition with_embedded (texts : list string) (st : State) : State :=
  {| db := db st; totalProcessedCount := totalProcessedCount st;
     fetched := fetched st; embedded := texts; slept := slept st |}.

Definition log_fetch (category : string) : M unit :=
  fun st =>
    (Ok tt,
     {| db := db st; totalProcessedCount := totalProcessedCount st;
        fetched := fetched st ++ [category]; embedded := embedded st;
        slept := slept st |}).

Definition log_embed (text : string) : M unit :=
  fun st =>
    (Ok tt,
     {| db := db st; totalProcessedCount := totalProcessedCount st;
        fetched := fetched st; embedded := embedded st ++ [text];
        slept := slept st |}).

(** [totalProcessedCount += n] *)
Definition add_total (n : nat) : M unit :=
  fun st =>
    (Ok tt,
     {| db := db st; totalProcessedCount := totalProcessedCount st + n;
        fetched := fetched st; embedded := embedded st; slept := slept st |}).

(** [await sleep(ms)] *)
Definition sleep (ms : nat) : M unit :=
  fun st =>
    (Ok tt,
     {| db := db st; totalProcessedCount := totalProcessedCount st;
        fetched := fetched st; embedded := embedded st;
        slept := slept st + ms |}).

(** *** The datastore statement *)

Definition has_url (d : Store.DB) (u : string) : bool :=
  existsb (fun a => String.eqb (Store.article_url a) u) (Store.articles d).

(** The row an insert makes of its seven values; its id comes from the
    table's counter. *)
Definition new_row (d : Store.DB) (title description article_url image_url
    source_name published_at embedding : string) : Store.Article :=
  {| Store.id := Store.next_article_id d;
     Store.title := title;
     Store.description := description;
     Store.article_url := article_url;
     Store.image_url := image_url;
     Store.source_name := source_name;
     Store.published_at := published_at;
     Store.embedding := embedding |}.

Definition add_row (row : Store.Article) (d : Store.DB) : Store.DB :=
  {| Store.articles := Store.articles d ++ [row];
     Store.user_swipes := Store.user_swipes d;
     Store.next_article_id := (Store.next_article_id d + 1)%Z;
     Store.clock := Store.clock d |}.

(** [INSERT INTO articles (...) VALUES ($1, ..., $7)
     ON CONFLICT (article_url) DO NOTHING]: the result is [rowCount]. *)
Definition insert_article (title description article_url image_url source_name
    published_at embedding : string) : M nat :=
  fun st =>
    let d := db st in
    if has_url d article_url then (Ok 0, st)
    else
      (Ok 1,
       set_db
         (add_row
            (new_row d title description article_url image_url source_name
               published_at embedding) d)
         st).

(** *** String helpers of the script *)

(** The white space and line terminators [String.prototype.trim]
    removes, among the code units below 256. *)
Definition is_js_space (c : ascii) : bool :=
  match c with
  | "009"%char | "010"%char | "011"%char | "012"%char | "013"%char
  | " "%char | "160"%char => true
  | _ => false
  end.

(** [text.trim()] *)
Definition trim (text : string) : string := Text.trim is_js_space text.

(** [!v] for a field that is a string, null or missing. *)
Definition missing (v : option string) : bool :=
  match v with
  | None => true
  | Some s => Text.is_empty s
  end.

(** The text of a field inside a template literal. *)
Definition field_text (v : option string) : string :=
  match v with
  | None => "null"
  | Some s => s
  end.

(** [s.includes(sub)] *)
Definition includes (sub s : string) : bool :=
  match String.index 0 sub s with
  | Some _ => true
  | None => false
  end.

Section WithWorld.
Context {RT : JSRuntime} (w : World).

(** *** getEmbedding, first variant (the service's /embed endpoint) *)

(** [await axios.post(url, body)], giving [response.data]. *)
Definition axios_post (text : string) : M JS.Value :=
  log_embed text ;;;
  match ml w text with
  | NetworkError => throw
  | Response status data => if resolves status then ret data else throw
  end.

Definition getEmbedding (text : string) : M JS.Value :=
  if Text.is_empty text || (String.length (trim text) =? 0) then ret JS.JNull
  else
    try_catch
      (data <- axios_post text ;;
       lift (JS.get_prop data "embedding"))
      (ret JS.JNull).

(** *** getEmbedding, second variant (the Gradio predict endpoint) *)

Definition getEmbedding_gradio (text : string) : M JS.Value :=
  if Text.is_empty text || (String.length (trim text) =? 0) then ret JS.JNull
  else
    try_catch
      (data <- axios_post text ;;
       data_data <- lift (JS.get_prop data "data") ;;
       embeddingData <- lift (JS.get_first data_data) ;;
       lift (JS.get_prop embeddingData "embedding"))
      (ret JS.JNull).

(** *** ingestArticles *)

(** [`[${embedding.join(',')}]`], the text the embedding is stored as. *)
Definition embeddingString (embedding : JS.Value) : Res string :=
  res_bind (JS.join_comma embedding)
    (fun joined => Ok ("[" ++ joined ++ "]")%string).

(** How the loop over the categories ended without an exception. *)
Inductive LoopEnd : Type :=
| Finished   (* all categories were visited *)
| Broken.    (* [break] on a rate limit *)

Section Loops.
(** The two variants differ in the adapter they call and in the test
    that makes them skip an article. *)
Variable embed : string -> M JS.Value.
Variable skip : JS.Value -> bool.

(** [for (const article of articles) { ... }] with the running
    [categoryProcessedCount]. *)
Fixpoint process_articles (articles : list RawArticle)
    (categoryProcessedCount : nat) : M nat :=
  match articles with
  | [] => ret categoryProcessedCount
  | article :: rest =>
      if missing (title article) || missing (image article)
         || missing (description article)
      then process_articles rest categoryProcessedCount
      else
        let textToEmbed :=
          (field_text (title article) ++ ". " ++ field_text (description article))%string in
        embedding <- embed textToEmbed ;;
        if skip embedding then process_articles rest categoryProcessedCount
        else
          text <- lift (embeddingString embedding) ;;
          source_name <- lift (match source article with
                               | Some n => Ok n
                               | None => Thrown
                               end) ;;
          rowCount <- insert_article (field_text (title article))
                        (field_text (description article)) (url article)
                        (field_text (image article)) source_name
                        (publishedAt article) text ;;
          process_articles rest
            (if 0 <? rowCount then categoryProcessedCount + 1
             else categoryProcessedCount)
  end.

(** [for (const category of CATEGORIES) { ... }] from some category on. *)
Fixpoint process_categories (categories : list string) : M LoopEnd :=
  match categories with
  | [] => ret Finished
  | category :: rest =>
      log_fetch category ;;;
      match gnews w category with
      | NetworkError => throw
      | Response status articles =>
          if resolves status then
            match articles with
            | None | Some [] => process_categories rest
            | Some articles =>
                categoryProcessedCount <- process_articles articles 0 ;;
                add_total categoryProcessedCount ;;;
                (if String.eqb category (last CATEGORIES EmptyString) then ret tt
                 else sleep 2000) ;;;
                process_categories rest
            end
          else if status =? 429 then ret Broken
          else throw
      end
  end.

End Loops.

(** What a run comes to: the main promise resolves or rejects, the total
    the script reports at its end (when it gets there), and the state it
    leaves. *)
Inductive Promise : Type :=
| Resolved
| Rejected.

Record Run : Type := {
  outcome : Promise;
  reported : option nat;
  final : State
}.

Definition initial (d : Store.DB) : State :=
  {| db := d; totalProcessedCount := 0; fetched := []; embedded := [];
     slept := 0 |}.

(** [!GNEWS_API_KEY] *)
Definition no_key (env : Env) : bool := missing (GNEWS_API_KEY env).

(** The run after the configuration checks: the categories inside
    [try], the error caught and logged, the total reported. *)
Definition run_loop (embed : string -> M JS.Value) (skip : JS.Value -> bool)
    (st : State) : Run :=
  let (_, st') := process_categories embed skip CATEGORIES st in
  {| outcome := Resolved;
     reported := Some (totalProcessedCount st');
     final := st' |}.

(** First variant: the connection is taken before [try]. *)
Definition ingestArticles (env : Env) (d : Store.DB) : Run :=
  let st := initial d in
  if no_key env then {| outcome := Resolved; reported := None; final := st |}
  else if negb (connect_ok w) then
    {| outcome := Rejected; reported := None; final := st |}
  else run_loop getEmbedding JS.falsy st.

(** [!embedding || embedding.error] *)
Definition skip_gradio (embedding : JS.Value) : bool :=
  JS.falsy embedding
  || match JS.get_prop embedding "error" with
     | Ok e => JS.truthy e
     | Thrown => false
     end.

(** Second variant: the service's URL is checked too, and the
    connection is taken inside [try]. *)
Definition ingestArticles_gradio (env : Env) (d : Store.DB) : Run :=
  let st := initial d in
  if no_key env then {| outcome := Resolved; reported := None; final := st |}
  else if missing (ML_SERVICE_URL env)
          || includes "localhost" (field_text (ML_SERVICE_URL env))
  then {| outcome := Resolved; reported := None; final := st |}
  else if negb (connect_ok w) then
    {| outcome := Resolved; reported := Some 0; final := st |}
  else run_loop getEmbedding_gradio skip_gradio st.

End WithWorld.

(** The exit code of the process: the script never calls
    [process.exit]; Node exits with 0 when the main promise resolves, and
    with 1 on the unhandled rejection. *)
Definition exit_code (r : Run) : nat :=
  match outcome r with
  | Resolved => 0
  | Rejected => 1
  end.

End Ingest.

(** * Vocabulary of the statements *)

Module Spec.
Import Store.

(** The arithmetic mean as the program computes it: the sum from zero,
    left to right, divided by the count. *)
Definition mean (xs : list float) : float :=
  (fold_left PrimFloat.add xs zero / JS.number_of_nat (List.length xs))%float.

(** A row of the join is at least as recent as another. *)
Definition as_recent_as (x y : Article * Swipe) : Prop :=
  swipe_time (snd y) <= swipe_time (snd x).

(** The user has liked an article of the corpus. *)
Definition has_liked_article (db : DB) (userId : Z) : Prop :=
  exists a us,
    In a (articles db) /\ In us (user_swipes db) /\
    user_id us = userId /\ liked us = Some true /\ article_id us = id a.

(** The user has no liked swipe at all. *)
Definition has_no_like (db : DB) (userId : Z) : Prop :=
  forall us, In us (user_swipes db) -> user_id us = userId ->
             liked us <> Some true.

(** The user has swiped the article. *)
Definition has_swiped (db : DB) (userId articleId : Z) : Prop :=
  exists us, In us (user_swipes db) /\ user_id us = userId /\
             article_id us = articleId.

(** The text is empty or made of white space only. *)
Definition blank (text : string) : bool :=
  Text.all_chars Ingest.is_js_space text.

(** The own field of an object ([None] on anything else, or when the
    object has no such field). *)
Definition field (name : string) (v : JS.Value) : option JS.Value :=
  match v with
  | JS.JObj fields =>
      if existsb (fun kv => String.eqb (fst kv) name) fields
      then Some (JS.lookup name fields)
      else None
  | _ => None
  end.

(** The first element of an array (or of an array-like value). *)
Definition first (v : JS.Value) : option JS.Value :=
  match v with
  | JS.JArr (x :: _) => Some x
  | JS.JStr (String c _) => Some (JS.JStr (String c EmptyString))
  | JS.JObj _ => field "0" v
  | _ => None
  end.

(** The place where a body of the embedding service holds the embedding:
    [body.embedding] for the /embed endpoint, [body.data[0].embedding] for
    the Gradio endpoint.  [None]: the body has no such place. *)
Definition embedding_place (body : JS.Value) : option JS.Value :=
  field "embedding" body.

Definition embedding_place_gradio (body : JS.Value) : option JS.Value :=
  match field "data" body with
  | Some d =>
      match first d with
      | Some e => field "embedding" e
      | None => None
      end
  | None => None
  end.

(** The call to the embedding service failed: no response, a status
    outside 200 .. 299, or a body without the place of the embedding. *)
Definition call_failed (place : JS.Value -> option JS.Value)
    (r : Ingest.Http JS.Value) : Prop :=
  match r with
  | Ingest.NetworkError => True
  | Ingest.Response status body =>
      Ingest.resolves status = false \/ place body = None
  end.

(** An adapter answers a text with a value that depends on the text
    only, never throws, and leaves the state alone but for the log of the
    texts it posted. *)
Definition adapter_like (embed : string -> Ingest.M JS.Value) : Prop :=
  forall text, exists v texts, forall st,
    embed text st =
    (Ok v, Ingest.with_embedded (Ingest.embedded st ++ texts) st).

(** [st'] is [st] with [rows] appended to the articles, and possibly a
    longer log of posted texts. *)
Definition inserted (rows : list Article) (st st' : Ingest.State) : Prop :=
  articles (Ingest.db st') = articles (Ingest.db st) ++ rows /\
  user_swipes (Ingest.db st') = user_swipes (Ingest.db st) /\
  Ingest.fetched st' = Ingest.fetched st /\
  Ingest.slept st' = Ingest.slept st /\
  Ingest.totalProcessedCount st' = Ingest.totalProcessedCount st.

(** The state after the request for a category was logged, and after a
    category's articles were counted (and the pause taken). *)
Definition requested (category : string) (st : Ingest.State) : Ingest.State :=
  {| Ingest.db := Ingest.db st;
     Ingest.totalProcessedCount := Ingest.totalProcessedCount st;
     Ingest.fetched := Ingest.fetched st ++ [category];
     Ingest.embedded := Ingest.embedded st;
     Ingest.slept := Ingest.slept st |}.

Definition counted (category : string) (n : nat) (st : Ingest.State)
    : Ingest.State :=
  {| Ingest.db := Ingest.db st;
     Ingest.totalProcessedCount := Ingest.totalProcessedCount st + n;
     Ingest.fetched := Ingest.fetched st;
     Ingest.embedded := Ingest.embedded st;
     Ingest.slept :=
       if String.eqb category (last Ingest.CATEGORIES EmptyString)
       then Ingest.slept st else Ingest.slept st + 2000 |}.

(** The text the runtime writes for [x] is a JSON number, and read back
    it gives a number that [R] relates to [x].  (A runtime meets this on
    the finite floats, with the equality of numbers for [R]: a NaN and
    the infinities are written as names, which are not JSON numbers.) *)
Definition reads_back {RT : JSRuntime} (R : float -> float -> Prop)
    (x : float) : Prop :=
  JSON.is_number (Number_toString x) = true /\
  R x (StringToNumber (Number_toString x)).

(** A second run from the corpus the first run left changes nothing and
    reports no new article; the total a run reports counts new rows
    only. *)
Definition idempotent (run : DB -> Ingest.Run) : Prop :=
  forall d,
    let r1 := run d in
    let r2 := run (Ingest.db (Ingest.final r1)) in
    Ingest.db (Ingest.final r2) = Ingest.db (Ingest.final r1) /\
    (forall n, Ingest.reported r2 = Some n -> n = 0) /\
    (forall n, Ingest.reported r1 = Some n ->
       List.length (articles d) + n <=
       List.length (articles (Ingest.db (Ingest.final r1)))).

End Spec.

(** * A concrete runtime, datastore and world

    Small instances on which the definitions can be run. *)

Module Fixture.
Import Store.

(** The integer a float is, when it is one. *)
Definition float_to_Z (x : float) : option Z :=
  match FloatOps.Prim2SF x with
  | SpecFloat.S754_zero _ => Some 0%Z
  | SpecFloat.S754_finite s m e =>
      let v :=
        match e with
        | Z0 => Some (Zpos m)
        | Zpos p => Some (Zpos m * 2 ^ Zpos p)%Z
        | Zneg p =>
            if (Zpos m mod 2 ^ Zpos p =? 0)%Z then Some (Zpos m / 2 ^ Zpos p)%Z
            else None
        end in
      match v with
      | Some z => Some (if s then (- z)%Z else z)
      | None => None
      end
  | _ => None
  end.

Definition Z_to_float (z : Z) : float :=
  match z with
  | Z0 => zero
  | Zpos _ => of_uint63 (Uint63.of_Z z)
  | Zneg p => (- of_uint63 (Uint63.of_Z (Zpos p)))%float
  end.

(** A runtime that writes and reads the integers in decimal. *)
Definition decimal_runtime : JSRuntime := {|
  Number_toString x :=
    match float_to_Z x with
    | Some z => DecimalString.NilZero.string_of_int (Z.to_int z)
    | None => "NaN"
    end;
  StringToNumber s :=
    match DecimalString.NilZero.int_of_string s with
    | Some i => Z_to_float (Z.of_int i)
    | None => nan
    end
|}.

(** A datastore whose distance is 0 between equal vector texts and 1
    otherwise, and which takes integral numbers for an integer column and
    booleans or null for a boolean column. *)
Definition toy_store : Datastore := {|
  cosine_distance e t := if String.eqb e t then zero else one;
  to_integer v := match v with JS.JNum x => float_to_Z x | _ => None end;
  to_boolean v :=
    match v with
    | JS.JBool b => Some (Some b)
    | JS.JNull => Some None
    | _ => None
    end
|}.

Definition article (i : Z) (u e : string) : Article :=
  {| id := i; title := "t"; description := "d"; article_url := u;
     image_url := "i"; source_name := "s"; published_at := "p";
     embedding := e |}.

Definition swipe_row (u a : Z) (l : option bool) (t : nat) : Swipe :=
  {| user_id := u; article_id := a; liked := l; swipe_time := t |}.

(** Four articles; user 1 liked articles 1 and 2, user 2 has no swipe. *)
Definition db0 : DB :=
  {| articles := [article 1 "u1" "[1,3]"; article 2 "u2" "[3,5]";
                  article 3 "u3" "[1,3]"; article 4 "u4" "[0,1]"];
     user_swipes := [swipe_row 1 1 (Some true) 10; swipe_row 1 2 (Some true) 20];
     next_article_id := 5;
     clock := 30 |}.

(** An embedding service that answers every text with a body whose
    embedding is a string, in the shape of each endpoint; a headline
    source that is down. *)
Definition oops_world : Ingest.World :=
  {| Ingest.gnews := fun _ => Ingest.NetworkError;
     Ingest.ml := fun _ =>
       Ingest.Response 200 (JS.JObj [("embedding", JS.JStr "oops")]);
     Ingest.connect_ok := true |}.

Definition oops_world_gradio : Ingest.World :=
  {| Ingest.gnews := fun _ => Ingest.NetworkError;
     Ingest.ml := fun _ =>
       Ingest.Response 200
         (JS.JObj [("data", JS.JArr [JS.JObj [("embedding", JS.JStr "oops")]])]);
     Ingest.connect_ok := true |}.

Definition env_ok : Ingest.Env :=
  {| Ingest.GNEWS_API_KEY := Some "key";
     Ingest.ML_SERVICE_URL := Some "https://ml.example" |}.

Definition env_no_key : Ingest.Env :=
  {| Ingest.GNEWS_API_KEY := None;
     Ingest.ML_SERVICE_URL := Some "https://ml.example" |}.

Definition headline (t u : string) : Ingest.RawArticle :=
  {| Ingest.title := Some t; Ingest.description := Some "text";
     Ingest.url := u; Ingest.image := Some "img";
     Ingest.source := Some "src"; Ingest.publishedAt := "2024-01-01" |}.

(** A source that has two headlines for the first category (one of them
    already in [db0]) and answers 429 to the second; an embedding service
    that answers every text with the vector [1, 2]. *)
Definition news_world : Ingest.World :=
  {| Ingest.gnews := fun category =>
       if String.eqb category "general" then
         Ingest.Response 200 (Some [headline "A" "u1"; headline "B" "u9"])
       else if String.eqb category "technology" then Ingest.Response 429 None
       else Ingest.Response 200 (Some []);
     Ingest.ml := fun _ =>
       Ingest.Response 200
         (JS.JObj [("embedding", JS.JArr [JS.JNum 1; JS.JNum 2])]);
     Ingest.connect_ok := true |}.

(** A source that answers 500 to every category. *)
Definition broken_world : Ingest.World :=
  {| Ingest.gnews := fun _ => Ingest.Response 500 None;
     Ingest.ml := fun _ => Ingest.NetworkError;
     Ingest.connect_ok := true |}.

End Fixture.

(** * The rest of the server *)

(** ** Reset, statistics and liked articles *)

Module SwipeLayer.
Import Store Server.

(** *** POST /api/reset *)

Inductive ResetResponse : Type :=
| Reset200 (message : string)
| Reset500.

(** [DELETE FROM user_swipes WHERE user_id = $1] *)
Definition delete_swipes (db : DB) (userId : Z) : DB :=
  {| articles := articles db;
     user_swipes :=
       filter (fun us => negb (user_id us =? userId)%Z) (user_swipes db);
     next_article_id := next_article_id db;
     clock := clock db |}.

Definition reset (db : DB) (userId : Z) : ResetResponse * DB :=
  (Reset200 "Swipes reset successfully", delete_swipes db userId).

(** *** GET /api/stats *)

(** [SELECT COUNT( * ) FROM user_swipes WHERE user_id = $1], read with
    [parseInt]. *)
Definition totalSwipesQuery (db : DB) (userId : Z) : nat :=
  List.length (filter (fun us => (user_id us =? userId)%Z) (user_swipes db)).

(** [GROUP BY name] with [COUNT( * )]: one row per distinct name, with
    the number of rows that have it. *)
Definition group_count (names : list string) : list (string * nat) :=
  map (fun n => (n, count_occ string_dec names n)) (nodup string_dec names).

(** topTopicsQuery: the liked join grouped by [a.source_name],
    [ORDER BY like_count DESC LIMIT 3]. *)
Definition topTopicsQuery (db : DB) (userId : Z) : list (string * nat) :=
  firstn 3
    (OrderBy.sort (fun x y : string * nat => snd y <=? snd x)
       (group_count (map (fun r => source_name (fst r)) (liked_join db userId)))).

Record Stats : Type := {
  totalSwipes : nat;
  topTopics : list string
}.

Inductive StatsResponse : Type :=
| Stats200 (body : Stats)
| Stats500.

Definition stats (db : DB) (userId : Z) : StatsResponse :=
  let totalSwipes := totalSwipesQuery db userId in
  let topTopics := map fst (topTopicsQuery db userId) in
  Stats200 {| totalSwipes := totalSwipes; topTopics := topTopics |}.

(** *** GET /api/liked-articles *)

(** The columns [a.id, a.title, a.article_url, a.source_name]. *)
Record LikedRow : Type := {
  liked_id : Z;
  liked_title : string;
  liked_url : string;
  liked_source : string
}.

Definition liked_columns (a : Article) : LikedRow :=
  {| liked_id := id a; liked_title := title a; liked_url := article_url a;
     liked_source := source_name a |}.

Inductive LikedResponse : Type :=
| Liked200 (rows : list LikedRow)
| Liked500.

(** The liked join, [ORDER BY us.swipe_time DESC]. *)
Definition likedArticles (db : DB) (userId : Z) : LikedResponse :=
  Liked200
    (map (fun r => liked_columns (fst r))
       (OrderBy.sort
          (fun x y => swipe_time (snd y) <=? swipe_time (snd x))
          (liked_join db userId))).

End SwipeLayer.

(** ** Registration, login and the bearer-token middleware *)

Module Auth.

Record User : Type := {
  id : Z;
  email : string;
  password_hash : string
}.

(** The users table; [email] is its unique column. *)
Record Users : Type := {
  users : list User;
  next_user_id : Z
}.

(** The [user] object of a token's payload. *)
Record TokenUser : Type := {
  token_id : Z;
  token_email : string
}.

(** The libraries: bcrypt's hash of a password under a salt and its
    comparison of a password with a hash; jsonwebtoken's signature of the
    payload [{ user }] ([None]: the callback gets an error) and its
    verification of a token ([None]: it throws; [Some None]: the payload
    has no [user]); the text that the datastore's driver binds to a text
    column for a value that is not a string ([None]: the statement
    fails). *)
Class Libraries : Type := {
  bcrypt_hash : string -> string -> string;
  bcrypt_compare : string -> string -> bool;
  jwt_sign : TokenUser -> option string;
  jwt_verify : string -> option (option TokenUser);
  pg_text : JS.Value -> option string
}.

(** [!v] for a field of the body that is a string, null or missing. *)
Definition missing (v : option string) : bool :=
  match v with
  | None => true
  | Some s => Text.is_empty s
  end.

Definition text_of (v : option string) : string :=
  match v with
  | None => EmptyString
  | Some s => s
  end.

(** [INSERT INTO users (email, password_hash) VALUES ($1, $2)
     RETURNING id, email]: the new row, or the code of the error (23505
    is the violation of the unique column). *)
Definition insert_user (t : Users) (email passwordHash : string)
    : (User * Users) + string :=
  if existsb (fun u => String.eqb (Auth.email u) email) (users t)
  then inr "23505"
  else
    let row := {| id := next_user_id t; email := email;
                  password_hash := passwordHash |} in
    inl (row, {| users := users t ++ [row];
                 next_user_id := (next_user_id t + 1)%Z |}).

(** [app.use('/api', authMiddleware)] in front of a handler that starts
    with [const userId = req.user.id]: without [next] the handler does
    not run; with a [req.user] that is undefined the handler throws
    before its [try]. *)
Inductive Routed (A : Type) : Type :=
| Answered401 (error : string)
| Threw
| Handled (a : A).
Arguments Answered401 {A} error.
Arguments Threw {A}.
Arguments Handled {A} a.

Section WithLibraries.
Context {L : Libraries}.

(** *** POST /auth/register *)

Inductive RegisterResponse : Type :=
| Register201 (id : Z) (email : string)
| Register400 (error : string)
| Register500.

(** The parameter bound to the email column: a string as it is, any
    other value as the driver writes it. *)
Definition bind_text (v : JS.Value) : option string :=
  match v with
  | JS.JStr s => Some s
  | _ => pg_text v
  end.

(** [email] and [password] are the fields of the JSON body, whatever
    values they hold ([undefined] when the body has no such field);
    [salt] is what [bcrypt.genSalt(10)] draws.  [bcrypt.hash] rejects a
    password that is not a string, and so does the statement when the
    datastore refuses the email; neither error has the code 23505. *)
Definition register (t : Users) (salt : string) (email password : JS.Value)
    : RegisterResponse * Users :=
  if JS.falsy email || JS.falsy password then
    (Register400 "Email and password are required.", t)
  else
    match password with
    | JS.JStr text =>
        let passwordHash := bcrypt_hash text salt in
        match bind_text email with
        | Some address =>
            match insert_user t address passwordHash with
            | inl (row, t') => (Register201 (id row) (Auth.email row), t')
            | inr code =>
                if String.eqb code "23505"
                then (Register400 "Email already in use.", t)
                else (Register500, t)
            end
        | None => (Register500, t)
        end
    | _ => (Register500, t)
    end.

(** *** POST /auth/login *)

Inductive LoginResponse : Type :=
| Login200 (token : string)
| Login400 (error : string)
| Login401 (error : string)
| LoginSignError.   (* the callback of jwt.sign throws the error it got *)

(** [SELECT * FROM users WHERE email = $1], [rows[0]]. *)
Definition find_user (t : Users) (email : string) : option User :=
  find (fun u => String.eqb (Auth.email u) email) (users t).

Definition login (t : Users) (email password : option string) : LoginResponse :=
  if missing email || missing password then
    Login400 "Email and password are required."
  else
    match find_user t (text_of email) with
    | None => Login401 "Invalid credentials."
    | Some user =>
        if bcrypt_compare (text_of password) (password_hash user) then
          match jwt_sign {| token_id := id user; token_email := Auth.email user |} with
          | Some token => Login200 token
          | None => LoginSignError
          end
        else Login401 "Invalid credentials."
    end.

(** *** authMiddleware *)

(** [s.split(' ')] *)
Fixpoint split_space (s : string) : list string :=
  match s with
  | EmptyString => [EmptyString]
  | String c s' =>
      if Ascii.eqb c " " then EmptyString :: split_space s'
      else
        match split_space s' with
        | piece :: pieces => String c piece :: pieces
        | [] => [String c EmptyString]
        end
  end.

(** What the middleware does with a request: it answers 401, or it
    sets [req.user] and calls [next]. *)
Inductive Checked : Type :=
| Unauthorized (error : string)
| Next (user : option TokenUser).

(** The middleware on [req.headers.authorization] ([None]: no such
    header). *)
Definition authMiddleware (authorization : option string) : Checked :=
  if missing authorization
     || negb (String.prefix "Bearer " (text_of authorization))
  then Unauthorized "Unauthorized: No token provided"
  else
    let token := nth 1 (split_space (text_of authorization)) EmptyString in
    match jwt_verify token with
    | Some user => Next user
    | None => Unauthorized "Unauthorized: Invalid token"
    end.

(** *** The routes under /api *)

Definition under_api {A} (authorization : option string) (handler : Z -> A)
    : Routed A :=
  match authMiddleware authorization with
  | Unauthorized error => Answered401 error
  | Next None => Threw
  | Next (Some user) => Handled (handler (token_id user))
  end.

End WithLibraries.

End Auth.

(** ** The routes under /api, behind the middleware *)

Module Api.
Import Store.

Section WithLibraries.
Context {RT : JSRuntime} {DS : Datastore} {L : Auth.Libraries}.

Definition feed (db : DB) (keys : nat -> nat) (rnd : list nat)
    (authorization : option string)
    : Auth.Routed (Server.FeedResponse * list Server.Step) :=
  Auth.under_api authorization (Server.feed db keys rnd).

(** The answer and the datastore after the request. *)
Definition swipe (db : DB) (authorization : option string)
    (articleId liked : JS.Value) : Auth.Routed Server.SwipeResponse * DB :=
  match Auth.under_api authorization
          (fun userId => Server.swipe db userId articleId liked) with
  | Auth.Handled (response, db') => (Auth.Handled response, db')
  | Auth.Answered401 error => (Auth.Answered401 error, db)
  | Auth.Threw => (Auth.Threw, db)
  end.

Definition reset (db : DB) (authorization : option string)
    : Auth.Routed SwipeLayer.ResetResponse * DB :=
  match Auth.under_api authorization (SwipeLayer.reset db) with
  | Auth.Handled (response, db') => (Auth.Handled response, db')
  | Auth.Answered401 error => (Auth.Answered401 error, db)
  | Auth.Threw => (Auth.Threw, db)
  end.

Definition stats (db : DB) (authorization : option string)
    : Auth.Routed SwipeLayer.StatsResponse :=
  Auth.under_api authorization (SwipeLayer.stats db).

Definition likedArticles (db : DB) (authorization : option string)
    : Auth.Routed SwipeLayer.LikedResponse :=
  Auth.under_api authorization (SwipeLayer.likedArticles db).

End WithLibraries.

End Api.

(** * More vocabulary *)

Module Terms.
Import Store.

(** The number of rows of the user's liked join that have the source. *)
Definition likes (db : DB) (userId : Z) (name : string) : nat :=
  List.length
    (filter (fun r => String.eqb (source_name (fst r)) name)
       (Server.liked_join db userId)).

(** The swipe rows of a user, in the order of the table. *)
Definition swipes_of (db : DB) (userId : Z) : list Swipe :=
  filter (fun us => (user_id us =? userId)%Z) (user_swipes db).

(** Every swipe was recorded before the datastore's present time. *)
Definition times_before_clock (db : DB) : Prop :=
  Forall (fun us => swipe_time us < clock db) (user_swipes db).

(** What may happen to the datastore between two requests of a user
    who does not reset in between: a swipe request of any user, a reset
    of another user, a run of the ingestion script (either variant). *)
Inductive later_without_reset {RT : JSRuntime} {DS : Datastore}
    (userId : Z) (db : DB) : DB -> Prop :=
| later_now : later_without_reset userId db db
| later_swipe (db1 : DB) (other : Z) (articleId liked : JS.Value) :
    later_without_reset userId db db1 ->
    later_without_reset userId db
      (snd (Server.swipe db1 other articleId liked))
| later_reset (db1 : DB) (other : Z) :
    later_without_reset userId db db1 ->
    other <> userId ->
    later_without_reset userId db (snd (SwipeLayer.reset db1 other))
| later_ingest (db1 : DB) (w : Ingest.World) (env : Ingest.Env) :
    later_without_reset userId db db1 ->
    later_without_reset userId db
      (Ingest.db (Ingest.final (Ingest.ingestArticles w env db1)))
| later_ingest_gradio (db1 : DB) (w : Ingest.World) (env : Ingest.Env) :
    later_without_reset userId db db1 ->
    later_without_reset userId db
      (Ingest.db (Ingest.final (Ingest.ingestArticles_gradio w env db1))).

(** The comparison of two rows by the keys drawn for them. *)
Definition by_key {A} (x y : nat * A) : bool := fst x <=? fst y.

(** The keys [0 .. n-1] with a gap at [p]. *)
Definition bump (p k : nat) : nat := if k <? p then k else S k.

(** An integer that orders the floats other than NaN as their
    comparison does: the value scaled by two to the 1074, and two to the
    2100 for the infinities. *)
Definition rank (x : SpecFloat.spec_float) : Z :=
  match x with
  | SpecFloat.S754_zero _ | SpecFloat.S754_nan => 0%Z
  | SpecFloat.S754_infinity s => if s then (- 2 ^ 2100)%Z else (2 ^ 2100)%Z
  | SpecFloat.S754_finite s m e =>
      if s then (- (Zpos m * 2 ^ (e + 1074)))%Z
      else (Zpos m * 2 ^ (e + 1074))%Z
  end.

(** The text has no space in it. *)
Definition no_space (s : string) : bool :=
  Text.all_chars (fun c => negb (Ascii.eqb c " ")) s.

(** What may follow the token in an authorization header: nothing, or a
    space and anything. *)
Definition ignored_tail (s : string) : bool :=
  match s with
  | EmptyString => true
  | String c _ => Ascii.eqb c " "
  end.

(** No two articles of the corpus have the same URL. *)
Definition urls_unique (d : DB) : Prop :=
  NoDup (map article_url (articles d)).

(** The stored embedding of every article is the text of a vector. *)
Definition embeddings_parse {RT : JSRuntime} (d : DB) : Prop :=
  Forall (fun a => JSON.parse_vector (embedding a) <> None) (articles d).

(** The row was made of the headline: the headline has its title, image
    and description, the adapter answered its text with a value that is
    not skipped and that joins to the stored embedding, and the columns
    are the headline's fields. *)
Definition row_of {RT : JSRuntime} (embed : string -> Ingest.M JS.Value)
    (skip : JS.Value -> bool) (h : Ingest.RawArticle) (row : Article) : Prop :=
  Ingest.missing (Ingest.title h) = false /\
  Ingest.missing (Ingest.image h) = false /\
  Ingest.missing (Ingest.description h) = false /\
  exists v,
    (forall st,
       fst (embed (Ingest.field_text (Ingest.title h) ++ ". "
                   ++ Ingest.field_text (Ingest.description h))%string st) = Ok v) /\
    skip v = false /\
    Ingest.embeddingString v = Ok (embedding row) /\
    Ingest.source h = Some (source_name row) /\
    title row = Ingest.field_text (Ingest.title h) /\
    description row = Ingest.field_text (Ingest.description h) /\
    article_url row = Ingest.url h /\
    image_url row = Ingest.field_text (Ingest.image h) /\
    published_at row = Ingest.publishedAt h.

(** The headline is one the source returned, with a status of
    200 .. 299, for one of the categories. *)
Definition fetched_headline (w : Ingest.World) (h : Ingest.RawArticle) : Prop :=
  exists category status headlines,
    In category Ingest.CATEGORIES /\
    Ingest.gnews w category = Ingest.Response status (Some headlines) /\
    Ingest.resolves status = true /\
    In h headlines.

(** The loop pauses after this category once it is done with it: the
    source answered with a status of 200 .. 299 and at least one article,
    and the category is not the last of the list. *)
Definition pauses_after (w : Ingest.World) (category : string) : bool :=
  match Ingest.gnews w category with
  | Ingest.Response status (Some (_ :: _)) =>
      Ingest.resolves status
      && negb (String.eqb category (last Ingest.CATEGORIES EmptyString))
  | _ => false
  end.

(** The request for the category fails with something else than a rate
    limit: no response, or a status outside 200 .. 299 other than 429. *)
Definition fetch_error (w : Ingest.World) (category : string) : Prop :=
  match Ingest.gnews w category with
  | Ingest.NetworkError => True
  | Ingest.Response status _ =>
      Ingest.resolves status = false /\ status <> 429
  end.

(** The embedding service answers with vectors: whenever the adapter
    returns a truthy value, it is an array of numbers whose texts read
    back. *)
Definition service_sends_vectors {RT : JSRuntime} (R : float -> float -> Prop)
    (embed : string -> Ingest.M JS.Value) : Prop :=
  forall text st v,
    fst (embed text st) = Ok v -> JS.truthy v = true ->
    exists xs, v = JS.JArr (map JS.JNum xs) /\ Forall (Spec.reads_back R) xs.

End Terms.

(** * More instances *)

Module Fixture2.

(** Toy libraries: the hash is the two-character salt followed by the
    password; a token is the text [token-] followed by the email, and
    stands for the user 1 with that email; the driver writes a boolean
    as its name and refuses every other value that is not a string. *)
Definition toy_libraries : Auth.Libraries := {|
  Auth.bcrypt_hash password salt := (salt ++ password)%string;
  Auth.bcrypt_compare password hash :=
    String.eqb (String.substring 2 (String.length hash - 2) hash) password;
  Auth.jwt_sign u := Some ("token-" ++ Auth.token_email u)%string;
  Auth.jwt_verify token :=
    if String.prefix "token-" token then
      Some (Some {| Auth.token_id := 1;
                    Auth.token_email :=
                      String.substring 6 (String.length token - 6) token |})
    else None;
  Auth.pg_text v :=
    match v with
    | JS.JBool true => Some "true"
    | JS.JBool false => Some "false"
    | _ => None
    end
|}.

(** An embedding service whose body holds an object where the vector
    should be, in the shape of each endpoint. *)
Definition malformed_world : Ingest.World :=
  {| Ingest.gnews := fun _ => Ingest.NetworkError;
     Ingest.ml := fun _ =>
       Ingest.Response 200
         (JS.JObj
            [("embedding",
              JS.JObj [("values", JS.JArr [JS.JNum 1; JS.JNum 2])])]);
     Ingest.connect_ok := true |}.

Definition malformed_world_gradio : Ingest.World :=
  {| Ingest.gnews := fun _ => Ingest.NetworkError;
     Ingest.ml := fun _ =>
       Ingest.Response 200
         (JS.JObj
            [("data",
              JS.JArr
                [JS.JObj
                   [("embedding",
                     JS.JObj
                       [("values", JS.JArr [JS.JNum 1; JS.JNum 2])])]])]);
     Ingest.connect_ok := true |}.

Definition no_users : Auth.Users :=
  {| Auth.users := []; Auth.next_user_id := 1 |}.

(** A source with three headlines for the first category and none for
    the others; an embedding service that answers the text of the second
    headline with a string and every other text with the vector [1, 2]. *)
Definition mixed_world : Ingest.World :=
  {| Ingest.gnews := fun category =>
       if String.eqb category "general" then
         Ingest.Response 200
           (Some [Fixture.headline "A" "u8"; Fixture.headline "B" "u9";
                  Fixture.headline "C" "u10"])
       else Ingest.Response 200 (Some []);
     Ingest.ml := fun text =>
       if String.eqb text "B. text" then
         Ingest.Response 200 (JS.JObj [("embedding", JS.JStr "oops")])
       else
         Ingest.Response 200
           (JS.JObj [("embedding", JS.JArr [JS.JNum 1; JS.JNum 2])]);
     Ingest.connect_ok := true |}.

End Fixture2.

(** * Properties *)

(** ** Arrays *)

Module JSArrayFacts.
Import JSArray.

Lemma length_set {A} i (x : A) arr : length (set i x arr) = length arr.
Proof.
  revert i; induction arr as [|h t IH]; intros [|i]; simpl; auto.
Qed.

Lemma nth_set_same {A} i (x d : A) arr :
  i < length arr -> nth i (set i x arr) d = x.
Proof.
  revert i; induction arr as [|h t IH]; intros [|i] Hi; simpl in *;
    try lia; auto.
  apply IH; lia.
Qed.

Lemma nth_set_other {A} i j (x d : A) arr :
  i <> j -> nth j (set i x arr) d = nth j arr d.
Proof.
  revert i j; induction arr as [|h t IH]; intros [|i] [|j] Hij; simpl;
    auto; try congruence.
Qed.

Lemma get_set_same i x arr : i < length arr -> get (set i x arr) i = x.
Proof. apply nth_set_same. Qed.

Lemma get_set_other i j x arr : i <> j -> get (set i x arr) j = get arr j.
Proof. apply nth_set_other. Qed.

(** The loop over the indices [k, k+m) touches exactly those. *)
Lemma loop_spec f m : forall k arr,
  k + m <= length arr ->
  let r := fold_left (fun a i => set i (f i (get a i)) a) (seq k m) arr in
  length r = length arr /\
  forall i, get r i = if (k <=? i) && (i <? k + m) then f i (get arr i)
                      else get arr i.
Proof.
  induction m as [|m IH]; intros k arr Hk; simpl.
  - split; auto. intros i.
    destruct (k <=? i) eqn:E1, (i <? k + 0) eqn:E2; simpl; auto.
    apply Nat.leb_le in E1. apply Nat.ltb_lt in E2. lia.
  - destruct (IH (S k) (set k (f k (get arr k)) arr)) as [Hl Hg].
    { rewrite length_set. lia. }
    split.
    + rewrite Hl. apply length_set.
    + intros i. rewrite Hg.
      destruct (Nat.eq_dec k i) as [->|Hne].
      * rewrite get_set_same by lia.
        replace (S i <=? i) with false by (symmetry; apply Nat.leb_gt; lia).
        replace (i <=? i) with true by (symmetry; apply Nat.leb_le; lia).
        replace (i <? i + S m) with true by (symmetry; apply Nat.ltb_lt; lia).
        reflexivity.
      * rewrite get_set_other by assumption.
        replace (k + S m) with (S k + m) by lia.
        destruct (S k <=? i) eqn:E1, (k <=? i) eqn:E2; simpl; auto.
        -- apply Nat.leb_le in E1. apply Nat.leb_gt in E2. lia.
        -- apply Nat.leb_gt in E1. apply Nat.leb_le in E2. lia.
Qed.

Lemma for_each_index_length n f arr :
  n <= length arr -> length (for_each_index n f arr) = length arr.
Proof. intros H. apply (loop_spec f n 0 arr). lia. Qed.

Lemma for_each_index_get n f arr i :
  n <= length arr -> i < n ->
  get (for_each_index n f arr) i = f i (get arr i).
Proof.
  intros H Hi. destruct (loop_spec f n 0 arr) as [_ Hg]; [lia|].
  unfold for_each_index. rewrite Hg. simpl.
  replace (i <? n) with true by (symmetry; apply Nat.ltb_lt; lia).
  reflexivity.
Qed.

End JSArrayFacts.

(** ** Text *)

Module TextFacts.
Import Text.

Lemma drop_trailing_all ws s :
  all_chars ws s = true -> drop_trailing ws s = EmptyString.
Proof.
  induction s as [|c s IH]; simpl; auto.
  intros H. apply andb_prop in H as [Hc Hs].
  rewrite (IH Hs), Hc. reflexivity.
Qed.

Lemma drop_leading_all ws s :
  all_chars ws s = true -> drop_leading ws s = EmptyString.
Proof.
  induction s as [|c s IH]; simpl; auto.
  intros H. apply andb_prop in H as [Hc Hs]. rewrite Hc. auto.
Qed.

Lemma trim_all ws s : all_chars ws s = true -> trim ws s = EmptyString.
Proof. intros H. unfold trim. rewrite drop_leading_all; auto. Qed.

Lemma drop_leading_none ws s :
  all_chars (fun c => negb (ws c)) s = true -> drop_leading ws s = s.
Proof.
  destruct s as [|c s]; simpl; auto.
  intros H. apply andb_prop in H as [Hc _].
  apply negb_true_iff in Hc. rewrite Hc. reflexivity.
Qed.

Lemma drop_trailing_none ws s :
  all_chars (fun c => negb (ws c)) s = true -> drop_trailing ws s = s.
Proof.
  induction s as [|c s IH]; simpl; auto.
  intros H. apply andb_prop in H as [Hc Hs].
  apply negb_true_iff in Hc. rewrite (IH Hs), Hc.
  destruct s; reflexivity.
Qed.

Lemma trim_none ws s :
  all_chars (fun c => negb (ws c)) s = true -> trim ws s = s.
Proof.
  intros H. unfold trim. rewrite drop_leading_none by assumption.
  apply drop_trailing_none; assumption.
Qed.

Lemma all_chars_impl (p q : ascii -> bool) s :
  (forall c, p c = true -> q c = true) ->
  all_chars p s = true -> all_chars q s = true.
Proof.
  intros Hpq. induction s as [|c s IH]; simpl; auto.
  intros H. apply andb_prop in H as [Hc Hs].
  rewrite (Hpq _ Hc), (IH Hs). reflexivity.
Qed.

Lemma drop_trailing_empty ws s :
  drop_trailing ws s = EmptyString -> all_chars ws s = true.
Proof.
  induction s as [|c s IH]; simpl; auto.
  destruct (drop_trailing ws s) eqn:E; [|discriminate].
  destruct (ws c); [|discriminate]. intros _. simpl. apply IH. reflexivity.
Qed.

Lemma drop_leading_all_inv ws s :
  all_chars ws (drop_leading ws s) = true -> all_chars ws s = true.
Proof.
  induction s as [|c s IH]; simpl; auto.
  destruct (ws c) eqn:E; simpl; auto.
  rewrite E. simpl. discriminate.
Qed.

Lemma trim_empty ws s : trim ws s = EmptyString -> all_chars ws s = true.
Proof.
  intros H. apply drop_leading_all_inv, drop_trailing_empty. exact H.
Qed.

Lemma length_zero s : (String.length s =? 0) = is_empty s.
Proof. destruct s; reflexivity. Qed.

End TextFacts.

(** ** ORDER BY *)

Module OrderByFacts.
Import OrderBy.

Section Sort.
Context {A : Type} (leb : A -> A -> bool).

Lemma insert_perm x l : Permutation (x :: l) (insert leb x l).
Proof.
  induction l as [|y l IH]; simpl; auto.
  destruct (leb x y); auto.
  rewrite perm_swap. constructor. exact IH.
Qed.

Lemma sort_perm l : Permutation l (sort leb l).
Proof.
  induction l as [|x l IH]; simpl; auto.
  rewrite <- insert_perm. constructor. exact IH.
Qed.

Lemma sort_length l : List.length (sort leb l) = List.length l.
Proof. symmetry. apply Permutation_length, sort_perm. Qed.

Lemma sort_In x l : In x (sort leb l) <-> In x l.
Proof.
  split; apply Permutation_in; [symmetry|]; apply sort_perm.
Qed.

(** With a total and transitive order the result is sorted. *)
Lemma insert_sorted x l :
  (forall a b, leb a b = true \/ leb b a = true) ->
  (forall a b c, leb a b = true -> leb b c = true -> leb a c = true) ->
  StronglySorted (fun a b => leb a b = true) l ->
  StronglySorted (fun a b => leb a b = true) (insert leb x l).
Proof.
  intros Htotal Htrans. induction 1 as [|y l Hl IH Hy]; simpl.
  - constructor; constructor.
  - destruct (leb x y) eqn:E.
    + constructor; [constructor; assumption|].
      constructor; [exact E|].
      eapply Forall_impl; [|exact Hy]. intros z Hz. exact (Htrans _ _ _ E Hz).
    + constructor; [exact IH|].
      apply (Permutation_Forall (insert_perm x l)).
      constructor; [|exact Hy].
      destruct (Htotal x y) as [H|H]; [congruence|exact H].
Qed.

Lemma sort_sorted l :
  (forall a b, leb a b = true \/ leb b a = true) ->
  (forall a b c, leb a b = true -> leb b c = true -> leb a c = true) ->
  StronglySorted (fun a b => leb a b = true) (sort leb l).
Proof.
  intros Htotal Htrans. induction l as [|x l IH]; simpl.
  - constructor.
  - apply insert_sorted; assumption.
Qed.

End Sort.

Lemma random_perm {A} keys (rows : list A) : Permutation rows (random keys rows).
Proof.
  unfold random.
  rewrite <- sort_perm.
  assert (H : forall (ks : list nat), List.length ks = List.length rows ->
              map snd (combine ks rows) = rows).
  { clear. induction rows as [|r rows IH]; intros [|k ks] Hl; simpl in *;
      try discriminate; auto.
    f_equal. apply IH. lia. }
  rewrite H; auto.
  rewrite length_map, length_seq. reflexivity.
Qed.

Section SortMap.
Context {A B : Type} (leA : A -> A -> bool) (leB : B -> B -> bool) (f : A -> B).
Hypothesis Hf : forall x y, leB (f x) (f y) = leA x y.

(** Sorting commutes with a map that keeps the order. *)
Lemma insert_map x l : insert leB (f x) (map f l) = map f (insert leA x l).
Proof.
  induction l as [|y l IH]; [reflexivity|]. simpl.
  rewrite Hf. destruct (leA x y); [reflexivity|]. simpl. rewrite IH. reflexivity.
Qed.

Lemma sort_map l : sort leB (map f l) = map f (sort leA l).
Proof.
  induction l as [|x l IH]; [reflexivity|]. simpl.
  rewrite IH. apply insert_map.
Qed.

End SortMap.

(** In a sorted list every element of a prefix is related to every
    element after it. *)
Lemma strongly_sorted_split {A} (R : A -> A -> Prop) (l : list A) n :
  StronglySorted R l ->
  forall x y, In x (firstn n l) -> In y (skipn n l) -> R x y.
Proof.
  intros Hs. revert n. induction Hs as [|a l Hl IH Ha]; intros n x y Hx Hy.
  - destruct n; destruct Hx.
  - destruct n as [|n]; [destruct Hx|]. simpl in Hx, Hy.
    destruct Hx as [<-|Hx].
    + rewrite Forall_forall in Ha. apply Ha.
      rewrite <- (firstn_skipn n l). apply in_or_app. right. exact Hy.
    + exact (IH n x y Hx Hy).
Qed.

End OrderByFacts.

(** ** ORDER BY RANDOM(): every order is drawn by some keys *)

Module RandomFacts.
Import OrderBy OrderByFacts Terms.

Section Keys.
Context {A : Type}.

Lemma map_snd_combine (ks : list nat) (l : list A) :
  length ks = length l -> map snd (combine ks l) = l.
Proof.
  revert l. induction ks as [|k ks IH]; intros [|x l] H;
    try discriminate; [reflexivity|].
  simpl. rewrite IH; [reflexivity|]. simpl in H. lia.
Qed.

Lemma combine_map_keys (g : nat -> nat) (ks : list nat) (l : list A) :
  combine (map g ks) l = map (fun kx => (g (fst kx), snd kx)) (combine ks l).
Proof.
  revert l. induction ks as [|k ks IH]; intros [|x l]; try reflexivity.
  simpl. rewrite IH. reflexivity.
Qed.

(** The key [s + length t1] goes after the keys [s ..] of [t1] and
    before greater keys. *)
Lemma insert_after (r : A) (t1 : list A) : forall s rest,
  match rest with
  | [] => True
  | (k, _) :: _ => s + length t1 <= k
  end ->
  insert by_key (s + length t1, r) (combine (seq s (length t1)) t1 ++ rest) =
  combine (seq s (length t1)) t1 ++ (s + length t1, r) :: rest.
Proof.
  induction t1 as [|x t1 IH]; intros s rest Hrest.
  - simpl. rewrite Nat.add_0_r in *. destruct rest as [|[k y] rest];
      [reflexivity|].
    simpl. unfold by_key at 1. simpl.
    apply Nat.leb_le in Hrest. rewrite Hrest. reflexivity.
  - cbn [length seq combine app insert]. unfold by_key at 1. cbn [fst].
    replace (s + S (length t1) <=? s) with false
      by (symmetry; apply Nat.leb_gt; lia).
    replace (s + S (length t1)) with (S s + length t1) by lia.
    rewrite IH; [reflexivity|].
    destruct rest as [|[k y] rest]; [exact I|]. simpl in Hrest. lia.
Qed.

Lemma bump_order p a b : (bump p a <=? bump p b) = (a <=? b).
Proof.
  unfold bump.
  destruct (Nat.ltb_spec a p), (Nat.ltb_spec b p),
    (Nat.leb_spec a b);
    first [reflexivity | apply Nat.leb_le; lia | apply Nat.leb_gt; lia].
Qed.

Lemma map_bump_seq p : forall s q,
  s + q <= p -> map (bump p) (seq s q) = seq s q.
Proof.
  intros s q. revert s. induction q as [|q IH]; intros s H; [reflexivity|].
  simpl. rewrite IH by lia. unfold bump.
  replace (s <? p) with true by (symmetry; apply Nat.ltb_lt; lia).
  reflexivity.
Qed.

Lemma map_bump_seq_above p : forall s q,
  p <= s -> map (bump p) (seq s q) = seq (S s) q.
Proof.
  intros s q. revert s. induction q as [|q IH]; intros s H; [reflexivity|].
  simpl. rewrite IH by lia. unfold bump.
  replace (s <? p) with false by (symmetry; apply Nat.ltb_ge; lia).
  reflexivity.
Qed.

Lemma combine_app_keys (k1 k2 : list nat) (l1 l2 : list A) :
  length k1 = length l1 ->
  combine (k1 ++ k2) (l1 ++ l2) = combine k1 l1 ++ combine k2 l2.
Proof.
  revert l1. induction k1 as [|k k1 IH]; intros [|x l1] H;
    try discriminate; [reflexivity|].
  simpl. rewrite IH; [reflexivity|]. simpl in H. lia.
Qed.

(** Every arrangement of the rows is the order of some keys. *)
Lemma keys_for : forall (rows target : list A),
  Permutation rows target ->
  exists ks,
    length ks = length rows /\
    sort by_key (combine ks rows) = combine (seq 0 (length target)) target.
Proof.
  induction rows as [|r rs IH]; intros target Hperm.
  - apply Permutation_nil in Hperm. subst target. exists []. auto.
  - assert (Hin : In r target)
      by (apply (Permutation_in _ Hperm); left; reflexivity).
    apply in_split in Hin as (t1 & t2 & ->).
    apply Permutation_cons_app_inv in Hperm.
    destruct (IH _ Hperm) as (ks & Hlen & Hsort).
    set (p := length t1).
    exists (p :: map (bump p) ks). split; [simpl; rewrite length_map; lia|].
    cbn [combine sort].
    rewrite combine_map_keys.
    rewrite (sort_map by_key by_key
               (fun kx : nat * A => (bump p (fst kx), snd kx)))
      by (intros x y; apply bump_order).
    rewrite Hsort, <- combine_map_keys.
    rewrite !length_app. cbn [length]. fold p.
    rewrite seq_app, map_app.
    rewrite (map_bump_seq p 0 p) by lia.
    rewrite (map_bump_seq_above p (0 + p) (length t2)) by lia.
    rewrite combine_app_keys by (rewrite length_seq; reflexivity).
    replace (p + S (length t2)) with (p + 1 + length t2) by lia.
    rewrite seq_app, seq_app.
    rewrite <- app_assoc.
    rewrite combine_app_keys by (rewrite length_seq; reflexivity).
    cbn [seq app combine].
    replace (0 + (p + 1)) with (S (0 + p)) by lia.
    unfold p at 1 3 4.
    rewrite (insert_after r t1 0); [reflexivity|].
    destruct t2; [exact I|]. simpl. fold p. lia.
Qed.

Lemma map_nth_seq (ks : list nat) :
  map (fun i => nth i ks 0) (seq 0 (length ks)) = ks.
Proof.
  induction ks as [|k ks IH]; [reflexivity|].
  cbn [length seq map nth]. rewrite <- seq_shift, map_map. cbn [nth].
  rewrite IH. reflexivity.
Qed.

Lemma random_reaches (rows target : list A) :
  Permutation rows target -> exists keys, random keys rows = target.
Proof.
  intros Hperm. destruct (keys_for rows target Hperm) as (ks & Hlen & Hsort).
  exists (fun i => nth i ks 0). unfold random.
  rewrite <- Hlen, map_nth_seq.
  change (fun x y : nat * A => fst x <=? fst y) with (@by_key A).
  rewrite Hsort. apply map_snd_combine. apply length_seq.
Qed.

End Keys.
End RandomFacts.

(** ** The order of the datastore's floats *)

Module Float8Facts.
Import SpecFloat FloatOps Store Terms.

Local Open Scope Z_scope.

(** The number of bits of a positive number. *)
Lemma digits2_pos_bounds (m : positive) :
  2 ^ (Zpos (digits2_pos m) - 1) <= Zpos m < 2 ^ Zpos (digits2_pos m).
Proof.
  induction m as [m IH|m IH|]; cbn [digits2_pos].
  - rewrite Pos2Z.inj_succ.
    replace (Z.succ (Zpos (digits2_pos m)) - 1) with (Zpos (digits2_pos m)) by lia.
    rewrite Z.pow_succ_r by lia.
    assert (H : 2 ^ Zpos (digits2_pos m) = 2 * 2 ^ (Zpos (digits2_pos m) - 1)).
    { rewrite <- Z.pow_succ_r by lia. f_equal. lia. }
    lia.
  - rewrite Pos2Z.inj_succ.
    replace (Z.succ (Zpos (digits2_pos m)) - 1) with (Zpos (digits2_pos m)) by lia.
    rewrite Z.pow_succ_r by lia.
    assert (H : 2 ^ Zpos (digits2_pos m) = 2 * 2 ^ (Zpos (digits2_pos m) - 1)).
    { rewrite <- Z.pow_succ_r by lia. f_equal. lia. }
    lia.
  - simpl. lia.
Qed.

(** What a valid finite binary64 value is made of. *)
Lemma bounded_inv (m : positive) (e : Z) :
  bounded prec emax m e = true ->
  -1074 <= e <= 971 /\
  Zpos (digits2_pos m) <= 53 /\
  (-1074 < e -> Zpos (digits2_pos m) = 53).
Proof.
  unfold bounded, canonical_mantissa, fexp, SpecFloat.emin, prec, emax.
  intros H. apply andb_prop in H as [Hc He].
  apply Z.eqb_eq in Hc. apply Z.leb_le in He.
  lia.
Qed.

Lemma rank_finite (m : positive) (e : Z) :
  bounded prec emax m e = true ->
  0 < Zpos m * 2 ^ (e + 1074) < 2 ^ 2100.
Proof.
  intros H. destruct (bounded_inv m e H) as (He & Hd & _).
  assert (Hm := digits2_pos_bounds m).
  assert (Hp : 0 < 2 ^ (e + 1074)) by (apply Z.pow_pos_nonneg; lia).
  split; [lia|].
  assert (H1 : Zpos m < 2 ^ 53).
  { apply Z.lt_le_trans with (2 ^ Zpos (digits2_pos m)); [lia|].
    apply Z.pow_le_mono_r; lia. }
  assert (H2 : 2 ^ (e + 1074) <= 2 ^ 2045) by (apply Z.pow_le_mono_r; lia).
  replace (2 ^ 2100) with (2 ^ 53 * 2 ^ 2047) by (rewrite <- Z.pow_add_r; [reflexivity|lia..]).
  assert (H3 : 2 ^ 2045 < 2 ^ 2047) by (apply Z.pow_lt_mono_r; lia).
  assert (H4 : 0 < 2 ^ 53) by (apply Z.pow_pos_nonneg; lia).
  nia.
Qed.

Lemma rank_exponent (m1 m2 : positive) (e1 e2 : Z) :
  bounded prec emax m1 e1 = true -> bounded prec emax m2 e2 = true ->
  e1 < e2 ->
  Zpos m1 * 2 ^ (e1 + 1074) < Zpos m2 * 2 ^ (e2 + 1074).
Proof.
  intros H1 H2 He.
  destruct (bounded_inv m1 e1 H1) as (He1 & Hd1 & _).
  destruct (bounded_inv m2 e2 H2) as (He2 & _ & Hd2).
  assert (Hm1 := digits2_pos_bounds m1).
  assert (Hm2 := digits2_pos_bounds m2).
  rewrite Hd2 in Hm2 by lia. change (53 - 1) with 52 in Hm2.
  assert (Hb1 : Zpos m1 < 2 * 2 ^ 52).
  { change (2 * 2 ^ 52) with (2 ^ 53).
    apply Z.lt_le_trans with (2 ^ Zpos (digits2_pos m1)); [lia|].
    apply Z.pow_le_mono_r; lia. }
  destruct Hm2 as [Hm2 _].
  assert (Ha : 0 < 2 ^ 52) by (apply Z.pow_pos_nonneg; lia).
  remember (2 ^ 52) as a eqn:Ea. clear Ea.
  replace (e2 + 1074) with ((e2 - e1) + (e1 + 1074)) by lia.
  rewrite (Z.pow_add_r 2 (e2 - e1) (e1 + 1074)) by lia.
  assert (Hp : 0 < 2 ^ (e1 + 1074)) by (apply Z.pow_pos_nonneg; lia).
  assert (Hq : 2 ^ 1 <= 2 ^ (e2 - e1)) by (apply Z.pow_le_mono_r; lia).
  change (2 ^ 1) with 2 in Hq.
  remember (2 ^ (e2 - e1)) as q eqn:Eq. clear Eq.
  remember (2 ^ (e1 + 1074)) as p eqn:Ep. clear Ep.
  apply Z.lt_le_trans with (2 * a * p).
  - apply Z.mul_lt_mono_pos_r; assumption.
  - rewrite Z.mul_assoc. apply Z.mul_le_mono_nonneg_r; [lia|]. nia.
Qed.

Lemma SFcompare_rank (x y : spec_float) :
  valid_binary prec emax x = true -> valid_binary prec emax y = true ->
  x <> S754_nan -> y <> S754_nan ->
  SFcompare x y = Some (rank x ?= rank y).
Proof.
  intros Hx Hy Nx Ny.
  assert (Hinf : 0 < 2 ^ 2100) by (apply Z.pow_pos_nonneg; lia).
  destruct x as [sx|sx| |sx mx ex], y as [sy|sy| |sy my ey];
    try congruence; cbn [SFcompare rank valid_binary] in *;
    try (destruct sx); try (destruct sy);
    try (assert (Rx := rank_finite _ _ Hx));
    try (assert (Ry := rank_finite _ _ Hy));
    try (f_equal; symmetry;
         first [apply Z.compare_eq_iff; lia
               |apply Z.compare_lt_iff; lia
               |apply Z.compare_gt_iff; lia]).
  - (* both negative *)
    f_equal. rewrite Pos.compare_cont_spec. cbn [Pos.switch_Eq].
    destruct (Z.compare_spec ex ey) as [->|He|He].
    + assert (Hp : 0 < 2 ^ (ey + 1074)) by (apply Z.pow_pos_nonneg;
        destruct (bounded_inv _ _ Hy); lia).
      destruct (Pos.compare_spec mx my) as [->|Hm|Hm]; cbn [CompOpp];
        symmetry.
      * apply Z.compare_eq_iff. reflexivity.
      * apply Z.compare_gt_iff.
        assert (Zpos mx * 2 ^ (ey + 1074) < Zpos my * 2 ^ (ey + 1074))
          by (apply Z.mul_lt_mono_pos_r; [exact Hp|exact Hm]).
        lia.
      * apply Z.compare_lt_iff.
        assert (Zpos my * 2 ^ (ey + 1074) < Zpos mx * 2 ^ (ey + 1074))
          by (apply Z.mul_lt_mono_pos_r; [exact Hp|exact Hm]).
        lia.
    + symmetry. apply Z.compare_gt_iff.
      assert (H := rank_exponent _ _ _ _ Hx Hy He). lia.
    + symmetry. apply Z.compare_lt_iff.
      assert (H := rank_exponent _ _ _ _ Hy Hx He). lia.
  - f_equal. rewrite Pos.compare_cont_spec. cbn [Pos.switch_Eq].
    destruct (Z.compare_spec ex ey) as [->|He|He].
    + assert (Hp : 0 < 2 ^ (ey + 1074)) by (apply Z.pow_pos_nonneg;
        destruct (bounded_inv _ _ Hy); lia).
      destruct (Pos.compare_spec mx my) as [->|Hm|Hm]; symmetry.
      * apply Z.compare_eq_iff. reflexivity.
      * apply Z.compare_lt_iff.
        apply Z.mul_lt_mono_pos_r; [exact Hp|exact Hm].
      * apply Z.compare_gt_iff.
        apply Z.mul_lt_mono_pos_r; [exact Hp|exact Hm].
    + symmetry. apply Z.compare_lt_iff.
      exact (rank_exponent _ _ _ _ Hx Hy He).
    + symmetry. apply Z.compare_gt_iff.
      exact (rank_exponent _ _ _ _ Hy Hx He).
Qed.

Lemma SFleb_rank (x y : spec_float) :
  valid_binary prec emax x = true -> valid_binary prec emax y = true ->
  x <> S754_nan -> y <> S754_nan ->
  SFleb x y = (rank x <=? rank y).
Proof.
  intros Hx Hy Nx Ny. unfold SFleb.
  rewrite (SFcompare_rank x y Hx Hy Nx Ny). unfold Z.leb.
  destruct (rank x ?= rank y); reflexivity.
Qed.

Lemma is_nan_spec (x : float) :
  PrimFloat.is_nan x = false <-> Prim2SF x <> S754_nan.
Proof.
  unfold PrimFloat.is_nan. rewrite FloatAxioms.eqb_spec. unfold SFeqb.
  split.
  - intros H E. rewrite E in H. discriminate.
  - intros N.
    rewrite (SFcompare_rank _ _ (FloatAxioms.Prim2SF_valid x)
               (FloatAxioms.Prim2SF_valid x) N N).
    rewrite Z.compare_refl. reflexivity.
Qed.

Lemma float8_le_rank (x y : float) :
  PrimFloat.is_nan x = false -> PrimFloat.is_nan y = false ->
  float8_le x y = (rank (Prim2SF x) <=? rank (Prim2SF y)).
Proof.
  intros Nx Ny. unfold float8_le. rewrite Nx, Ny, FloatAxioms.leb_spec.
  apply SFleb_rank; try apply FloatAxioms.Prim2SF_valid;
    apply is_nan_spec; assumption.
Qed.

Lemma float8_le_total (x y : float) :
  float8_le x y = true \/ float8_le y x = true.
Proof.
  destruct (PrimFloat.is_nan y) eqn:Ny;
    [left; unfold float8_le; rewrite Ny; reflexivity|].
  destruct (PrimFloat.is_nan x) eqn:Nx;
    [right; unfold float8_le; rewrite Nx; reflexivity|].
  rewrite !float8_le_rank by assumption.
  destruct (Z.leb_spec (rank (Prim2SF x)) (rank (Prim2SF y)));
    [left; reflexivity|right; apply Z.leb_le; lia].
Qed.

Lemma float8_le_trans (x y z : float) :
  float8_le x y = true -> float8_le y z = true -> float8_le x z = true.
Proof.
  destruct (PrimFloat.is_nan z) eqn:Nz;
    [intros _ _; unfold float8_le; rewrite Nz; reflexivity|].
  destruct (PrimFloat.is_nan y) eqn:Ny;
    [intros _ H; unfold float8_le in H; rewrite Nz, Ny in H; discriminate|].
  destruct (PrimFloat.is_nan x) eqn:Nx;
    [intros H _; unfold float8_le in H; rewrite Ny, Nx in H; discriminate|].
  rewrite !float8_le_rank by assumption.
  intros H1 H2. apply Z.leb_le in H1, H2. apply Z.leb_le. lia.
Qed.

End Float8Facts.

(** ** JSON *)

Module JSONFacts.
Import Text JSON TextFacts.

Lemma append_assoc (a b c : string) : ((a ++ b) ++ c = a ++ (b ++ c))%string.
Proof. induction a as [|x a IH]; simpl; [reflexivity|]. rewrite IH. reflexivity. Qed.

Lemma step_number_char st c st' :
  step st (classify c) = Some st' -> number_char c = true.
Proof.
  unfold number_char. destruct (classify c); auto.
  destruct st; discriminate.
Qed.

Lemma run_number_chars s : forall st,
  run st s = true -> all_chars number_char s = true.
Proof.
  induction s as [|c s IH]; intros st H; simpl in *; auto.
  destruct (step st (classify c)) as [st'|] eqn:E; [|discriminate].
  rewrite (step_number_char _ _ _ E). simpl. exact (IH st' H).
Qed.

Lemma is_number_chars s :
  is_number s = true -> all_chars number_char s = true /\ s <> EmptyString.
Proof.
  intros H. split; [exact (run_number_chars s NStart H)|].
  intros ->. discriminate.
Qed.

(** A character of a number is not white space, a comma or a bracket. *)
Lemma number_char_plain c :
  number_char c = true ->
  is_ws c = false /\ Ascii.eqb c "," = false /\ Ascii.eqb c "]" = false.
Proof.
  destruct c as [[] [] [] [] [] [] [] []]; intros H;
    try discriminate H; repeat split.
Qed.

Lemma number_chars_no_ws s :
  all_chars number_char s = true ->
  all_chars (fun c => negb (is_ws c)) s = true.
Proof.
  apply all_chars_impl. intros c Hc.
  destruct (number_char_plain c Hc) as (-> & _). reflexivity.
Qed.

(** Cutting the text of a token followed by a bracket, or by a comma. *)
Lemma split_items_last tok rest :
  all_chars number_char tok = true ->
  split_items (tok ++ String "]" rest) = Some ([tok], rest).
Proof.
  induction tok as [|c tok IH]; simpl; intros H; [reflexivity|].
  apply andb_prop in H as [Hc Htok].
  destruct (number_char_plain c Hc) as (_ & Hcomma & Hbr).
  rewrite Hbr, (IH Htok), Hcomma. reflexivity.
Qed.

Lemma split_items_comma tok s item items rest :
  all_chars number_char tok = true ->
  split_items s = Some (item :: items, rest) ->
  split_items (tok ++ String "," s) = Some (tok :: item :: items, rest).
Proof.
  intros Htok Hs.
  induction tok as [|c tok IH]; simpl.
  - rewrite Hs. reflexivity.
  - simpl in Htok. apply andb_prop in Htok as [Hc Htok].
    destruct (number_char_plain c Hc) as (_ & Hcomma & Hbr).
    rewrite Hbr, (IH Htok), Hcomma. reflexivity.
Qed.

Lemma split_items_concat tok toks rest :
  Forall (fun t => all_chars number_char t = true) (tok :: toks) ->
  split_items (String.concat "," (tok :: toks) ++ String "]" rest) =
  Some (tok :: toks, rest).
Proof.
  revert tok. induction toks as [|t toks IH]; intros tok H.
  - simpl. apply split_items_last. inversion H; assumption.
  - inversion H as [|? ? Htok Hrest]; subst.
    change (String.concat "," (tok :: t :: toks))
      with (tok ++ "," ++ String.concat "," (t :: toks))%string.
    rewrite append_assoc.
    change (("," ++ String.concat "," (t :: toks)) ++ String "]" rest)%string
      with (String "," (String.concat "," (t :: toks) ++ String "]" rest)).
    apply split_items_comma; [exact Htok|]. apply IH. exact Hrest.
Qed.

Section WithRuntime.
Context {RT : JSRuntime}.

Lemma parse_number_token tok :
  is_number tok = true -> parse_number tok = Some (StringToNumber tok).
Proof.
  intros H. unfold parse_number.
  destruct (is_number_chars tok H) as (Hc & _).
  rewrite (trim_none _ _ (number_chars_no_ws _ Hc)), H. reflexivity.
Qed.

Lemma parse_numbers_tokens toks :
  Forall (fun t => is_number t = true) toks ->
  parse_numbers toks = Some (map StringToNumber toks).
Proof.
  induction 1 as [|tok toks Htok _ IH]; simpl; [reflexivity|].
  rewrite (parse_number_token tok Htok), IH. reflexivity.
Qed.

(** The text of a bracketed, comma-separated list of number tokens
    parses to the values of the tokens. *)
Lemma parse_vector_tokens toks :
  Forall (fun t => is_number t = true) toks ->
  parse_vector ("[" ++ String.concat "," toks ++ "]") =
  Some (map StringToNumber toks).
Proof.
  intros H. unfold parse_vector.
  change (drop_leading is_ws ("[" ++ String.concat "," toks ++ "]"))
    with (String "[" (String.concat "," toks ++ String "]" EmptyString)).
  destruct toks as [|tok toks]; [reflexivity|].
  rewrite split_items_concat.
  2:{ eapply Forall_impl; [|exact H]. intros t Ht. apply is_number_chars, Ht. }
  simpl all_chars. cbv iota.
  destruct toks as [|t toks]; [|apply parse_numbers_tokens; exact H].
  inversion H as [|? ? Htok _]; subst.
  destruct (is_number_chars tok Htok) as (Hc & Hne).
  destruct tok as [|c tok]; [congruence|].
  simpl in Hc. apply andb_prop in Hc as [Hc _].
  destruct (number_char_plain c Hc) as (Hws & _).
  simpl all_chars. rewrite Hws. simpl andb. cbv iota.
  apply parse_numbers_tokens. exact H.
Qed.

End WithRuntime.

End JSONFacts.

(** ** The runtime's numbers read back *)

Module EcmaFacts.
Import SpecFloat Ecma.

Local Open Scope Z_scope.

(** *** Digits *)

Lemma digit_char_value (d : Z) :
  0 <= d < 10 -> digit_value (digit_char d) = Some d.
Proof.
  intros H.
  assert (E : d = 0 \/ d = 1 \/ d = 2 \/ d = 3 \/ d = 4 \/ d = 5 \/ d = 6
              \/ d = 7 \/ d = 8 \/ d = 9) by lia.
  repeat (destruct E as [->|E]; [reflexivity|]). subst d. reflexivity.
Qed.

Lemma digit_char_digit (d : Z) : 0 <= d < 10 -> is_digit (digit_char d) = true.
Proof. intros H. unfold is_digit. rewrite (digit_char_value d H). reflexivity. Qed.

Lemma digit_char_zero (d : Z) :
  0 < d < 10 -> Ascii.eqb (digit_char d) "0" = false.
Proof.
  intros H.
  assert (E : d = 1 \/ d = 2 \/ d = 3 \/ d = 4 \/ d = 5 \/ d = 6
              \/ d = 7 \/ d = 8 \/ d = 9) by lia.
  repeat (destruct E as [->|E]; [reflexivity|]). subst d. reflexivity.
Qed.

Lemma append_nil (a : string) : (a ++ EmptyString)%string = a.
Proof. induction a as [|x a IH]; simpl; [reflexivity|]. rewrite IH. reflexivity. Qed.

Lemma length_append (a b : string) :
  String.length (a ++ b) = (String.length a + String.length b)%nat.
Proof. induction a as [|x a IH]; simpl; [reflexivity|]. rewrite IH. reflexivity. Qed.

Lemma all_chars_append p (a b : string) :
  Text.all_chars p (a ++ b) = Text.all_chars p a && Text.all_chars p b.
Proof.
  induction a as [|x a IH]; simpl; [reflexivity|].
  rewrite IH. apply andb_assoc.
Qed.

Lemma number_from_append (a b : string) : forall acc,
  number_from (a ++ b) acc = number_from b (number_from a acc).
Proof. induction a as [|x a IH]; intros acc; simpl; [reflexivity|]. apply IH. Qed.

(** The digits of a number are in front of the accumulator. *)
Lemma digits_from_append fuel : forall n acc,
  digits_from fuel n acc = (digits_from fuel n EmptyString ++ acc)%string.
Proof.
  induction fuel as [|fuel IH]; intros n acc; cbn [digits_from].
  - reflexivity.
  - destruct (n <? 10); [reflexivity|].
    rewrite IH, (IH _ (String _ EmptyString)), JSONFacts.append_assoc. reflexivity.
Qed.

(** With fuel enough the digits are digits and write the number. *)
Lemma digits_from_spec fuel : forall n,
  0 <= n < 10 * 2 ^ Z.of_nat fuel ->
  let ds := digits_from fuel n EmptyString in
  Text.all_chars is_digit ds = true /\
  (forall acc, number_from ds acc = acc * 10 ^ Z.of_nat (String.length ds) + n) /\
  (0 < n -> exists c rest, ds = String c rest /\ Ascii.eqb c "0" = false) /\
  ds <> EmptyString.
Proof.
  induction fuel as [|fuel IH]; intros n Hn; cbn [digits_from].
  - change (2 ^ Z.of_nat 0) with 1 in Hn.
    rewrite Z.mod_small by lia.
    cbv zeta. cbn [Text.all_chars number_from String.length].
    rewrite digit_char_digit, digit_char_value by lia.
    split; [reflexivity|]. split; [intros acc; change (10 ^ Z.of_nat 1) with 10; lia|].
    split; [|discriminate].
    intros Hpos. eexists. eexists. split; [reflexivity|].
    apply digit_char_zero. lia.
  - destruct (Z.ltb_spec n 10) as [Hlt|Hge].
    + rewrite Z.mod_small by lia.
      cbv zeta. cbn [Text.all_chars number_from String.length].
      rewrite digit_char_digit, digit_char_value by lia.
      split; [reflexivity|].
      split; [intros acc; change (10 ^ Z.of_nat 1) with 10; lia|].
      split; [|discriminate].
      intros Hpos. eexists. eexists. split; [reflexivity|].
      apply digit_char_zero. lia.
    + rewrite digits_from_append.
      assert (Hq : 0 <= n / 10 < 10 * 2 ^ Z.of_nat fuel).
      { split; [apply Z.div_pos; lia|].
        apply Z.div_lt_upper_bound; [lia|].
        rewrite Nat2Z.inj_succ, Z.pow_succ_r in Hn by lia.
        assert (0 < 2 ^ Z.of_nat fuel) by (apply Z.pow_pos_nonneg; lia).
        lia. }
      destruct (IH (n / 10) Hq) as (Hall & Hnum & Hhead & Hne).
      assert (Hr : 0 <= n mod 10 < 10) by (apply Z.mod_pos_bound; lia).
      cbv zeta. split; [|split; [|split]].
      * rewrite all_chars_append, Hall. cbn [Text.all_chars].
        rewrite digit_char_digit by lia. reflexivity.
      * intros acc. rewrite number_from_append, Hnum.
        cbn [number_from]. rewrite digit_char_value by lia.
        rewrite length_append. cbn [String.length].
        rewrite Nat2Z.inj_add. change (Z.of_nat 1) with 1.
        rewrite Z.pow_add_r by lia. change (10 ^ 1) with 10.
        assert (Hdm := Z.div_mod n 10 ltac:(lia)).
        remember (n / 10) as q. remember (n mod 10) as r.
        remember (10 ^ Z.of_nat (String.length (digits_from fuel q EmptyString))) as p.
        lia.
      * intros _. destruct Hhead as (c & rest & E & Hc).
        { apply Z.div_str_pos. lia. }
        rewrite E. exists c. eexists. split; [reflexivity|exact Hc].
      * intros E.
        destruct (digits_from fuel (n / 10) EmptyString); [apply Hne; reflexivity|].
        discriminate.
Qed.

Lemma digits_of_spec (n : Z) :
  0 <= n ->
  Text.all_chars is_digit (digits_of n) = true /\
  (forall acc,
     number_from (digits_of n) acc =
     acc * 10 ^ Z.of_nat (String.length (digits_of n)) + n) /\
  (0 < n -> well_formed (digits_of n) = true) /\
  digits_of n <> EmptyString.
Proof.
  intros Hn. unfold digits_of.
  assert (Hfuel : 0 <= n < 10 * 2 ^ Z.of_nat (Z.to_nat (Z.log2 n))).
  { split; [exact Hn|]. rewrite Z2Nat.id by apply Z.log2_nonneg.
    destruct (Z.eq_dec n 0) as [->|Hz]; [simpl; lia|].
    assert (H := Z.log2_spec n ltac:(lia)).
    rewrite Z.pow_succ_r in H by apply Z.log2_nonneg. lia. }
  destruct (digits_from_spec _ n Hfuel) as (Hall & Hnum & Hhead & Hne).
  split; [exact Hall|]. split; [exact Hnum|]. split; [|exact Hne].
  intros Hpos. destruct (Hhead Hpos) as (c & rest & E & Hc).
  rewrite E in Hall |- *. unfold well_formed. rewrite Hc, Hall. reflexivity.
Qed.

Lemma number_of_digits (n : Z) : 0 <= n -> number_of (digits_of n) = n.
Proof.
  intros Hn. unfold number_of.
  destruct (digits_of_spec n Hn) as (_ & H & _). rewrite H. lia.
Qed.

(** *** Rounding *)

Lemma log2_digits (m : positive) :
  Z.log2 (Zpos m) = Zpos (digits2_pos m) - 1.
Proof.
  apply Z.log2_unique; [lia|].
  assert (H := Float8Facts.digits2_pos_bounds m).
  replace (Z.succ (Zpos (digits2_pos m) - 1)) with (Zpos (digits2_pos m))
    by lia.
  exact H.
Qed.

(** A decimal that is a binary64 value rounds to that value. *)
Lemma round_exact (neg : bool) (m : positive) (e n d : Z) :
  bounded FloatOps.prec FloatOps.emax m e = true ->
  0 < d ->
  n * 2 ^ 1074 = Zpos m * 2 ^ (e + 1074) * d ->
  round_ratio neg n d = S754_finite neg m e.
Proof.
  intros Hb Hd Hn.
  destruct (Float8Facts.bounded_inv m e Hb) as (He & Hdig & Hnorm).
  assert (Hm := Float8Facts.digits2_pos_bounds m).
  assert (Hlog := log2_digits m).
  set (s := e + 1074) in *.
  assert (Hs : 0 <= s <= 2045) by (unfold s; lia).
  assert (Hp : 0 < 2 ^ s) by (apply Z.pow_pos_nonneg; lia).
  assert (Hshift : Z.max (Z.log2 (n * 2 ^ 1074 / d) - 52) 0 = s).
  { rewrite Hn, Z.div_mul by lia.
    rewrite Z.log2_mul_pow2 by lia. rewrite Hlog.
    destruct (Z.eq_dec e (-1074)) as [E|E].
    - unfold s. rewrite E. lia.
    - rewrite Hnorm by lia. unfold s. lia. }
  assert (Hden : n * 2 ^ 1074 = Zpos m * (d * 2 ^ s)) by (rewrite Hn; ring).
  assert (Hpos : 0 < d * 2 ^ s) by (apply Z.mul_pos_pos; assumption).
  assert (Hm53 : Zpos m < 2 ^ 53).
  { apply Z.lt_le_trans with (2 ^ Zpos (digits2_pos m)); [lia|].
    apply Z.pow_le_mono_r; lia. }
  unfold round_ratio. cbv zeta. rewrite Hshift.
  rewrite Hden. rewrite Z.div_mul, Z.mod_mul by lia.
  replace (2 * 0 ?= d * 2 ^ s) with Lt by (symmetry; apply Z.compare_lt_iff; lia).
  replace (Zpos m =? 2 ^ 53) with false by (symmetry; apply Z.eqb_neq; lia).
  replace (2045 <? s) with false by (symmetry; apply Z.ltb_ge; lia).
  unfold s. f_equal. lia.
Qed.

(** The sign is only carried along. *)
Lemma round_sign (neg : bool) (n d : Z) (m : positive) (e : Z) :
  round_ratio false n d = S754_finite false m e ->
  round_ratio neg n d = S754_finite neg m e.
Proof.
  unfold round_ratio. cbv zeta.
  destruct (if _ =? 2 ^ 53 then _ else _) as [q s].
  destruct q as [|p|p]; [discriminate| |discriminate].
  destruct (2045 <? s); [discriminate|].
  intros H. inversion H. reflexivity.
Qed.

Lemma same_value_eq (x y : spec_float) : same_value x y = true -> x = y.
Proof.
  destruct x as [a|a| |a m e], y as [b|b| |b m' e']; simpl;
    try discriminate; intros H.
  - apply Bool.eqb_prop in H. congruence.
  - apply Bool.eqb_prop in H. congruence.
  - reflexivity.
  - apply andb_prop in H as [H He]. apply andb_prop in H as [Hs Hm].
    apply Bool.eqb_prop in Hs. apply Pos.eqb_eq in Hm. apply Z.eqb_eq in He.
    congruence.
Qed.

Lemma same_value_refl (x : spec_float) : same_value x x = true.
Proof.
  destruct x as [a|a| |a m e]; simpl; try reflexivity;
    try apply Bool.eqb_reflx.
  rewrite Bool.eqb_reflx, Pos.eqb_refl, Z.eqb_refl. reflexivity.
Qed.

(** What [reads_as] says. *)
Lemma reads_as_spec (m : positive) (e : Z) (ds : string) (n : Z) :
  reads_as m e ds n = true ->
  well_formed ds = true /\
  forall neg,
    round_decimal neg (number_of ds) (n - Z.of_nat (String.length ds)) =
    S754_finite neg m e.
Proof.
  unfold reads_as. intros H. apply andb_prop in H as [Hw Hv].
  split; [exact Hw|]. intros neg.
  apply same_value_eq in Hv. unfold round_decimal in *.
  apply round_sign. exact Hv.
Qed.

(** The exact digits read as the value. *)
Lemma exact_reads (m : positive) (e : Z) :
  bounded FloatOps.prec FloatOps.emax m e = true ->
  reads_as m e (fst (exact m e)) (snd (exact m e)) = true.
Proof.
  intros Hb. unfold exact, reads_as.
  destruct (Float8Facts.bounded_inv m e Hb) as (He & _).
  destruct (Z.leb_spec 0 e) as [Hpos|Hneg]; cbn [fst snd].
  - assert (Hx : 0 < Zpos m * 2 ^ e).
    { apply Z.mul_pos_pos; [lia|]. apply Z.pow_pos_nonneg; lia. }
    destruct (digits_of_spec _ (Z.lt_le_incl _ _ Hx)) as (_ & _ & Hw & _).
    rewrite (Hw Hx). cbn [andb].
    rewrite Z.sub_diag, number_of_digits by lia.
    unfold round_decimal, numerator, denominator. cbn [Z.leb Z.compare].
    rewrite (round_exact false m e); [apply same_value_refl|exact Hb|lia|].
    change (10 ^ 0) with 1.
    replace (e + 1074) with (e + 1074) by reflexivity.
    rewrite Z.pow_add_r by lia. ring.
  - assert (Hx : 0 < Zpos m * 5 ^ (- e)).
    { apply Z.mul_pos_pos; [lia|]. apply Z.pow_pos_nonneg; lia. }
    destruct (digits_of_spec _ (Z.lt_le_incl _ _ Hx)) as (_ & _ & Hw & _).
    rewrite (Hw Hx). cbn [andb].
    replace (e + Z.of_nat (String.length (digits_of (Zpos m * 5 ^ (- e))))
             - Z.of_nat (String.length (digits_of (Zpos m * 5 ^ (- e)))))
      with e by lia.
    rewrite number_of_digits by lia.
    unfold round_decimal, numerator, denominator.
    replace (0 <=? e) with false by (symmetry; apply Z.leb_gt; lia).
    rewrite (round_exact false m e); [apply same_value_refl|exact Hb| |].
    + apply Z.pow_pos_nonneg; lia.
    + replace 10 with (2 * 5) by reflexivity.
      rewrite Z.pow_mul_l.
      replace (2 ^ 1074) with (2 ^ (e + 1074) * 2 ^ (- e))
        by (rewrite <- Z.pow_add_r by lia; f_equal; lia).
      ring.
Qed.

Lemma shortest_reads (m : positive) (e a b : Z) (c : string * Z) :
  forall fuel k,
    shortest fuel m e a b k = Some c -> reads_as m e (fst c) (snd c) = true.
Proof.
  induction fuel as [|fuel IH]; intros k H; [discriminate|].
  cbn [shortest] in H.
  destruct (find _ (neighbours a b k)) as [c'|] eqn:F.
  - inversion H; subst c'. apply find_some in F. apply F.
  - exact (IH _ H).
Qed.

(** The digits of a value read as the value. *)
Lemma digits_read (m : positive) (e : Z) :
  bounded FloatOps.prec FloatOps.emax m e = true ->
  reads_as m e (fst (digits m e)) (snd (digits m e)) = true.
Proof.
  intros Hb. unfold digits.
  destruct (shortest 17 m e _ _ 1) as [c|] eqn:S.
  - exact (shortest_reads _ _ _ _ _ _ _ S).
  - exact (exact_reads m e Hb).
Qed.

(** *** Texts of digits *)

Lemma is_digit_inv (c : ascii) :
  is_digit c = true ->
  JSON.classify c = JSON.CZero /\ c = "0"%char \/
  JSON.classify c = JSON.CNonZero /\ Ascii.eqb c "0" = false.
Proof.
  destruct c as [[] [] [] [] [] [] [] []]; try discriminate;
    intros _; first [left; split; reflexivity | right; split; reflexivity].
Qed.

Lemma is_digit_classify (c : ascii) :
  is_digit c = true ->
  JSON.classify c = JSON.CZero \/ JSON.classify c = JSON.CNonZero.
Proof. intros H. destruct (is_digit_inv c H) as [[E _]|[E _]]; auto. Qed.

Lemma digit_not (c d : ascii) :
  is_digit c = true -> is_digit d = false -> Ascii.eqb c d = false.
Proof.
  intros Hc Hd. destruct (Ascii.eqb_spec c d) as [->|]; [congruence|reflexivity].
Qed.

Lemma zeros_digits (n : nat) : Text.all_chars is_digit (zeros n) = true.
Proof. induction n as [|n IH]; [reflexivity|exact IH]. Qed.

Lemma zeros_length (n : nat) : String.length (zeros n) = n.
Proof. induction n as [|n IH]; simpl; [reflexivity|]. rewrite IH. reflexivity. Qed.

Lemma number_from_zeros (n : nat) (acc : Z) :
  number_from (zeros n) acc = acc * 10 ^ Z.of_nat n.
Proof.
  revert acc. induction n as [|n IH]; intros acc.
  - simpl. lia.
  - cbn [zeros number_from]. change (digit_value "0") with (Some 0).
    cbv iota. rewrite IH.
    rewrite Nat2Z.inj_succ, Z.pow_succ_r by lia. ring.
Qed.

Lemma take_drop (n : nat) (s : string) : (take n s ++ drop n s)%string = s.
Proof.
  revert s. induction n as [|n IH]; intros [|c s]; simpl; try reflexivity.
  rewrite IH. reflexivity.
Qed.

Lemma take_length (n : nat) (s : string) :
  (n <= String.length s)%nat -> String.length (take n s) = n.
Proof.
  revert s. induction n as [|n IH]; intros [|c s] H; simpl in *;
    try reflexivity; try lia.
  rewrite IH by lia. reflexivity.
Qed.

Lemma drop_length (n : nat) (s : string) :
  String.length (drop n s) = (String.length s - n)%nat.
Proof.
  revert s. induction n as [|n IH]; intros [|c s]; simpl; try reflexivity.
  apply IH.
Qed.

Lemma take_digits (n : nat) (s : string) :
  Text.all_chars is_digit s = true -> Text.all_chars is_digit (take n s) = true.
Proof.
  revert s. induction n as [|n IH]; intros [|c s] H; simpl in *;
    try reflexivity.
  apply andb_prop in H as [Hc Hs]. rewrite Hc, (IH s Hs). reflexivity.
Qed.

Lemma drop_digits (n : nat) (s : string) :
  Text.all_chars is_digit s = true -> Text.all_chars is_digit (drop n s) = true.
Proof.
  revert s. induction n as [|n IH]; intros [|c s] H; simpl in *;
    try reflexivity; try exact H.
  apply andb_prop in H as [Hc Hs]. exact (IH s Hs).
Qed.

Lemma span_digits_append (p rest : string) :
  Text.all_chars is_digit p = true -> stops rest ->
  span_digits (p ++ rest) = (p, rest).
Proof.
  intros Hp Hrest. induction p as [|c p IH]; cbn [append].
  - destruct rest as [|c rest]; [reflexivity|].
    simpl in Hrest. cbn [span_digits]. rewrite Hrest. reflexivity.
  - cbn [Text.all_chars] in Hp. apply andb_prop in Hp as [Hc Hp].
    cbn [span_digits]. rewrite Hc, (IH Hp). reflexivity.
Qed.

Lemma span_digits_all (p : string) :
  Text.all_chars is_digit p = true -> span_digits p = (p, EmptyString).
Proof.
  intros Hp. rewrite <- (append_nil p) at 1.
  apply span_digits_append; [exact Hp|exact I].
Qed.

(** *** The recogniser of JSON numbers on texts of digits *)

Lemma run_digits (st : JSON.NumState) (p rest : string) :
  st = JSON.NInt \/ st = JSON.NFrac \/ st = JSON.NExp ->
  Text.all_chars is_digit p = true ->
  JSON.run st (p ++ rest) = JSON.run st rest.
Proof.
  intros Hst Hp. induction p as [|c p IH]; [reflexivity|].
  cbn [Text.all_chars] in Hp. apply andb_prop in Hp as [Hc Hp].
  cbn [append JSON.run].
  destruct (is_digit_classify c Hc) as [-> | ->];
    destruct Hst as [-> | [-> | ->]]; cbn [JSON.step]; exact (IH Hp).
Qed.

(** From a state that waits for the first digit of a part. *)
Lemma run_first_digits (st st' : JSON.NumState) (p rest : string) :
  st = JSON.NDot /\ st' = JSON.NFrac \/
  (st = JSON.NE \/ st = JSON.NESign) /\ st' = JSON.NExp ->
  Text.all_chars is_digit p = true -> p <> EmptyString ->
  JSON.run st (p ++ rest) = JSON.run st' rest.
Proof.
  intros Hst Hp Hne. destruct p as [|c p]; [destruct (Hne eq_refl)|].
  cbn [Text.all_chars] in Hp. apply andb_prop in Hp as [Hc Hp].
  cbn [append JSON.run].
  destruct (is_digit_classify c Hc) as [-> | ->];
    destruct Hst as [[-> ->] | [[-> | ->] ->]]; cbn [JSON.step];
    apply run_digits; auto.
Qed.

(** A well-formed text of digits is an integer part. *)
Lemma run_integer (st : JSON.NumState) (ds rest : string) :
  st = JSON.NStart \/ st = JSON.NMinus ->
  well_formed ds = true ->
  JSON.run st (ds ++ rest) = JSON.run JSON.NInt rest.
Proof.
  intros Hst Hw. destruct ds as [|c ds]; [discriminate|].
  unfold well_formed in Hw. apply andb_prop in Hw as [Hz Hall].
  cbn [Text.all_chars] in Hall. apply andb_prop in Hall as [Hc Hall].
  apply negb_true_iff in Hz.
  cbn [append JSON.run].
  destruct (is_digit_inv c Hc) as [[_ ->]|[-> _]]; [discriminate|].
  destruct Hst as [-> | ->]; cbn [JSON.step]; apply run_digits; auto.
Qed.

(** The exponent of the text of a number is an exponent part. *)
Lemma run_exponent (st : JSON.NumState) (e : Z) :
  st = JSON.NInt \/ st = JSON.NFrac ->
  JSON.run st ((if e <? 0 then "e-" else "e+") ++ digits_of (Z.abs e)) = true.
Proof.
  intros Hst.
  destruct (digits_of_spec (Z.abs e) (Z.abs_nonneg e)) as (Hall & _ & _ & Hne).
  assert (H : JSON.run JSON.NESign (digits_of (Z.abs e)) = true).
  { rewrite <- (append_nil (digits_of (Z.abs e))).
    rewrite (run_first_digits JSON.NESign JSON.NExp); auto. }
  destruct (e <? 0), Hst as [-> | ->]; exact H.
Qed.

(** *** The text of a number is a number literal *)

Lemma well_formed_digits (ds : string) :
  well_formed ds = true ->
  Text.all_chars is_digit ds = true /\ (0 < String.length ds)%nat.
Proof.
  destruct ds as [|c ds]; [discriminate|].
  unfold well_formed. intros H. apply andb_prop in H as [_ H].
  split; [exact H|simpl; lia].
Qed.

Lemma exponent_text (e : Z) :
  exponent_part ((if (e <? 0)%Z then "e-" else "e+") ++ digits_of (Z.abs e)) =
  Some e.
Proof.
  destruct (digits_of_spec (Z.abs e) (Z.abs_nonneg e)) as (Hall & _ & _ & _).
  assert (Hn := number_of_digits (Z.abs e) (Z.abs_nonneg e)).
  destruct (Z.ltb_spec e 0) as [He|He];
    cbn [append exponent_part Ascii.eqb Bool.eqb orb andb];
    rewrite (span_digits_all _ Hall); cbn [Text.is_empty]; rewrite Hn;
    f_equal; lia.
Qed.

Lemma stops_exponent (e : Z) (rest : string) :
  stops ((if (e <? 0)%Z then "e-" else "e+") ++ rest).
Proof. destruct (e <? 0); reflexivity. Qed.

(** The literal of the text [render ds n] writes the decimal
    [ds * 10 ^ (n - length ds)]. *)
Lemma render_literal (ds : string) (n : Z) :
  well_formed ds = true ->
  exists s e,
    unsigned_literal (render ds n) = Some (s, e) /\
    numerator s e =
      numerator (number_of ds) (n - Z.of_nat (String.length ds)) /\
    denominator e = denominator (n - Z.of_nat (String.length ds)).
Proof.
  intros Hw. destruct (well_formed_digits ds Hw) as [Hall Hlen].
  unfold render. cbv zeta.
  set (k := Z.of_nat (String.length ds)).
  assert (Hk : 0 < k) by (unfold k; lia).
  destruct ((-6 <? n) && (n <=? 21)) eqn:Hrange.
  - destruct (Z.leb_spec k n) as [Hkn|Hkn].
    + (* digits and zeros *)
      assert (Hspan : span_digits (ds ++ zeros (Z.to_nat (n - k))) =
                      ((ds ++ zeros (Z.to_nat (n - k)))%string, EmptyString)).
      { apply span_digits_all. rewrite all_chars_append, Hall, zeros_digits.
        reflexivity. }
      unfold unsigned_literal. rewrite Hspan. cbn [exponent_part String.length].
      eexists. eexists. split; [reflexivity|].
      rewrite append_nil. unfold number_of.
      rewrite number_from_append, number_from_zeros.
      rewrite Z2Nat.id by lia.
      change (0 - Z.of_nat 0) with 0. fold k.
      unfold numerator, denominator. change (0 <=? 0) with true. cbv iota.
      replace (0 <=? n - k) with true by (symmetry; apply Z.leb_le; lia).
      split; [change (10 ^ 0) with 1; ring|reflexivity].
    + destruct (Z.ltb_spec 0 n) as [Hn|Hn].
      * (* a point inside the digits *)
        assert (Hnat : (Z.to_nat n < String.length ds)%nat) by (unfold k in Hkn; lia).
        assert (Hspan : span_digits (take (Z.to_nat n) ds ++ "."
                                     ++ drop (Z.to_nat n) ds) =
                        (take (Z.to_nat n) ds,
                         ("." ++ drop (Z.to_nat n) ds)%string)).
        { apply span_digits_append; [apply take_digits; exact Hall|reflexivity]. }
        unfold unsigned_literal. rewrite Hspan.
        cbn [append Ascii.eqb Bool.eqb andb].
        rewrite (span_digits_all _ (drop_digits _ _ Hall)).
        cbn [exponent_part].
        eexists. eexists. split; [reflexivity|].
        rewrite take_drop, drop_length.
        replace (0 - Z.of_nat (String.length ds - Z.to_nat n)) with (n - k)
          by (unfold k; lia).
        split; reflexivity.
      * (* zeros after the point *)
        unfold unsigned_literal.
        cbn [append span_digits].
        change (is_digit "0") with true. change (is_digit ".") with false.
        cbn [Ascii.eqb Bool.eqb andb].
        assert (Hz : Text.all_chars is_digit (zeros (Z.to_nat (- n)) ++ ds) = true).
        { rewrite all_chars_append, zeros_digits, Hall. reflexivity. }
        rewrite (span_digits_all _ Hz). cbn [exponent_part].
        eexists. eexists. split; [reflexivity|].
        cbn [append]. unfold number_of. cbn [number_from].
        change (digit_value "0") with (Some 0). cbv iota.
        rewrite number_from_append, number_from_zeros.
        rewrite length_append, zeros_length, Nat2Z.inj_add, Z2Nat.id by lia.
        replace (0 - (- n + Z.of_nat (String.length ds))) with (n - k)
          by (unfold k; lia).
        split; reflexivity.
  - (* with an exponent *)
    set (e := n - 1).
    destruct (Z.eqb_spec k 1) as [Hk1|Hk1].
    + assert (Hspan : span_digits
                        (ds ++ (if (e <? 0)%Z then "e-" else "e+")
                         ++ digits_of (Z.abs e)) =
                      (ds, ((if (e <? 0)%Z then "e-" else "e+")
                            ++ digits_of (Z.abs e))%string)).
      { apply span_digits_append; [exact Hall|apply stops_exponent]. }
      unfold unsigned_literal. rewrite Hspan.
      assert (Hnot : forall rest,
                match ((if (e <? 0)%Z then "e-" else "e+") ++ rest)%string with
                | String c r =>
                    if Ascii.eqb c "." then span_digits r
                    else (EmptyString,
                          ((if (e <? 0)%Z then "e-" else "e+") ++ rest)%string)
                | EmptyString =>
                    (EmptyString,
                     ((if (e <? 0)%Z then "e-" else "e+") ++ rest)%string)
                end =
                (EmptyString,
                 ((if (e <? 0)%Z then "e-" else "e+") ++ rest)%string)).
      { intros rest. destruct (e <? 0); reflexivity. }
      rewrite Hnot, exponent_text.
      eexists. eexists. split; [reflexivity|].
      rewrite append_nil. cbn [String.length Z.of_nat].
      replace (e - 0) with (n - k) by (unfold e; lia).
      split; reflexivity.
    + assert (Hnat : (1 < String.length ds)%nat) by (unfold k in *; lia).
      assert (Hspan : span_digits
                        (take 1 ds ++ "." ++ drop 1 ds
                         ++ (if (e <? 0)%Z then "e-" else "e+")
                         ++ digits_of (Z.abs e)) =
                      (take 1 ds,
                       ("." ++ drop 1 ds
                        ++ (if (e <? 0)%Z then "e-" else "e+")
                        ++ digits_of (Z.abs e))%string)).
      { apply span_digits_append; [apply take_digits; exact Hall|reflexivity]. }
      unfold unsigned_literal. rewrite Hspan.
      cbn [append Ascii.eqb Bool.eqb andb].
      rewrite (span_digits_append (drop 1 ds) _ (drop_digits _ _ Hall)
                 (stops_exponent e _)).
      rewrite exponent_text.
      eexists. eexists. split; [reflexivity|].
      rewrite take_drop, drop_length.
      replace (e - Z.of_nat (String.length ds - 1)) with (n - k)
        by (unfold e, k; lia).
      split; reflexivity.
Qed.

(** The text starts with a digit. *)
Lemma render_head (ds : string) (n : Z) :
  well_formed ds = true ->
  exists c r, render ds n = String c r /\ is_digit c = true.
Proof.
  intros Hw. destruct ds as [|c ds]; [discriminate|].
  assert (Hc : is_digit c = true).
  { unfold well_formed in Hw. apply andb_prop in Hw as [_ H].
    cbn [Text.all_chars] in H. apply andb_prop in H. apply H. }
  unfold render. cbv zeta.
  destruct ((-6 <? n) && (n <=? 21)).
  - destruct (_ <=? n); [exists c; eexists; split; [reflexivity|exact Hc]|].
    destruct (Z.ltb_spec 0 n) as [Hn|Hn].
    + destruct (Z.to_nat n) as [|j] eqn:E; [lia|].
      exists c. eexists. split; [reflexivity|exact Hc].
    + exists "0"%char. eexists. split; reflexivity.
  - destruct (_ =? 1); exists c; eexists; split; try reflexivity; exact Hc.
Qed.

Lemma literal_text (neg : bool) (ds : string) (n : Z) :
  well_formed ds = true ->
  exists s e,
    literal ((if neg then "-" else "") ++ render ds n) = Some (neg, s, e) /\
    numerator s e =
      numerator (number_of ds) (n - Z.of_nat (String.length ds)) /\
    denominator e = denominator (n - Z.of_nat (String.length ds)).
Proof.
  intros Hw. destruct (render_literal ds n Hw) as (s & e & Hl & Hn & Hd).
  destruct (render_head ds n Hw) as (c & r & Hr & Hc).
  exists s, e. split; [|split; assumption].
  destruct neg; cbn [append literal].
  - cbn [Ascii.eqb Bool.eqb andb]. rewrite Hl. reflexivity.
  - rewrite Hr in *. cbn [literal].
    rewrite (digit_not c "-" Hc eq_refl), Hl. reflexivity.
Qed.

(** The text of a number is a JSON number. *)
Lemma number_text (neg : bool) (ds : string) (n : Z) :
  well_formed ds = true ->
  JSON.is_number ((if neg then "-" else "") ++ render ds n) = true.
Proof.
  intros Hw. destruct (well_formed_digits ds Hw) as [Hall Hlen].
  assert (Hstart : exists st,
            (st = JSON.NStart \/ st = JSON.NMinus) /\
            JSON.is_number ((if neg then "-" else "") ++ render ds n) =
            JSON.run st (render ds n)).
  { destruct neg; [exists JSON.NMinus|exists JSON.NStart]; auto. }
  destruct Hstart as (st & Hst & ->).
  unfold render. cbv zeta.
  set (k := Z.of_nat (String.length ds)).
  destruct ((-6 <? n) && (n <=? 21)).
  - destruct (Z.leb_spec k n) as [Hkn|Hkn].
    + rewrite (run_integer st _ _ Hst Hw).
      rewrite <- (append_nil (zeros _)), run_digits;
        [reflexivity|auto|apply zeros_digits].
    + destruct (Z.ltb_spec 0 n) as [Hn|Hn].
      * assert (Hnat : (0 < Z.to_nat n < String.length ds)%nat)
          by (unfold k in Hkn; lia).
        assert (Hwt : well_formed (take (Z.to_nat n) ds) = true).
        { destruct ds as [|c ds]; [discriminate|].
          destruct (Z.to_nat n) as [|j]; [lia|].
          unfold well_formed in *. cbn [take].
          apply andb_prop in Hw as [Hz Ha]. rewrite Hz.
          change (String c (take j ds)) with (take (S j) (String c ds)).
          rewrite take_digits by exact Ha. reflexivity. }
        rewrite (run_integer st _ _ Hst Hwt).
        cbn [append JSON.run JSON.classify JSON.step].
        rewrite <- (append_nil (drop _ ds)).
        rewrite (run_first_digits JSON.NDot JSON.NFrac);
          [reflexivity|auto|apply drop_digits; exact Hall|].
        intros E. assert (Hl := drop_length (Z.to_nat n) ds).
        rewrite E in Hl. simpl in Hl. lia.
      * assert (Hrun : JSON.run st ("0." ++ zeros (Z.to_nat (- n)) ++ ds) =
                       JSON.run JSON.NDot (zeros (Z.to_nat (- n)) ++ ds)).
        { destruct Hst as [-> | ->]; reflexivity. }
        rewrite Hrun.
        rewrite <- (append_nil (zeros _ ++ ds)).
        rewrite (run_first_digits JSON.NDot JSON.NFrac);
          [reflexivity|auto| |].
        -- rewrite all_chars_append, zeros_digits, Hall. reflexivity.
        -- intros E. assert (Hl := length_append (zeros (Z.to_nat (- n))) ds).
           rewrite E in Hl. simpl in Hl. lia.
  - set (e := n - 1).
    destruct (Z.eqb_spec k 1) as [Hk1|Hk1].
    + rewrite (run_integer st _ _ Hst Hw). apply run_exponent. auto.
    + assert (Hnat : (1 < String.length ds)%nat) by (unfold k in *; lia).
      assert (Hwt : well_formed (take 1 ds) = true).
      { destruct ds as [|c ds]; [discriminate|].
        unfold well_formed in *. cbn [take].
        apply andb_prop in Hw as [Hz Ha]. rewrite Hz.
        cbn [Text.all_chars] in *. apply andb_prop in Ha as [Hc _].
        rewrite Hc. reflexivity. }
      rewrite (run_integer st _ _ Hst Hwt).
      cbn [append JSON.run JSON.classify JSON.step].
      rewrite (run_first_digits JSON.NDot JSON.NFrac);
        [apply run_exponent; auto|auto|apply drop_digits; exact Hall|].
      intros E. assert (Hl := drop_length 1 ds).
      rewrite E in Hl. simpl in Hl. lia.
Qed.

(** *** Finite numbers read back *)

(** A finite float is a zero or has a mantissa and an exponent. *)
Lemma finite_cases (x : float) :
  is_finite x = true ->
  (exists s, FloatOps.Prim2SF x = S754_zero s) \/
  (exists s m e, FloatOps.Prim2SF x = S754_finite s m e /\
                 bounded FloatOps.prec FloatOps.emax m e = true).
Proof.
  unfold is_finite, is_nan, is_infinity. intros H.
  rewrite !FloatAxioms.eqb_spec, FloatAxioms.abs_spec in H.
  assert (Hv := FloatAxioms.Prim2SF_valid x).
  destruct (FloatOps.Prim2SF x) as [s|s| |s m e].
  - left. exists s. reflexivity.
  - exfalso. destruct s; vm_compute in H; discriminate H.
  - exfalso. vm_compute in H. discriminate H.
  - right. exists s, m, e. split; [reflexivity|exact Hv].
Qed.

Lemma finite_not_zero (x : float) (s : bool) (m : positive) (e : Z) :
  FloatOps.Prim2SF x = S754_finite s m e -> is_zero x = false.
Proof.
  intros Hx. unfold is_zero. rewrite FloatAxioms.eqb_spec, Hx.
  destruct s; reflexivity.
Qed.

Lemma zero_is_zero (x : float) (s : bool) :
  FloatOps.Prim2SF x = S754_zero s -> is_zero x = true.
Proof.
  intros Hx. unfold is_zero. rewrite FloatAxioms.eqb_spec, Hx.
  destruct s; reflexivity.
Qed.

(** The text of a finite float is a JSON number, and its value is the
    float itself; the two zeros are both written [0], which is read
    as the positive one. *)
Lemma number_reads_back (x : float) :
  is_finite x = true ->
  JSON.is_number (Ecma.Number_toString x) = true /\
  Ecma.StringToNumber (Ecma.Number_toString x) =
    (if is_zero x then zero else x).
Proof.
  intros Hf.
  destruct (finite_cases x Hf) as [[s Hx]|(s & m & e & Hx & Hb)].
  - rewrite (zero_is_zero x s Hx). unfold Ecma.Number_toString. rewrite Hx.
    split; reflexivity.
  - rewrite (finite_not_zero x s m e Hx).
    unfold Ecma.Number_toString. rewrite Hx.
    assert (Hr := digits_read m e Hb).
    destruct (digits m e) as [ds n]. cbn [fst snd] in Hr.
    apply reads_as_spec in Hr as [Hw Hv].
    split; [apply number_text; exact Hw|].
    destruct (literal_text s ds n Hw) as (s' & e' & Hl & Hn & Hd).
    unfold Ecma.StringToNumber. rewrite Hl.
    assert (Hround : round_decimal s s' e' = S754_finite s m e).
    { unfold round_decimal. rewrite Hn, Hd. exact (Hv s). }
    rewrite Hround, <- Hx. apply FloatAxioms.SF2Prim_Prim2SF.
Qed.

(** A float that is not a NaN is equal, as a number, to itself. *)
Lemma finite_eqb (x : float) :
  is_finite x = true -> (x =? (if is_zero x then zero else x))%float = true.
Proof.
  intros Hf. destruct (is_zero x) eqn:Hz; [exact Hz|].
  unfold is_finite in Hf. apply negb_true_iff in Hf.
  apply orb_false_iff in Hf as [Hn _]. unfold is_nan in Hn.
  apply negb_false_iff in Hn. exact Hn.
Qed.

End EcmaFacts.

(** ** The server *)

Module ServerFacts.
Import JSArray Store Server Spec JSArrayFacts.

(** *** Lists *)

Lemma In_firstn {A} n (l : list A) x : In x (firstn n l) -> In x l.
Proof.
  intros H. rewrite <- (firstn_skipn n l). apply in_or_app. left. exact H.
Qed.

Lemma NoDup_firstn {A} n (l : list A) : NoDup l -> NoDup (firstn n l).
Proof.
  intros H. rewrite <- (firstn_skipn n l) in H.
  exact (NoDup_app_remove_r _ _ H).
Qed.

(** *** shuffleArray permutes *)

Lemma set_perm {A} (arr : list A) : forall i x a,
  nth_error arr i = Some a -> Permutation (a :: set i x arr) (x :: arr).
Proof.
  induction arr as [|h t IH]; intros [|i] x a H; simpl in *; try discriminate.
  - inversion H; subst. apply perm_swap.
  - rewrite perm_swap. rewrite (IH i x a H). apply perm_swap.
Qed.

Lemma nth_error_set {A} (arr : list A) : forall i j x,
  i < length arr ->
  nth_error (set i x arr) j = if i =? j then Some x else nth_error arr j.
Proof.
  induction arr as [|h t IH]; intros [|i] [|j] x Hi; simpl in *;
    try lia; auto.
  apply IH. lia.
Qed.

Lemma swap_perm {A} i j (array : list A) : Permutation (swap i j array) array.
Proof.
  unfold swap.
  destruct (nth_error array i) as [ai|] eqn:Ei; [|reflexivity].
  destruct (nth_error array j) as [aj|] eqn:Ej; [|reflexivity].
  assert (Hi : i < length array) by (apply nth_error_Some; congruence).
  assert (H1 : Permutation (ai :: set i aj array) (aj :: array))
    by (apply set_perm; exact Ei).
  assert (Hj : nth_error (set i aj array) j = Some aj).
  { rewrite nth_error_set by exact Hi.
    destruct (i =? j); [reflexivity | exact Ej]. }
  assert (H2 : Permutation (aj :: set j ai (set i aj array))
                 (ai :: set i aj array))
    by (apply set_perm; exact Hj).
  apply (Permutation_cons_inv (a := aj)).
  rewrite H2. exact H1.
Qed.

Lemma shuffle_from_perm {A} i : forall rnd (array : list A),
  Permutation (shuffle_from i rnd array) array.
Proof.
  induction i as [|i IH]; intros rnd array; simpl; [reflexivity|].
  rewrite IH. apply swap_perm.
Qed.

Lemma shuffleArray_perm {A} rnd (array : list A) :
  Permutation (shuffleArray rnd array) array.
Proof. apply shuffle_from_perm. Qed.

(** *** The queries *)

Lemma swiped_by_spec db userId articleId :
  swiped_by db userId articleId = true <-> has_swiped db userId articleId.
Proof.
  unfold swiped_by, has_swiped. rewrite existsb_exists. split.
  - intros (us & Hin & H). apply andb_prop in H as [H1 H2].
    apply Z.eqb_eq in H1, H2. exists us. auto.
  - intros (us & Hin & H1 & H2). exists us. split; auto.
    rewrite H1, H2, !Z.eqb_refl. reflexivity.
Qed.

Lemma never_swiped_In db userId a :
  In a (never_swiped db userId) <->
  In a (articles db) /\ ~ has_swiped db userId (id a).
Proof.
  unfold never_swiped. rewrite filter_In, negb_true_iff.
  rewrite <- swiped_by_spec. split; intros [H1 H2]; split; auto.
  - congruence.
  - destruct (swiped_by db userId (id a)); congruence.
Qed.

Lemma NoDup_map_filter {A B} (f : A -> B) (g : A -> bool) (l : list A) :
  NoDup (map f l) -> NoDup (map f (filter g l)).
Proof.
  induction l as [|a l IH]; simpl; intros H; [constructor|].
  inversion H as [|? ? Hnotin Hnd]; subst.
  destruct (g a); simpl; auto.
  constructor; auto.
  intros Hin. apply Hnotin.
  apply in_map_iff in Hin as (b & Hb & Hin). apply filter_In in Hin as [Hin _].
  apply in_map_iff. exists b. auto.
Qed.

Lemma never_swiped_NoDup db userId :
  NoDup (map id (articles db)) -> NoDup (map id (never_swiped db userId)).
Proof. apply NoDup_map_filter. Qed.

Lemma map_row_id rows : map row_id rows = map id (map row_article rows).
Proof. rewrite map_map. reflexivity. Qed.

Section WithDatastore.
Context {RT : JSRuntime} {DS : Datastore}.

Lemma smartQuery_rows db userId tasteVector :
  exists ranked,
    Permutation (never_swiped db userId) ranked /\
    map row_article (smartQuery db userId tasteVector) =
    firstn SMART_FEED_SIZE ranked.
Proof.
  unfold smartQuery.
  set (leb := fun x y : FeedRow => match x, y with
                | SmartRow _ sx, SmartRow _ sy => float8_le sy sx
                | _, _ => true end).
  set (rows := map (fun a => SmartRow a (similarity tasteVector a))
                 (never_swiped db userId)).
  exists (map row_article (OrderBy.sort leb rows)). split.
  - rewrite <- (OrderByFacts.sort_perm leb rows). unfold rows.
    rewrite map_map. simpl. rewrite map_id. reflexivity.
  - symmetry. apply firstn_map.
Qed.

Lemma dumbQuery_rows db keys userId smartArticleIds :
  exists order,
    Permutation
      (filter (fun a => negb (existsb (Z.eqb (id a)) (idPlaceholders smartArticleIds)))
         (never_swiped db userId)) order /\
    map row_article (dumbQuery db keys userId smartArticleIds) =
    firstn DUMB_FEED_SIZE order.
Proof.
  unfold dumbQuery. eexists. split; [apply OrderByFacts.random_perm|].
  rewrite map_map. simpl. apply map_id.
Qed.

Lemma coldQuery_rows db keys userId :
  exists order,
    Permutation (never_swiped db userId) order /\
    map row_article (coldQuery db keys userId) = firstn 10 order.
Proof.
  unfold coldQuery. eexists. split; [apply OrderByFacts.random_perm|].
  rewrite map_map. simpl. apply map_id.
Qed.

Lemma smartQuery_length db userId tasteVector :
  length (smartQuery db userId tasteVector) =
  Nat.min SMART_FEED_SIZE (length (never_swiped db userId)).
Proof.
  unfold smartQuery.
  rewrite length_firstn, OrderByFacts.sort_length, length_map. reflexivity.
Qed.

(** The dumb query of the blended feed, in terms of the smart ids
    themselves. *)
Lemma dumbQuery_smart_ids (db : DB) (keys : nat -> nat) (userId : Z)
    (tasteVector : option string) :
  dumbQuery db keys userId (map row_id (smartQuery db userId tasteVector)) =
  map DumbRow
    (firstn DUMB_FEED_SIZE
       (OrderBy.random keys
          (filter (fun a =>
                     negb (existsb (Z.eqb (id a))
                             (map row_id (smartQuery db userId tasteVector))))
             (never_swiped db userId)))).
Proof.
  unfold dumbQuery, idPlaceholders.
  assert (Hl := smartQuery_length db userId tasteVector).
  rewrite length_map.
  destruct (smartQuery db userId tasteVector) as [|r rows]; [|reflexivity].
  simpl in Hl. unfold SMART_FEED_SIZE in Hl.
  destruct (never_swiped db userId); [reflexivity|simpl in Hl; lia].
Qed.

(** The smart rows are the first seven of the never-swiped articles in
    the descending order of their similarity to the taste vector, each
    with that similarity. *)
Lemma smartQuery_ranked db userId (tasteVector : string) :
  let sim := fun a => (1 - cosine_distance (embedding a) tasteVector)%float in
  exists ranked,
    Permutation (never_swiped db userId) ranked /\
    StronglySorted (fun a b => float8_le (sim b) (sim a) = true) ranked /\
    smartQuery db userId (Some tasteVector) =
    map (fun a => SmartRow a (sim a)) (firstn SMART_FEED_SIZE ranked).
Proof.
  intros sim.
  exists (OrderBy.sort (fun a b => float8_le (sim b) (sim a))
            (never_swiped db userId)).
  split; [apply OrderByFacts.sort_perm|]. split.
  - apply OrderByFacts.sort_sorted.
    + intros a b. apply Float8Facts.float8_le_total.
    + intros a b c H1 H2. exact (Float8Facts.float8_le_trans _ _ _ H2 H1).
  - unfold smartQuery.
    rewrite (OrderByFacts.sort_map
               (fun a b => float8_le (sim b) (sim a)) _
               (fun a => SmartRow a (similarity (Some tasteVector) a)))
      by reflexivity.
    apply firstn_map.
Qed.

Lemma idPlaceholders_covers smartArticleIds i :
  In i smartArticleIds -> In i (idPlaceholders smartArticleIds).
Proof.
  unfold idPlaceholders. destruct smartArticleIds; simpl; auto.
Qed.

Lemma res_map_parse texts vectors :
  Forall2 (fun text v => JSON.parse_vector text = Some v) texts vectors ->
  res_map JSON_parse texts = Ok vectors.
Proof.
  induction 1 as [|text v texts vectors Hp _ IH]; simpl; auto.
  unfold JSON_parse at 1. rewrite Hp. simpl. rewrite IH. reflexivity.
Qed.

(** The accumulation loops add, coordinate by coordinate, the vectors in
    their order. *)
Lemma accumulate_spec L : forall vectors acc,
  length acc = L ->
  let r :=
    fold_left
      (fun averageVector vector =>
         for_each_index L (fun i a => (a + get vector i)%float) averageVector)
      vectors acc in
  length r = L /\
  forall i, i < L ->
    get r i = fold_left PrimFloat.add (map (fun v => get v i) vectors) (get acc i).
Proof.
  induction vectors as [|v vectors IH]; intros acc Hacc; simpl.
  - split; auto.
  - destruct (IH (for_each_index L (fun i a => (a + get v i)%float) acc))
      as [Hl Hg].
    { rewrite for_each_index_length; lia. }
    split; [exact Hl|].
    intros i Hi. rewrite (Hg i Hi).
    rewrite for_each_index_get by lia. reflexivity.
Qed.

Lemma get_repeat_zero L i : i < L -> get (repeat zero L) i = zero.
Proof. intros Hi. unfold get. apply nth_repeat_lt. exact Hi. Qed.

Lemma liked_join_In db userId a us :
  In (a, us) (liked_join db userId) <->
  In a (articles db) /\ In us (user_swipes db) /\
  id a = article_id us /\ user_id us = userId /\ liked us = Some true.
Proof.
  unfold liked_join. rewrite in_flat_map. split.
  - intros (a' & Ha' & Hin). apply in_map_iff in Hin as (us' & Heq & Hin).
    inversion Heq; subst. apply filter_In in Hin as [Hin Hf].
    apply andb_prop in Hf as [Hf Hl]. apply andb_prop in Hf as [H1 H2].
    apply Z.eqb_eq in H1, H2.
    destruct (liked us) as [[|]|]; try discriminate. auto.
  - intros (Ha & Hus & H1 & H2 & H3). exists a. split; auto.
    apply in_map_iff. exists us. split; auto.
    apply filter_In. split; auto.
    rewrite H1, H2, H3, !Z.eqb_refl. reflexivity.
Qed.

Lemma tasteQuery_length db userId limit :
  length (tasteQuery db userId limit) =
  Nat.min limit (length (liked_join db userId)).
Proof.
  unfold tasteQuery. rewrite length_map, length_firstn, OrderByFacts.sort_length.
  reflexivity.
Qed.

Lemma has_liked_article_join db userId :
  has_liked_article db userId <-> liked_join db userId <> [].
Proof.
  split.
  - intros (a & us & Ha & Hus & Hu & Hl & Hid) Hnil.
    assert (Hin : In (a, us) (liked_join db userId)).
    { apply liked_join_In. auto. }
    rewrite Hnil in Hin. destruct Hin.
  - destruct (liked_join db userId) as [|[a us] l] eqn:E; [congruence|].
    intros _.
    assert (Hin : In (a, us) (liked_join db userId)) by (rewrite E; left; auto).
    apply liked_join_In in Hin as (Ha & Hus & H1 & H2 & H3).
    exists a, us. auto.
Qed.

Lemma tasteQuery_ranked db userId limit :
  exists ranked,
    Permutation (liked_join db userId) ranked /\
    StronglySorted as_recent_as ranked /\
    tasteQuery db userId limit =
    map (fun r => embedding (fst r)) (firstn limit ranked).
Proof.
  eexists. split; [apply OrderByFacts.sort_perm|]. split; [|reflexivity].
  assert (H := OrderByFacts.sort_sorted
                 (fun x y : Article * Swipe =>
                    swipe_time (snd y) <=? swipe_time (snd x))
                 (liked_join db userId)).
  assert (Hs : StronglySorted
                 (fun a b : Article * Swipe =>
                    (swipe_time (snd b) <=? swipe_time (snd a)) = true)
                 (OrderBy.sort
                    (fun x y => swipe_time (snd y) <=? swipe_time (snd x))
                    (liked_join db userId))).
  { apply H.
    - intros a b. rewrite !Nat.leb_le. lia.
    - intros a b c. rewrite !Nat.leb_le. lia. }
  clear H. induction Hs as [|x l Hl IH Hx]; constructor; auto.
  eapply Forall_impl; [|exact Hx].
  intros y Hy. apply Nat.leb_le in Hy. exact Hy.
Qed.

(** C1. For a user with at least one liked article, the taste query
    returns the embeddings of the first (one to three) rows of the liked
    articles ranked most recent first, and the taste vector is the text
    of a vector that has their dimension and whose i-th coordinate is the
    arithmetic mean of their i-th coordinates; averageVectors of no
    embedding at all is null. *)
Theorem buildTaste_mean (db : DB) (userId : Z) (d : nat)
    (vectors : list (list float)) :
  Forall2 (fun text v => JSON.parse_vector text = Some v)
    (tasteQuery db userId TASTE_PROFILE_SIZE) vectors ->
  Forall (fun v => length v = d) vectors ->
  averageVectors [] = Ok None /\
  (has_liked_article db userId ->
   (exists ranked,
      Permutation (liked_join db userId) ranked /\
      StronglySorted as_recent_as ranked /\
      tasteQuery db userId TASTE_PROFILE_SIZE =
      map (fun r => embedding (fst r)) (firstn TASTE_PROFILE_SIZE ranked)) /\
   1 <= length vectors <= TASTE_PROFILE_SIZE /\
   exists tasteVector,
     buildTaste db userId = Ok (Some (JSON.stringify_vector tasteVector)) /\
     length tasteVector = d /\
     forall i, i < d ->
       get tasteVector i = mean (map (fun v => get v i) vectors)).
Proof.
  intros Hparse Hdim. split; [reflexivity|].
  intros Hliked.
  apply has_liked_article_join in Hliked.
  assert (Hlen : length vectors =
                 Nat.min TASTE_PROFILE_SIZE (length (liked_join db userId))).
  { rewrite <- (Forall2_length Hparse). apply tasteQuery_length. }
  assert (Hpos : 1 <= length vectors <= TASTE_PROFILE_SIZE).
  { rewrite Hlen. unfold TASTE_PROFILE_SIZE.
    destruct (liked_join db userId); [congruence|]. simpl length. lia. }
  split; [apply tasteQuery_ranked|]. split; [exact Hpos|].
  unfold buildTaste, averageVectors.
  rewrite (Forall2_length Hparse).
  replace (length vectors =? 0) with false
    by (symmetry; apply Nat.eqb_neq; lia).
  rewrite (res_map_parse _ _ Hparse). simpl res_bind.
  assert (Hfirst : length (nth 0 vectors []) = d).
  { destruct vectors as [|v vs]; [simpl in Hpos; lia|].
    inversion Hdim; subst. reflexivity. }
  rewrite Hfirst.
  destruct (accumulate_spec d vectors (repeat zero d)) as [Hl Hg].
  { apply repeat_length. }
  eexists. split; [reflexivity|]. split.
  - rewrite for_each_index_length; lia.
  - intros i Hi. rewrite for_each_index_get by lia.
    rewrite (Hg i Hi), get_repeat_zero by exact Hi.
    unfold mean. rewrite length_map. reflexivity.
Qed.

Lemma parse_all texts :
  Forall (fun text => JSON.parse_vector text <> None) texts ->
  exists vectors,
    Forall2 (fun text v => JSON.parse_vector text = Some v) texts vectors.
Proof.
  induction 1 as [|text texts Hp _ [vectors IH]].
  - exists []. constructor.
  - destruct (JSON.parse_vector text) as [v|] eqn:E; [|congruence].
    exists (v :: vectors). constructor; assumption.
Qed.

Lemma averageVectors_defined texts :
  texts <> [] ->
  Forall (fun text => JSON.parse_vector text <> None) texts ->
  exists tasteVector, averageVectors texts = Ok (Some tasteVector).
Proof.
  intros Hne Hp. destruct (parse_all _ Hp) as [vectors Hv].
  unfold averageVectors.
  destruct texts as [|t ts]; [congruence|]. simpl length. simpl Nat.eqb.
  rewrite (res_map_parse _ _ Hv). simpl. eexists. reflexivity.
Qed.

Lemma tasteQuery_nonempty db userId :
  has_liked_article db userId ->
  tasteQuery db userId TASTE_PROFILE_SIZE <> [].
Proof.
  intros H Hnil. apply has_liked_article_join in H.
  assert (Hl := tasteQuery_length db userId TASTE_PROFILE_SIZE).
  rewrite Hnil in Hl. unfold TASTE_PROFILE_SIZE in Hl.
  destruct (liked_join db userId); [congruence|]. simpl in Hl. lia.
Qed.

Lemma tasteQuery_empty db userId :
  has_no_like db userId -> tasteQuery db userId TASTE_PROFILE_SIZE = [].
Proof.
  intros H.
  assert (Hj : liked_join db userId = []).
  { destruct (liked_join db userId) as [|[a us] l] eqn:E; auto.
    assert (Hin : In (a, us) (liked_join db userId)) by (rewrite E; left; auto).
    apply liked_join_In in Hin as (_ & Hus & _ & Hu & Hl).
    destruct (H us Hus Hu Hl). }
  unfold tasteQuery. rewrite Hj. simpl. destruct TASTE_PROFILE_SIZE; reflexivity.
Qed.

(** C2. For a user with at least one like (whose liked embeddings are
    vector texts), the handler answers 200 with a permutation of the smart
    rows followed by the dumb rows: at most 7 smart rows, at most 3 dumb
    rows whose ids are not among the smart ones, at most 10 rows in all,
    no id twice, and no article the user has swiped.  The smart rows are
    ranked by similarity: they are the first seven of the never-swiped
    articles in the descending order of one minus the cosine distance
    between the article's embedding and the taste vector, each row
    carries that number, and no never-swiped article that is left out
    has a greater similarity than a smart row.  The dumb rows are chosen
    at random: they are the first three of the remaining never-swiped
    articles in the order of the keys the datastore draws, and every
    order of those articles comes out for some keys.  Article ids are
    unique in the table. *)
Theorem feed_blend (db : DB) (keys : nat -> nat) (rnd : list nat) (userId : Z) :
  NoDup (map id (articles db)) ->
  has_liked_article db userId ->
  Forall (fun text => JSON.parse_vector text <> None)
    (tasteQuery db userId TASTE_PROFILE_SIZE) ->
  exists tasteVector finalFeed,
    buildTaste db userId = Ok (Some tasteVector) /\
    let smartRows := smartQuery db userId (Some tasteVector) in
    let dumbRows := dumbQuery db keys userId (map row_id smartRows) in
    let sim :=
      fun a => (1 - cosine_distance (embedding a) tasteVector)%float in
    let remaining :=
      filter (fun a => negb (existsb (Z.eqb (id a)) (map row_id smartRows)))
        (never_swiped db userId) in
    feed db keys rnd userId =
      (Feed200 finalFeed,
       [RunTasteQuery; CallAverageVectors; RunSmartQuery; RunDumbQuery;
        CallShuffleArray]) /\
    Permutation finalFeed (smartRows ++ dumbRows) /\
    length smartRows <= 7 /\
    length dumbRows <= 3 /\
    length finalFeed <= 10 /\
    (forall r, In r dumbRows -> ~ In (row_id r) (map row_id smartRows)) /\
    NoDup (map row_id finalFeed) /\
    (forall r, In r finalFeed ->
       In (row_article r) (articles db) /\ ~ has_swiped db userId (row_id r)) /\
    (exists ranked,
       Permutation (never_swiped db userId) ranked /\
       StronglySorted (fun a b => float8_le (sim b) (sim a) = true) ranked /\
       smartRows = map (fun a => SmartRow a (sim a)) (firstn 7 ranked)) /\
    (forall r a,
       In r smartRows -> In a (never_swiped db userId) ->
       ~ In (id a) (map row_id smartRows) ->
       float8_le (sim a) (sim (row_article r)) = true) /\
    (exists order,
       Permutation remaining order /\
       dumbRows = map DumbRow (firstn 3 order)) /\
    (forall target,
       Permutation remaining target ->
       exists keys',
         dumbQuery db keys' userId (map row_id smartRows) =
         map DumbRow (firstn 3 target)).
Proof.
  intros Hids Hliked Hparse.
  destruct (averageVectors_defined _ (tasteQuery_nonempty _ _ Hliked) Hparse)
    as [tasteVector Havg].
  exists tasteVector.
  set (smartRows := smartQuery db userId (Some tasteVector)).
  set (dumbRows := dumbQuery db keys userId (map row_id smartRows)).
  exists (shuffleArray rnd (smartRows ++ dumbRows)).
  split; [exact Havg|]. cbv zeta.
  set (sim := fun a => (1 - cosine_distance (embedding a) tasteVector)%float).
  set (remaining :=
         filter (fun a => negb (existsb (Z.eqb (id a)) (map row_id smartRows)))
           (never_swiped db userId)).
  assert (Hperm := shuffleArray_perm rnd (smartRows ++ dumbRows)).
  assert (Hs : length smartRows <= 7)
    by (unfold smartRows, smartQuery; apply firstn_le_length).
  assert (Hd : length dumbRows <= 3).
  { unfold dumbRows, dumbQuery. rewrite length_map. apply firstn_le_length. }
  destruct (smartQuery_rows db userId (Some tasteVector))
    as (ranked & Hranked & Hsmart).
  destruct (dumbQuery_rows db keys userId (map row_id smartRows))
    as (order & Horder & Hdumb).
  fold smartRows in Hsmart. fold dumbRows in Hdumb.
  assert (Hnd := never_swiped_NoDup db userId Hids).
  assert (Hsmart_in : forall r, In r smartRows ->
                                In (row_article r) (never_swiped db userId)).
  { intros r Hr. apply (Permutation_in _ (Permutation_sym Hranked)).
    apply (In_firstn SMART_FEED_SIZE). rewrite <- Hsmart.
    apply in_map. exact Hr. }
  assert (Hdumb_in : forall r, In r dumbRows ->
            In (row_article r) (never_swiped db userId) /\
            ~ In (row_id r) (map row_id smartRows)).
  { intros r Hr.
    assert (Hin : In (row_article r) order).
    { apply (In_firstn DUMB_FEED_SIZE). rewrite <- Hdumb.
      apply in_map. exact Hr. }
    apply (Permutation_in _ (Permutation_sym Horder)) in Hin.
    apply filter_In in Hin as [Hin Hf]. split; [exact Hin|].
    intros Hsm. apply idPlaceholders_covers in Hsm.
    apply negb_true_iff in Hf.
    assert (Ht : existsb (Z.eqb (id (row_article r)))
                   (idPlaceholders (map row_id smartRows)) = true).
    { apply existsb_exists. exists (row_id r). split; [exact Hsm|].
      apply Z.eqb_refl. }
    congruence. }
  assert (Hfinal : forall r, In r (shuffleArray rnd (smartRows ++ dumbRows)) ->
                     In (row_article r) (never_swiped db userId)).
  { intros r H. apply (Permutation_in _ Hperm) in H.
    apply in_app_or in H as [H|H]; [exact (Hsmart_in r H)|].
    apply (Hdumb_in r H). }
  destruct (smartQuery_ranked db userId tasteVector)
    as (best & Hbest & Hsorted & Hrows).
  fold smartRows sim in Hrows, Hsorted.
  split.
  { unfold feed.
    replace (0 <? length (tasteQuery db userId TASTE_PROFILE_SIZE)) with true.
    + unfold buildTaste in Havg. rewrite Havg. reflexivity.
    + symmetry. apply Nat.ltb_lt.
      destruct (tasteQuery db userId TASTE_PROFILE_SIZE) eqn:E;
        [exfalso; exact (tasteQuery_nonempty _ _ Hliked E) | simpl; lia]. }
  split; [exact Hperm|]. split; [exact Hs|]. split; [exact Hd|].
  split; [rewrite (Permutation_length Hperm), length_app; lia|].
  split; [intros r Hr; apply (Hdumb_in r Hr)|].
  split.
  { apply (Permutation_NoDup (Permutation_map row_id (Permutation_sym Hperm))).
    rewrite map_app. apply NoDup_app.
    + rewrite map_row_id, Hsmart, <- firstn_map. apply NoDup_firstn.
      exact (Permutation_NoDup (Permutation_map id Hranked) Hnd).
    + rewrite map_row_id, Hdumb, <- firstn_map. apply NoDup_firstn.
      apply (Permutation_NoDup (Permutation_map id Horder)).
      apply NoDup_map_filter. exact Hnd.
    + intros i Hi1 Hi2. apply in_map_iff in Hi2 as (r & <- & Hr).
      exact (proj2 (Hdumb_in r Hr) Hi1). }
  split.
  { intros r H. apply Hfinal, never_swiped_In in H. exact H. }
  split.
  { exists best. split; [exact Hbest|]. split; [exact Hsorted|exact Hrows]. }
  split.
  { intros r a Hr Ha Hout.
    rewrite Hrows in Hr. apply in_map_iff in Hr as (b & <- & Hb).
    cbn [row_article].
    apply (OrderByFacts.strongly_sorted_split _ _ SMART_FEED_SIZE Hsorted);
      [exact Hb|].
    apply (Permutation_in _ Hbest) in Ha.
    rewrite <- (firstn_skipn SMART_FEED_SIZE best) in Ha.
    apply in_app_or in Ha as [Ha|Ha]; [|exact Ha].
    exfalso. apply Hout. rewrite Hrows, map_map. cbn [row_id row_article].
    apply in_map. exact Ha. }
  split.
  { exists (OrderBy.random keys remaining).
    split; [apply OrderByFacts.random_perm|].
    exact (dumbQuery_smart_ids db keys userId (Some tasteVector)). }
  intros target Htarget.
  destruct (RandomFacts.random_reaches remaining target Htarget)
    as [keys' Hkeys].
  exists keys'. rewrite <- Hkeys.
  exact (dumbQuery_smart_ids db keys' userId (Some tasteVector)).
Qed.

(** C3. For a user without any like the handler only runs the taste
    query and the cold query: averageVectors is not called, no smart
    query is run, nothing is shuffled.  It answers 200 with the first
    min(10, number of never-swiped articles) rows of the never-swiped
    articles in the order of the keys the datastore draws.  The order is
    random and nothing else: every order of the never-swiped articles
    comes out for some keys, the rows carry no similarity, and the answer
    is the same whatever the similarity operator of the datastore
    computes and however the runtime reads and writes numbers. *)
Theorem feed_cold_start (db : DB) (keys : nat -> nat) (rnd : list nat)
    (userId : Z) :
  has_no_like db userId ->
  exists finalFeed order,
    feed db keys rnd userId = (Feed200 finalFeed, [RunTasteQuery; RunColdQuery]) /\
    Permutation (never_swiped db userId) order /\
    map row_article finalFeed = firstn 10 order /\
    length finalFeed = Nat.min 10 (length (never_swiped db userId)) /\
    (forall a, In a (never_swiped db userId) <->
               In a (articles db) /\ ~ has_swiped db userId (id a)) /\
    finalFeed = map DumbRow (firstn 10 (OrderBy.random keys
                                          (never_swiped db userId))) /\
    (forall target,
       Permutation (never_swiped db userId) target ->
       exists keys',
         feed db keys' rnd userId =
         (Feed200 (map DumbRow (firstn 10 target)),
          [RunTasteQuery; RunColdQuery])) /\
    (forall (runtime : JSRuntime) (other : Datastore),
       feed (RT := runtime) (DS := other) db keys rnd userId =
       feed db keys rnd userId).
Proof.
  intros Hno.
  destruct (coldQuery_rows db keys userId) as (order & Horder & Hcold).
  assert (Hfeed : forall (runtime : JSRuntime) (other : Datastore) keys',
            feed (RT := runtime) (DS := other) db keys' rnd userId =
            (Feed200 (coldQuery db keys' userId),
             [RunTasteQuery; RunColdQuery])).
  { intros runtime other keys'. unfold feed.
    rewrite (tasteQuery_empty _ _ Hno). reflexivity. }
  exists (coldQuery db keys userId), order.
  split; [apply Hfeed|]. split; [exact Horder|]. split; [exact Hcold|].
  split.
  { rewrite <- (length_map row_article), Hcold, length_firstn.
    rewrite <- (Permutation_length Horder). reflexivity. }
  split; [intros a; apply never_swiped_In|].
  split; [reflexivity|]. split.
  - intros target Htarget.
    destruct (RandomFacts.random_reaches _ target Htarget) as [keys' Hkeys].
    exists keys'. rewrite Hfeed. unfold coldQuery. rewrite Hkeys. reflexivity.
  - intros runtime other. rewrite !Hfeed. reflexivity.
Qed.

(** C10. The swipe handler tests articleId for falsiness and liked for
    being undefined: an articleId that is 0 or the empty string is
    answered 400 and nothing is written, whatever liked is; a missing
    liked is answered 400; with a truthy articleId that the datastore
    takes as an integer, a liked that is null or false passes and the row
    is written with that value (NULL, false).  The datastore binds null
    to NULL and false to false. *)
Theorem swipe_validation (db : DB) (userId : Z) :
  to_boolean JS.JNull = Some None ->
  to_boolean (JS.JBool false) = Some (Some false) ->
  (forall articleId liked,
     articleId = JS.JNum 0 \/ articleId = JS.JStr EmptyString ->
     swipe db userId articleId liked = (Swipe400, db)) /\
  (forall articleId,
     swipe db userId articleId JS.JUndefined = (Swipe400, db)) /\
  (forall articleId liked aid stored,
     JS.truthy articleId = true ->
     to_integer articleId = Some aid ->
     (liked = JS.JNull /\ stored = None) \/
     (liked = JS.JBool false /\ stored = Some false) ->
     let row := {| user_id := userId; article_id := aid; liked := stored;
                   swipe_time := clock db |} in
     exists db',
       swipe db userId articleId liked = (Swipe201 row, db') /\
       user_swipes db' = user_swipes db ++ [row] /\
       articles db' = articles db).
Proof.
  intros Hnull Hfalse. split; [|split].
  - intros articleId liked [-> | ->]; reflexivity.
  - intros articleId. unfold swipe.
    rewrite orb_true_r. reflexivity.
  - intros articleId liked aid stored Ht Hint Hliked row.
    unfold swipe, JS.falsy. rewrite Ht. simpl negb.
    destruct Hliked as [[-> ->] | [-> ->]]; simpl;
      unfold insert_swipe; rewrite Hint, ?Hnull, ?Hfalse;
      eexists; split; try reflexivity; split; reflexivity.
Qed.

End WithDatastore.

Lemma swipe_validation_witness :
  swipe (DS := Fixture.toy_store) Fixture.db0 2 (JS.JNum 0) (JS.JBool true) =
    (Swipe400, Fixture.db0) /\
  exists db',
    swipe (DS := Fixture.toy_store) Fixture.db0 2 (JS.JNum 3) JS.JNull =
      (Swipe201 (Fixture.swipe_row 2 3 None 30), db') /\
    user_swipes db' = user_swipes Fixture.db0 ++ [Fixture.swipe_row 2 3 None 30].
Proof.
  destruct (swipe_validation (DS := Fixture.toy_store) Fixture.db0 2
              eq_refl eq_refl) as (H400 & _ & H201).
  split.
  - apply H400. left. reflexivity.
  - destruct (H201 (JS.JNum 3) JS.JNull 3%Z None eq_refl eq_refl
                (or_introl (conj eq_refl eq_refl))) as (db' & H & Hrows & _).
    exists db'. split; assumption.
Defined.

Lemma buildTaste_mean_witness :
  exists tasteVector,
    buildTaste (RT := Fixture.decimal_runtime) Fixture.db0 1 =
      Ok (Some (JSON.stringify_vector (RT := Fixture.decimal_runtime) tasteVector)) /\
    length tasteVector = 2 /\
    forall i, i < 2 ->
      get tasteVector i =
      mean (map (fun v => get v i) [[3; 5]; [1; 3]]%float).
Proof.
  refine (proj2 (proj2 (proj2 (buildTaste_mean (RT := Fixture.decimal_runtime)
                                 Fixture.db0 1 2 [[3; 5]; [1; 3]]%float _ _) _))).
  - vm_compute. repeat constructor.
  - repeat constructor.
  - exists (Fixture.article 1 "u1" "[1,3]"),
      (Fixture.swipe_row 1 1 (Some true) 10).
    simpl. repeat split; auto.
Defined.

Lemma feed_blend_witness :
  exists finalFeed steps,
    feed (RT := Fixture.decimal_runtime) (DS := Fixture.toy_store)
      Fixture.db0 (fun k => k) [1; 2; 3] 1 = (Feed200 finalFeed, steps) /\
    length finalFeed <= 10 /\
    NoDup (map row_id finalFeed).
Proof.
  destruct (feed_blend (RT := Fixture.decimal_runtime) (DS := Fixture.toy_store)
              Fixture.db0 (fun k => k) [1; 2; 3] 1)
    as (tasteVector & finalFeed & _ & H & _ & _ & _ & Hlen & _ & Hnd & _).
  - simpl. repeat constructor; simpl; intuition discriminate.
  - exists (Fixture.article 1 "u1" "[1,3]"),
      (Fixture.swipe_row 1 1 (Some true) 10).
    simpl. repeat split; auto.
  - vm_compute. repeat constructor; discriminate.
  - exists finalFeed. eexists. split; [exact H|]. split; assumption.
Defined.

Lemma feed_cold_start_witness :
  exists finalFeed,
    feed (RT := Fixture.decimal_runtime) (DS := Fixture.toy_store)
      Fixture.db0 (fun k => 7 - k) [1; 2; 3] 2 =
      (Feed200 finalFeed, [RunTasteQuery; RunColdQuery]) /\
    length finalFeed = 4.
Proof.
  destruct (feed_cold_start (RT := Fixture.decimal_runtime)
              (DS := Fixture.toy_store) Fixture.db0 (fun k => 7 - k) [1; 2; 3] 2)
    as (finalFeed & order & H & _ & _ & Hlen & _).
  - intros us [<-|[<-|[]]]; simpl; discriminate.
  - exists finalFeed. split; [exact H|]. exact Hlen.
Defined.

End ServerFacts.

(** ** The ingestion script *)

Module IngestFacts.
Import Ingest Spec.

Section WithWorld.
Context {RT : JSRuntime} (w : World).

(** *** The embedding adapter *)

Lemma blank_guard text :
  Text.is_empty text || (String.length (trim text) =? 0) = blank text.
Proof.
  unfold blank, trim. rewrite TextFacts.length_zero.
  destruct (Text.all_chars is_js_space text) eqn:E.
  - rewrite (TextFacts.trim_all _ _ E). apply orb_true_r.
  - destruct text as [|c text]; [discriminate|]. simpl Text.is_empty.
    destruct (Text.trim is_js_space (String c text)) eqn:T; simpl; auto.
    apply TextFacts.trim_empty in T. congruence.
Qed.

Lemma lookup_missing name fields :
  existsb (fun kv => String.eqb (fst kv) name) fields = false ->
  JS.lookup name fields = JS.JUndefined.
Proof.
  induction fields as [|[k v] fields IH]; simpl; auto.
  destruct (String.eqb k name); simpl; [discriminate|exact IH].
Qed.

(** Reading a field that is not there throws or gives [undefined]. *)
Lemma get_prop_no_field name v :
  name <> "length" ->
  field name v = None ->
  JS.get_prop v name = Thrown \/ JS.get_prop v name = Ok JS.JUndefined.
Proof.
  intros Hname H.
  assert (Hl : String.eqb name "length" = false)
    by (apply String.eqb_neq; exact Hname).
  destruct v; simpl in *; auto; rewrite ?Hl; auto.
  destruct (existsb _ fields) eqn:E; [discriminate|].
  right. rewrite lookup_missing; auto.
Qed.

Lemma get_prop_field name v x :
  field name v = Some x -> JS.get_prop v name = Ok x.
Proof.
  destruct v; simpl; try discriminate.
  destruct (existsb _ fields); congruence.
Qed.

Lemma get_first_first v x : first v = Some x -> JS.get_first v = Ok x.
Proof.
  destruct v as [| | | |s|elems|fields]; simpl; try discriminate.
  - destruct s; simpl; congruence.
  - destruct elems; simpl; congruence.
  - destruct (existsb _ fields); congruence.
Qed.

Lemma get_first_none v :
  first v = None ->
  JS.get_first v = Thrown \/ JS.get_first v = Ok JS.JUndefined.
Proof.
  destruct v as [| | | |s|elems|fields]; simpl; auto.
  - destruct s; simpl; auto. discriminate.
  - destruct elems; simpl; auto. discriminate.
  - destruct (existsb _ fields) eqn:E; [discriminate|].
    intros _. right. rewrite lookup_missing; auto.
Qed.

(** What the adapter does is a function of the answer of the service. *)
Lemma getEmbedding_eval text st :
  getEmbedding w text st =
  if blank text then (Ok JS.JNull, st)
  else
    (match ml w text with
     | NetworkError => Ok JS.JNull
     | Response status data =>
         if resolves status then
           match JS.get_prop data "embedding" with
           | Ok v => Ok v
           | Thrown => Ok JS.JNull
           end
         else Ok JS.JNull
     end,
     with_embedded (embedded st ++ [text]) st).
Proof.
  unfold getEmbedding. rewrite blank_guard.
  destruct (blank text); [reflexivity|].
  cbv beta iota zeta delta
    [try_catch bind axios_post log_embed lift ret throw with_embedded].
  destruct (ml w text) as [|status data]; [reflexivity|].
  destruct (resolves status); [|reflexivity].
  destruct (JS.get_prop data "embedding"); reflexivity.
Qed.

Lemma getEmbedding_gradio_eval text st :
  getEmbedding_gradio w text st =
  if blank text then (Ok JS.JNull, st)
  else
    (match ml w text with
     | NetworkError => Ok JS.JNull
     | Response status data =>
         if resolves status then
           match res_bind (JS.get_prop data "data")
                   (fun d => res_bind (JS.get_first d)
                               (fun e => JS.get_prop e "embedding")) with
           | Ok v => Ok v
           | Thrown => Ok JS.JNull
           end
         else Ok JS.JNull
     end,
     with_embedded (embedded st ++ [text]) st).
Proof.
  unfold getEmbedding_gradio. rewrite blank_guard.
  destruct (blank text); [reflexivity|].
  cbv beta iota zeta delta
    [try_catch bind axios_post log_embed lift ret throw with_embedded].
  destruct (ml w text) as [|status data]; [reflexivity|].
  destruct (resolves status); [|reflexivity].
  destruct (JS.get_prop data "data") as [d|]; simpl; [|reflexivity].
  destruct (JS.get_first d) as [e|]; simpl; [|reflexivity].
  destruct (JS.get_prop e "embedding"); reflexivity.
Qed.

(** X3. The adapter answers null to an empty or white-space-only text
    and leaves the state as it is (no request is logged); when there is
    no response, a status outside 200 .. 299, or a body that does not
    have the place of the embedding, it answers null or undefined; and
    whatever the service does, it returns a value, never an exception.
    Both variants. *)
Theorem getEmbedding_failures_absent (text : string) (st : State) :
  (blank text = true ->
   getEmbedding w text st = (Ok JS.JNull, st) /\
   getEmbedding_gradio w text st = (Ok JS.JNull, st)) /\
  (call_failed embedding_place (ml w text) ->
   exists v, fst (getEmbedding w text st) = Ok v /\ JS.absent v = true) /\
  (call_failed embedding_place_gradio (ml w text) ->
   exists v, fst (getEmbedding_gradio w text st) = Ok v /\ JS.absent v = true) /\
  (exists v, fst (getEmbedding w text st) = Ok v) /\
  (exists v, fst (getEmbedding_gradio w text st) = Ok v).
Proof.
  rewrite getEmbedding_eval, getEmbedding_gradio_eval.
  assert (Hne : "embedding" <> "length") by discriminate.
  assert (Hnd : "data" <> "length") by discriminate.
  repeat split.
  - destruct (blank text); [reflexivity|discriminate].
  - destruct (blank text); [reflexivity|discriminate].
  - intros Hfail. destruct (blank text); simpl; [eauto|].
    destruct (ml w text) as [|status body]; simpl in *; [eauto|].
    destruct (resolves status); [|eauto].
    destruct Hfail as [Hfail|Hfail]; [discriminate|].
    destruct (get_prop_no_field _ _ Hne Hfail) as [-> | ->]; eauto.
  - intros Hfail. destruct (blank text); simpl; [eauto|].
    destruct (ml w text) as [|status body]; simpl in *; [eauto|].
    destruct (resolves status); [|eauto].
    destruct Hfail as [Hfail|Hfail]; [discriminate|].
    unfold embedding_place_gradio in Hfail.
    destruct (field "data" body) as [d|] eqn:Ed.
    + rewrite (get_prop_field _ _ _ Ed). simpl.
      destruct (first d) as [e|] eqn:Ee.
      * rewrite (get_first_first _ _ Ee). simpl.
        destruct (get_prop_no_field _ _ Hne Hfail) as [-> | ->]; eauto.
      * destruct (get_first_none _ Ee) as [-> | ->]; simpl; eauto.
    + destruct (get_prop_no_field _ _ Hnd Ed) as [-> | ->]; simpl; eauto.
  - destruct (blank text); simpl; [eauto|].
    destruct (ml w text) as [|status body]; [eauto|].
    destruct (resolves status); [|eauto].
    destruct (JS.get_prop body "embedding"); eauto.
  - destruct (blank text); simpl; [eauto|].
    destruct (ml w text) as [|status body]; [eauto|].
    destruct (resolves status); [|eauto].
    destruct (res_bind _ _); eauto.
Qed.

Lemma getEmbedding_adapter : adapter_like (getEmbedding w).
Proof.
  intros text. destruct (blank text) eqn:B.
  - exists JS.JNull, []. intros st. rewrite getEmbedding_eval, B.
    unfold with_embedded. rewrite app_nil_r. destruct st; reflexivity.
  - assert (H := fun st => getEmbedding_eval text st). rewrite B in H.
    destruct (ml w text) as [|status body];
      [|destruct (resolves status);
        [destruct (JS.get_prop body "embedding")|]];
      eexists; exists [text]; intros st; rewrite H; reflexivity.
Qed.

Lemma getEmbedding_gradio_adapter : adapter_like (getEmbedding_gradio w).
Proof.
  intros text. destruct (blank text) eqn:B.
  - exists JS.JNull, []. intros st. rewrite getEmbedding_gradio_eval, B.
    unfold with_embedded. rewrite app_nil_r. destruct st; reflexivity.
  - assert (H := fun st => getEmbedding_gradio_eval text st). rewrite B in H.
    destruct (ml w text) as [|status body];
      [|destruct (resolves status); [destruct (res_bind _ _)|]];
      eexists; exists [text]; intros st; rewrite H; reflexivity.
Qed.

(** *** The loops *)

Section Loops.
Variable embed : string -> M JS.Value.
Variable skip : JS.Value -> bool.
Hypothesis Hembed : adapter_like embed.

(** One turn of the loop over the articles. *)
Lemma process_articles_step article :
  exists v texts, forall rest n st,
    let st1 := with_embedded (embedded st ++ texts) st in
    process_articles embed skip (article :: rest) n st =
    if missing (title article) || missing (image article)
       || missing (description article)
    then process_articles embed skip rest n st
    else if skip v then process_articles embed skip rest n st1
    else
      match embeddingString v, source article with
      | Ok text, Some name =>
          if has_url (db st) (url article)
          then process_articles embed skip rest n st1
          else
            process_articles embed skip rest (n + 1)
              (set_db
                 (add_row
                    (new_row (db st) (field_text (title article))
                       (field_text (description article)) (url article)
                       (field_text (image article)) name (publishedAt article)
                       text)
                    (db st))
                 st1)
      | _, _ => (Thrown, st1)
      end.
Proof.
  destruct (Hembed (field_text (title article) ++ ". "
                    ++ field_text (description article))%string)
    as (v & texts & He).
  exists v, texts. intros rest n st st1.
  cbn [process_articles].
  destruct (missing (title article) || missing (image article)
            || missing (description article)); [reflexivity|].
  unfold bind at 1. rewrite He. fold st1.
  destruct (skip v); [reflexivity|].
  cbv beta iota zeta delta [bind lift insert_article].
  destruct (embeddingString v) as [text|]; [|reflexivity].
  destruct (source article) as [name|]; [|reflexivity].
  replace (db st1) with (db st) by reflexivity.
  destruct (has_url (db st) (url article)); reflexivity.
Qed.

Lemma inserted_refl st : inserted [] st st.
Proof. unfold inserted. rewrite app_nil_r. auto. Qed.

Lemma inserted_trans r1 r2 a b c :
  inserted r1 a b -> inserted r2 b c -> inserted (r1 ++ r2) a c.
Proof.
  unfold inserted. intros (A1 & A2 & A3 & A4 & A5) (B1 & B2 & B3 & B4 & B5).
  rewrite B1, A1, app_assoc. repeat split; congruence.
Qed.

Lemma inserted_with_embedded texts st : inserted [] st (with_embedded texts st).
Proof. unfold inserted. simpl. rewrite app_nil_r. auto. Qed.

Lemma inserted_add_row row texts st :
  inserted [row] st (set_db (add_row row (db st)) (with_embedded texts st)).
Proof. unfold inserted. simpl. auto. Qed.

Lemma has_url_app d u rows d' :
  Store.articles d' = Store.articles d ++ rows ->
  has_url d u = true -> has_url d' u = true.
Proof.
  unfold has_url. intros ->. rewrite existsb_app. intros ->. reflexivity.
Qed.

Lemma has_url_inserted rows st st' u :
  inserted rows st st' -> has_url (db st) u = true -> has_url (db st') u = true.
Proof. intros (H & _). exact (has_url_app _ _ _ _ H). Qed.

Lemma has_url_add_row row d : has_url (add_row row d) (Store.article_url row) = true.
Proof.
  unfold has_url, add_row. simpl. rewrite existsb_app. simpl.
  rewrite String.eqb_refl. simpl. apply orb_true_r.
Qed.

(** The loop over the articles only appends rows, and when it ends
    without an exception its count has grown by their number. *)
Lemma process_articles_grows : forall arts n st,
  exists rows,
    inserted rows st (snd (process_articles embed skip arts n st)) /\
    forall n', fst (process_articles embed skip arts n st) = Ok n' ->
               n' = n + length rows.
Proof.
  induction arts as [|article rest IH]; intros n st.
  - exists []. simpl. split; [apply inserted_refl|].
    intros n' H. inversion H. lia.
  - destruct (process_articles_step article) as (v & texts & Hstep).
    rewrite Hstep. clear Hstep.
    set (st1 := with_embedded (embedded st ++ texts) st).
    assert (H1 : inserted [] st st1) by apply inserted_with_embedded.
    destruct (missing (title article) || missing (image article)
              || missing (description article)); [apply IH|].
    destruct (skip v).
    { destruct (IH n st1) as (rows & Hi & Hn). exists rows.
      split; [exact (inserted_trans _ _ _ _ _ H1 Hi)|exact Hn]. }
    destruct (embeddingString v) as [text|];
      [destruct (source article) as [name|]|].
    + destruct (has_url (db st) (url article)).
      * destruct (IH n st1) as (rows & Hi & Hn). exists rows.
        split; [exact (inserted_trans _ _ _ _ _ H1 Hi)|exact Hn].
      * match goal with |- context [set_db (add_row ?r _) _] => set (row := r) end.
        destruct (IH (n + 1) (set_db (add_row row (db st)) st1))
          as (rows & Hi & Hn).
        exists (row :: rows). split.
        -- exact (inserted_trans [row] rows _ _ _
                    (inserted_add_row row _ st) Hi).
        -- intros n' Hn'. rewrite (Hn n' Hn'). simpl. lia.
    + exists []. split; [exact H1|discriminate].
    + exists []. split; [exact H1|discriminate].
Qed.

(** Replayed on a state that already holds every URL the loop leaves
    behind, the loop inserts nothing, counts nothing, and ends the same
    way. *)
Lemma process_articles_replay : forall arts n s m t,
  (forall u, has_url (db (snd (process_articles embed skip arts n s))) u = true ->
             has_url (db t) u = true) ->
  inserted [] t (snd (process_articles embed skip arts m t)) /\
  db (snd (process_articles embed skip arts m t)) = db t /\
  match fst (process_articles embed skip arts n s),
        fst (process_articles embed skip arts m t) with
  | Ok _, Ok m' => m' = m
  | Thrown, Thrown => True
  | _, _ => False
  end.
Proof.
  induction arts as [|article rest IH]; intros n s m t Hurls.
  - simpl. split; [apply inserted_refl|]. split; reflexivity.
  - destruct (process_articles_step article) as (v & texts & Hstep).
    rewrite !Hstep. rewrite Hstep in Hurls. clear Hstep.
    set (s1 := with_embedded (embedded s ++ texts) s) in *.
    set (t1 := with_embedded (embedded t ++ texts) t).
    assert (Ht1 : inserted [] t t1) by apply inserted_with_embedded.
    assert (Hvia : forall m' s',
      (forall u, has_url (db (snd (process_articles embed skip rest m' s'))) u = true ->
                 has_url (db t1) u = true) ->
      inserted [] t (snd (process_articles embed skip rest m t1)) /\
      db (snd (process_articles embed skip rest m t1)) = db t /\
      match fst (process_articles embed skip rest m' s'),
            fst (process_articles embed skip rest m t1) with
      | Ok _, Ok m'' => m'' = m
      | Thrown, Thrown => True
      | _, _ => False
      end).
    { intros m' s' H. destruct (IH m' s' m t1 H) as (Hi & Hd & Hr).
      split; [exact (inserted_trans [] [] _ _ _ Ht1 Hi)|]. split; auto. }
    destruct (missing (title article) || missing (image article)
              || missing (description article)); [apply IH; exact Hurls|].
    destruct (skip v); [apply Hvia; exact Hurls|].
    destruct (embeddingString v) as [text|];
      [destruct (source article) as [name|]|];
      [|split; [exact Ht1|split; reflexivity]
       |split; [exact Ht1|split; reflexivity]].
    assert (Hknown : has_url (db t) (url article) = true).
    { apply Hurls.
      destruct (has_url (db s) (url article)) eqn:E.
      - destruct (process_articles_grows rest n s1) as (rows & Hi & _).
        apply (has_url_inserted _ _ _ _ Hi). exact E.
      - match goal with |- context [set_db (add_row ?r _) _] => set (row := r) end.
        destruct (process_articles_grows rest (n + 1)
                    (set_db (add_row row (db s)) s1)) as (rows & Hi & _).
        apply (has_url_inserted _ _ _ _ Hi). simpl.
        exact (has_url_add_row row (db s)). }
    rewrite Hknown.
    destruct (has_url (db s) (url article)); apply Hvia; exact Hurls.
Qed.

(** One turn of the loop over the categories. *)
Lemma process_categories_step category rest st :
  process_categories w embed skip (category :: rest) st =
  let st1 := requested category st in
  match gnews w category with
  | NetworkError => (Thrown, st1)
  | Response status articles =>
      if resolves status then
        match articles with
        | None | Some [] => process_categories w embed skip rest st1
        | Some arts =>
            match process_articles embed skip arts 0 st1 with
            | (Ok n, st2) =>
                process_categories w embed skip rest (counted category n st2)
            | (Thrown, st2) => (Thrown, st2)
            end
        end
      else if status =? 429 then (Ok Broken, st1)
      else (Thrown, st1)
  end.
Proof.
  cbn [process_categories].
  cbv beta iota zeta delta [bind log_fetch throw ret].
  fold (requested category st).
  destruct (gnews w category) as [|status articles]; [reflexivity|].
  destruct (resolves status); [|destruct (status =? 429); reflexivity].
  destruct articles as [[|a arts]|]; try reflexivity.
  destruct (process_articles embed skip (a :: arts) 0 (requested category st))
    as [[n|] st2]; [|reflexivity].
  unfold add_total, counted, sleep.
  destruct (String.eqb category (last CATEGORIES EmptyString)); reflexivity.
Qed.

(** The loop over the categories only appends rows, and the total
    grows by at most their number (by exactly their number when the loop
    ends without an exception). *)
Lemma process_categories_grows : forall cats st,
  exists rows,
    let r := process_categories w embed skip cats st in
    Store.articles (db (snd r)) = Store.articles (db st) ++ rows /\
    totalProcessedCount (snd r) <= totalProcessedCount st + length rows /\
    (forall e, fst r = Ok e ->
       totalProcessedCount (snd r) = totalProcessedCount st + length rows).
Proof.
  induction cats as [|category rest IH]; intros st.
  - exists []. simpl. rewrite app_nil_r. repeat split; auto; lia.
  - rewrite process_categories_step. cbv zeta.
    set (st1 := requested category st).
    assert (Hfin : exists rows : list Store.Article,
              Store.articles (db st1) = Store.articles (db st) ++ rows /\
              totalProcessedCount st1 <= totalProcessedCount st + length rows /\
              totalProcessedCount st1 = totalProcessedCount st + length rows).
    { exists []. simpl. rewrite app_nil_r. repeat split; auto; lia. }
    assert (Hrest : forall st', db st' = db st ->
              totalProcessedCount st' = totalProcessedCount st ->
              exists rows,
                let r := process_categories w embed skip rest st' in
                Store.articles (db (snd r)) = Store.articles (db st) ++ rows /\
                totalProcessedCount (snd r) <= totalProcessedCount st + length rows /\
                (forall e, fst r = Ok e ->
                   totalProcessedCount (snd r) =
                   totalProcessedCount st + length rows)).
    { intros st' Hd Ht. destruct (IH st') as (rows & H). exists rows.
      rewrite Hd, Ht in H. exact H. }
    destruct (gnews w category) as [|status articles].
    { destruct Hfin as (rows & H1 & H2 & H3). exists rows. simpl.
      repeat split; auto. }
    destruct (resolves status).
    2:{ destruct Hfin as (rows & H1 & H2 & H3). exists rows.
        destruct (status =? 429); simpl; repeat split; auto. }
    destruct articles as [[|a arts]|]; try (apply Hrest; reflexivity).
    destruct (process_articles_grows (a :: arts) 0 st1) as (rows1 & Hi & Hn).
    destruct (process_articles embed skip (a :: arts) 0 st1) as [[n|] st2];
      simpl in Hi, Hn.
    + destruct Hi as (Ha & _ & _ & _ & Ht).
      specialize (Hn n eq_refl). simpl in Hn.
      destruct (IH (counted category n st2)) as (rows2 & H1 & H2 & H3).
      exists (rows1 ++ rows2). cbv zeta in *. simpl in *.
      rewrite H1, Ha, app_assoc, length_app. rewrite Ht in *.
      repeat split; auto; try lia.
      intros e He. rewrite (H3 e He). lia.
    + destruct Hi as (Ha & _ & _ & _ & Ht).
      exists rows1. simpl. rewrite Ha, Ht. simpl.
      repeat split; auto; try lia. discriminate.
Qed.

Lemma process_categories_has_url cats st u :
  has_url (db st) u = true ->
  has_url (db (snd (process_categories w embed skip cats st))) u = true.
Proof.
  destruct (process_categories_grows cats st) as (rows & H & _).
  exact (has_url_app _ _ _ _ H).
Qed.

(** Replayed on a corpus that already holds every URL the loop leaves
    behind, the loop over the categories changes neither the corpus nor
    the total. *)
Lemma process_categories_replay : forall cats s t,
  (forall u, has_url (db (snd (process_categories w embed skip cats s))) u = true ->
             has_url (db t) u = true) ->
  db (snd (process_categories w embed skip cats t)) = db t /\
  totalProcessedCount (snd (process_categories w embed skip cats t)) =
  totalProcessedCount t.
Proof.
  induction cats as [|category rest IH]; intros s t Hurls.
  - simpl. auto.
  - rewrite process_categories_step. rewrite process_categories_step in Hurls.
    cbv zeta in *.
    set (s1 := requested category s) in *.
    set (t1 := requested category t).
    destruct (gnews w category) as [|status articles]; [simpl; auto|].
    destruct (resolves status);
      [|destruct (status =? 429); simpl; auto].
    destruct articles as [[|a arts]|];
      try (exact (IH s1 t1 Hurls)).
    assert (Hpre : forall u,
              has_url (db (snd (process_articles embed skip (a :: arts) 0 s1))) u = true ->
              has_url (db t1) u = true).
    { intros u Hu. apply Hurls.
      destruct (process_articles embed skip (a :: arts) 0 s1) as [[n|] s2];
        simpl in *; auto.
      apply process_categories_has_url. exact Hu. }
    destruct (process_articles_replay (a :: arts) 0 s1 0 t1 Hpre)
      as (Hi & Hd & Hr).
    destruct (process_articles embed skip (a :: arts) 0 s1) as [[n|] s2];
      destruct (process_articles embed skip (a :: arts) 0 t1) as [[m|] t2];
      simpl in Hi, Hd, Hr; try contradiction.
    + subst m. destruct Hi as (_ & _ & _ & _ & Ht).
      destruct (IH (counted category n s2) (counted category 0 t2)) as (H1 & H2).
      { intros u Hu. simpl. rewrite Hd. apply Hurls. exact Hu. }
      rewrite H1, H2. simpl. rewrite Hd, Ht. simpl. split; auto.
    + destruct Hi as (_ & _ & _ & _ & Ht). simpl. auto.
Qed.

(** When the loop over [pre] visits all of them, the loop over a longer
    list goes on from there, and the requests logged are those for
    [pre]. *)
Lemma process_categories_finished : forall pre st st1 rest,
  process_categories w embed skip pre st = (Ok Finished, st1) ->
  process_categories w embed skip (pre ++ rest) st =
  process_categories w embed skip rest st1 /\
  fetched st1 = fetched st ++ pre.
Proof.
  induction pre as [|category pre IH]; intros st st1 rest H.
  - simpl in H. inversion H; subst. simpl. rewrite app_nil_r. auto.
  - rewrite <- app_comm_cons. rewrite process_categories_step.
    rewrite process_categories_step in H. cbv zeta in *.
    set (st0 := requested category st) in *.
    assert (Hlog : forall st', fetched st' = fetched st0 ->
              process_categories w embed skip pre st' = (Ok Finished, st1) ->
              process_categories w embed skip (pre ++ rest) st' =
              process_categories w embed skip rest st1 /\
              fetched st1 = fetched st ++ category :: pre).
    { intros st' Hf H'. destruct (IH st' st1 rest H') as (H1 & H2).
      split; [exact H1|]. rewrite H2, Hf. simpl.
      rewrite <- app_assoc. reflexivity. }
    destruct (gnews w category) as [|status articles]; [discriminate|].
    destruct (resolves status);
      [|destruct (status =? 429); discriminate].
    destruct articles as [[|a arts]|]; try (apply Hlog; [reflexivity|exact H]).
    destruct (process_articles_grows (a :: arts) 0 st0) as (rows & Hi & _).
    destruct (process_articles embed skip (a :: arts) 0 st0) as [[n|] st2];
      [|discriminate].
    simpl in Hi. destruct Hi as (_ & _ & Hf & _).
    apply Hlog; [exact Hf|exact H].
Qed.

(** A 429 for the category the loop is at ends it there. *)
Lemma process_categories_429 category rest st data :
  gnews w category = Response 429 data ->
  process_categories w embed skip (category :: rest) st =
  (Ok Broken, requested category st).
Proof. intros H. rewrite process_categories_step, H. reflexivity. Qed.

Lemma run_loop_idempotent st0 t0 :
  totalProcessedCount t0 = 0 ->
  db t0 = db (final (run_loop w embed skip st0)) ->
  db (final (run_loop w embed skip t0)) = db t0 /\
  reported (run_loop w embed skip t0) = Some 0.
Proof.
  intros Ht Hd. unfold run_loop in *.
  destruct (process_categories_replay CATEGORIES st0 t0) as (H1 & H2).
  { intros u Hu. rewrite Hd.
    destruct (process_categories w embed skip CATEGORIES st0). exact Hu. }
  destruct (process_categories w embed skip CATEGORIES t0) as [r t'].
  simpl in *. rewrite H2, Ht. auto.
Qed.

Lemma run_loop_counts st0 n :
  reported (run_loop w embed skip st0) = Some n ->
  length (Store.articles (db st0)) + (n - totalProcessedCount st0) <=
  length (Store.articles (db (final (run_loop w embed skip st0)))).
Proof.
  unfold run_loop.
  destruct (process_categories_grows CATEGORIES st0) as (rows & H1 & H2 & _).
  cbv zeta in *.
  destruct (process_categories w embed skip CATEGORIES st0) as [r st'].
  simpl in *. intros Hn. inversion Hn; subst.
  rewrite H1, length_app. lia.
Qed.

End Loops.

(** *** The run *)

(** C4 (as amended). The script has no exit code of its own: a missing
    API key makes it log and return; once the connection is there, every
    error of the loop (a 429 ends the loop, any other failed request is
    thrown and caught by the outer handler) is logged and the run goes on
    to its report; in all these cases the main promise resolves and the
    exit code is 0.  Only a refused connection, which the first variant
    awaits outside of try, rejects the promise; the second variant exits
    with 0 always. *)
Theorem ingest_exit_code (env : Env) (d : Store.DB) :
  (no_key env = true -> exit_code (ingestArticles w env d) = 0) /\
  (connect_ok w = true -> exit_code (ingestArticles w env d) = 0) /\
  (no_key env = false -> connect_ok w = false ->
   exit_code (ingestArticles w env d) = 1) /\
  exit_code (ingestArticles_gradio w env d) = 0.
Proof.
  assert (Hloop : forall embed skip st,
            outcome (run_loop w embed skip st) = Resolved).
  { intros embed skip st. unfold run_loop.
    destruct (process_categories w embed skip CATEGORIES st). reflexivity. }
  unfold ingestArticles, ingestArticles_gradio, exit_code.
  repeat split.
  - intros ->. reflexivity.
  - intros ->. destruct (no_key env); [reflexivity|].
    simpl negb. cbv iota. rewrite Hloop. reflexivity.
  - intros -> ->. reflexivity.
  - destruct (no_key env); [reflexivity|].
    destruct (missing (ML_SERVICE_URL env) || _); [reflexivity|].
    destruct (connect_ok w); [|reflexivity].
    simpl negb. cbv iota. rewrite Hloop. reflexivity.
Qed.

(** C5. When the source answers 429 to a category that the run reaches
    (the categories before it were all visited), the run ends there: the
    state it leaves is the one the earlier categories left, with the
    request for the current category logged.  So the requests are those
    for the earlier categories and the current one, nothing is posted to
    the embedding service or inserted for the current or a later
    category, and the corpus still holds what it held at the start
    followed by what the earlier categories inserted. *)
Theorem rate_limit_stops_run (env : Env) (d : Store.DB)
    (pre post : list string) (c : string) (data : option (list RawArticle))
    (st1 : State) :
  no_key env = false ->
  connect_ok w = true ->
  CATEGORIES = pre ++ c :: post ->
  process_categories w (getEmbedding w) JS.falsy pre (initial d) =
    (Ok Finished, st1) ->
  gnews w c = Response 429 data ->
  let r := ingestArticles w env d in
  final r = requested c st1 /\
  fetched (final r) = pre ++ [c] /\
  embedded (final r) = embedded st1 /\
  db (final r) = db st1 /\
  (exists rows, Store.articles (db (final r)) = Store.articles d ++ rows) /\
  outcome r = Resolved /\
  reported r = Some (totalProcessedCount st1).
Proof.
  intros Hkey Hconn Hcat Hpre H429 r.
  destruct (process_categories_finished (getEmbedding w) JS.falsy
              getEmbedding_adapter pre (initial d) st1 (c :: post) Hpre)
    as (Happ & Hlog).
  assert (Hrun : process_categories w (getEmbedding w) JS.falsy CATEGORIES
                   (initial d) = (Ok Broken, requested c st1)).
  { rewrite Hcat, Happ.
    exact (process_categories_429 (getEmbedding w) JS.falsy c post st1 data H429). }
  assert (Hr : r = {| outcome := Resolved;
                      reported := Some (totalProcessedCount st1);
                      final := requested c st1 |}).
  { unfold r, ingestArticles. rewrite Hkey, Hconn. simpl negb. cbv iota.
    unfold run_loop. rewrite Hrun. reflexivity. }
  rewrite Hr. simpl. repeat split; auto.
  - rewrite Hlog. reflexivity.
  - destruct (process_categories_grows (getEmbedding w) JS.falsy
                getEmbedding_adapter pre (initial d)) as (rows & H & _).
    rewrite Hpre in H. exists rows. exact H.
Qed.

(** C7. A second run against the same source and embedding service
    leaves the corpus as the first run left it and reports no new
    article; an insert of a URL the corpus holds gives rowCount 0, leaves
    the state as it is and does not throw; and the total a run reports is
    at most the number of rows it added.  Both variants. *)
Theorem ingestion_idempotent (env : Env) :
  idempotent (ingestArticles w env) /\
  idempotent (ingestArticles_gradio w env) /\
  (forall title description article_url image_url source_name published_at
          embedding st,
     has_url (db st) article_url = true ->
     insert_article title description article_url image_url source_name
       published_at embedding st = (Ok 0, st)).
Proof.
  split; [|split].
  - intros d. cbv zeta. unfold ingestArticles.
    destruct (no_key env); [simpl; repeat split; auto; discriminate|].
    destruct (connect_ok w); simpl negb; cbv iota;
      [|simpl; repeat split; auto; discriminate].
    destruct (run_loop_idempotent (getEmbedding w) JS.falsy getEmbedding_adapter
                (initial d)
                (initial (db (final (run_loop w (getEmbedding w) JS.falsy
                                       (initial d)))))
                eq_refl eq_refl) as (H1 & H2).
    split; [exact H1|]. split.
    + intros n Hn. rewrite H2 in Hn. inversion Hn. reflexivity.
    + intros n Hn.
      assert (H := run_loop_counts (getEmbedding w) JS.falsy getEmbedding_adapter
                     (initial d) n Hn).
      simpl in H. lia.
  - intros d. cbv zeta. unfold ingestArticles_gradio.
    destruct (no_key env); [simpl; repeat split; auto; discriminate|].
    destruct (missing (ML_SERVICE_URL env) || _);
      [simpl; repeat split; auto; discriminate|].
    destruct (connect_ok w); simpl negb; cbv iota.
    2:{ simpl. repeat split; auto.
        - intros n Hn. inversion Hn. reflexivity.
        - intros n Hn. inversion Hn. lia. }
    destruct (run_loop_idempotent (getEmbedding_gradio w) skip_gradio
                getEmbedding_gradio_adapter (initial d)
                (initial (db (final (run_loop w (getEmbedding_gradio w)
                                       skip_gradio (initial d)))))
                eq_refl eq_refl) as (H1 & H2).
    split; [exact H1|]. split.
    + intros n Hn. rewrite H2 in Hn. inversion Hn. reflexivity.
    + intros n Hn.
      assert (H := run_loop_counts (getEmbedding_gradio w) skip_gradio
                     getEmbedding_gradio_adapter (initial d) n Hn).
      simpl in H. lia.
  - intros. unfold insert_article. cbv zeta. rewrite H. reflexivity.
Qed.

End WithWorld.

(** C4, the claim as stated fails: without the API key, on a 429 for
    every category, and on a 500 for every category, the exit code is 0. *)
Lemma ingest_exit_code_counterexample :
  no_key Fixture.env_no_key = true /\
  exit_code (ingestArticles (RT := Fixture.decimal_runtime) Fixture.news_world
               Fixture.env_no_key Fixture.db0) = 0 /\
  fetched (final (ingestArticles (RT := Fixture.decimal_runtime)
                    Fixture.news_world Fixture.env_ok Fixture.db0)) =
    ["general"; "technology"] /\
  exit_code (ingestArticles (RT := Fixture.decimal_runtime) Fixture.news_world
               Fixture.env_ok Fixture.db0) = 0 /\
  gnews Fixture.broken_world "general" = Response 500 None /\
  exit_code (ingestArticles (RT := Fixture.decimal_runtime) Fixture.broken_world
               Fixture.env_ok Fixture.db0) = 0.
Proof. vm_compute. repeat split. Qed.

Lemma ingest_exit_code_witness :
  exit_code (ingestArticles (RT := Fixture.decimal_runtime) Fixture.broken_world
               Fixture.env_ok Fixture.db0) = 0.
Proof.
  exact (proj1 (proj2 (ingest_exit_code (RT := Fixture.decimal_runtime)
                         Fixture.broken_world Fixture.env_ok Fixture.db0))
           eq_refl).
Defined.

Lemma rate_limit_stops_run_witness :
  fetched (final (ingestArticles (RT := Fixture.decimal_runtime)
                    Fixture.news_world Fixture.env_ok Fixture.db0)) =
    ["general"] ++ ["technology"] /\
  exists rows,
    Store.articles
      (db (final (ingestArticles (RT := Fixture.decimal_runtime)
                    Fixture.news_world Fixture.env_ok Fixture.db0))) =
    Store.articles Fixture.db0 ++ rows.
Proof.
  destruct (rate_limit_stops_run (RT := Fixture.decimal_runtime)
              Fixture.news_world Fixture.env_ok Fixture.db0
              ["general"] ["science"; "sports"; "entertainment"] "technology"
              None
              (snd (process_categories (RT := Fixture.decimal_runtime)
                      Fixture.news_world (getEmbedding Fixture.news_world)
                      JS.falsy ["general"] (initial Fixture.db0))))
    as (_ & Hf & _ & _ & Hrows & _).
  - reflexivity.
  - reflexivity.
  - reflexivity.
  - vm_compute. reflexivity.
  - reflexivity.
  - split; [exact Hf|exact Hrows].
Defined.

(** C6. The adapter does not look at what the embedding field holds: a
    body whose embedding is a string makes it return that string, which
    is neither a vector of floats nor absent.  Both variants. *)
Lemma getEmbedding_returns_non_vector :
  fst (getEmbedding Fixture.oops_world "Title. Text" (initial Fixture.db0)) =
    Ok (JS.JStr "oops") /\
  fst (getEmbedding_gradio Fixture.oops_world_gradio "Title. Text"
         (initial Fixture.db0)) = Ok (JS.JStr "oops") /\
  JS.is_vector (JS.JStr "oops") = false /\
  JS.absent (JS.JStr "oops") = false.
Proof. repeat split. Qed.

(** C9. A body that comes with the status 200 and holds, in the place
    of the embedding, something that is no vector is a malformed body;
    the adapter does not turn it into an absent result but returns what
    the place holds, here an object.  Both variants.  (The same missing
    validation as in C6.) *)
Lemma getEmbedding_malformed_body_returned :
  fst (getEmbedding Fixture2.malformed_world "Title. Text"
         (initial Fixture.db0)) =
    Ok (JS.JObj [("values", JS.JArr [JS.JNum 1; JS.JNum 2])]) /\
  fst (getEmbedding_gradio Fixture2.malformed_world_gradio "Title. Text"
         (initial Fixture.db0)) =
    Ok (JS.JObj [("values", JS.JArr [JS.JNum 1; JS.JNum 2])]) /\
  JS.absent (JS.JObj [("values", JS.JArr [JS.JNum 1; JS.JNum 2])]) = false /\
  JS.is_vector (JS.JObj [("values", JS.JArr [JS.JNum 1; JS.JNum 2])]) = false.
Proof. repeat split. Qed.

Lemma getEmbedding_failures_absent_witness :
  getEmbedding Fixture.oops_world "  " (initial Fixture.db0) =
    (Ok JS.JNull, initial Fixture.db0) /\
  exists v,
    fst (getEmbedding
           {| gnews := fun _ => NetworkError;
              ml := fun _ => Response 500 JS.JNull;
              connect_ok := true |}
           "Title. Text" (initial Fixture.db0)) = Ok v /\
    JS.absent v = true.
Proof.
  split.
  - apply (getEmbedding_failures_absent Fixture.oops_world "  "
             (initial Fixture.db0)). reflexivity.
  - apply (getEmbedding_failures_absent
             {| gnews := fun _ => NetworkError;
                ml := fun _ => Response 500 JS.JNull;
                connect_ok := true |}
             "Title. Text" (initial Fixture.db0)).
    simpl. left. reflexivity.
Defined.

End IngestFacts.

(** ** What ingestion writes, the server reads *)

Module RoundTripFacts.
Import Spec.

Section WithRuntime.
Context {RT : JSRuntime}.

Lemma embeddingString_vector (v : list float) :
  Ingest.embeddingString (JS.JArr (map JS.JNum v)) =
  Ok ("[" ++ String.concat "," (map Number_toString v) ++ "]")%string.
Proof.
  unfold Ingest.embeddingString, JS.join_comma. simpl res_bind.
  cbn [JS.to_string]. rewrite map_map. reflexivity.
Qed.

(** A vector of floats whose texts the runtime reads back, written by
    ingestion and parsed by the server, gives the values the runtime
    reads from the texts. *)
Lemma round_trip_of_texts (R : float -> float -> Prop) (v : list float) :
  Forall (reads_back R) v ->
  exists text v',
    Ingest.embeddingString (JS.JArr (map JS.JNum v)) = Ok text /\
    Server.JSON_parse text = Ok v' /\
    Forall2 R v v'.
Proof.
  intros H. rewrite embeddingString_vector.
  exists ("[" ++ String.concat "," (map Number_toString v) ++ "]")%string.
  exists (map StringToNumber (map Number_toString v)).
  split; [reflexivity|]. split.
  - unfold Server.JSON_parse. rewrite JSONFacts.parse_vector_tokens; [reflexivity|].
    apply Forall_map. eapply Forall_impl; [|exact H].
    intros x [Hx _]. exact Hx.
  - rewrite map_map. induction H as [|x v [_ Hx] _ IH]; simpl; constructor; auto.
Qed.

End WithRuntime.

(** The runtime of the language reads every finite float back. *)
Lemma finite_reads_back (x : float) :
  is_finite x = true ->
  reads_back (RT := Ecma.runtime)
    (fun x y => y = if is_zero x then zero else x) x.
Proof. intros H. exact (EcmaFacts.number_reads_back x H). Qed.

(** The texts the runtime writes, on numbers with and without a
    fraction, with few and with many digits, small and large. *)
Example embedding_texts :
  Ingest.embeddingString (RT := Ecma.runtime)
    (JS.JArr (map JS.JNum
       [0.5; -2; 0x1.999999999999ap-4; 0x1.3333333333334p-2;
        1234.5; 1e21; 0x1p-1074; 0x1.fffffffffffffp+1023]%float)) =
  Ok "[0.5,-2,0.1,0.30000000000000004,1234.5,1e+21,5e-324,1.7976931348623157e+308]"%string.
Proof. vm_compute. reflexivity. Qed.

(** C8. With the runtime's own conversions ([Number::toString]: the
    fewest digits that read back; a literal's value: the nearest
    binary64 number), a vector of finite floats, written by ingestion as
    a bracketed comma-separated list and parsed from that text by the
    server's JSON.parse, comes back element by element: every number
    is reproduced exactly, but for the negative zero, which is written
    [0] and read as the positive zero; in either case the number read
    is equal, as a number, to the one written. *)
Theorem embedding_round_trip (v : list float) :
  Forall (fun x => is_finite x = true) v ->
  exists text v',
    Ingest.embeddingString (RT := Ecma.runtime) (JS.JArr (map JS.JNum v)) =
      Ok text /\
    text =
      ("[" ++ String.concat "," (map Ecma.Number_toString v) ++ "]")%string /\
    Server.JSON_parse (RT := Ecma.runtime) text = Ok v' /\
    v' = map (fun x => if is_zero x then zero else x) v /\
    Forall2 (fun x y => (x =? y)%float = true) v v'.
Proof.
  intros H. rewrite embeddingString_vector.
  exists ("[" ++ String.concat "," (map Ecma.Number_toString v) ++ "]")%string.
  exists (map (fun x => if is_zero x then zero else x) v).
  split; [reflexivity|]. split; [reflexivity|]. split; [|split; [reflexivity|]].
  - unfold Server.JSON_parse.
    rewrite (JSONFacts.parse_vector_tokens (RT := Ecma.runtime)).
    + rewrite map_map. f_equal. apply map_ext_in. intros x Hx.
      rewrite Forall_forall in H.
      exact (proj2 (EcmaFacts.number_reads_back x (H x Hx))).
    + apply Forall_map. eapply Forall_impl; [|exact H].
      intros x Hx. exact (proj1 (EcmaFacts.number_reads_back x Hx)).
  - induction H as [|x v Hx _ IH]; simpl; constructor; [|exact IH].
    apply EcmaFacts.finite_eqb. exact Hx.
Qed.

Lemma embedding_round_trip_witness :
  exists text v',
    Ingest.embeddingString (RT := Ecma.runtime)
      (JS.JArr (map JS.JNum
         [0.5; -2; 0x1.999999999999ap-4; 1e21; (-0)]%float)) = Ok text /\
    text =
      ("[" ++ String.concat ","
         (map Ecma.Number_toString
            [0.5; -2; 0x1.999999999999ap-4; 1e21; (-0)]%float) ++ "]")%string /\
    Server.JSON_parse (RT := Ecma.runtime) text = Ok v' /\
    v' = map (fun x => if is_zero x then zero else x)
           [0.5; -2; 0x1.999999999999ap-4; 1e21; (-0)]%float /\
    Forall2 (fun x y => (x =? y)%float = true)
      [0.5; -2; 0x1.999999999999ap-4; 1e21; (-0)]%float v'.
Proof.
  apply (embedding_round_trip
           [0.5; -2; 0x1.999999999999ap-4; 1e21; (-0)]%float).
  repeat constructor.
Defined.

End RoundTripFacts.

(** ** More on the server's helpers *)

Module ShuffleFacts.
Import JSArray Server.

Lemma set_app {A} (l suf : list A) : forall i x,
  i < length l -> set i x (l ++ suf) = set i x l ++ suf.
Proof.
  induction l as [|h t IH]; intros [|i] x Hi; simpl in *; try lia; auto.
  rewrite IH by lia. reflexivity.
Qed.

Lemma swap_length {A} i j (l : list A) : length (swap i j l) = length l.
Proof. apply Permutation_length, ServerFacts.swap_perm. Qed.

Lemma swap_app {A} i j (l suf : list A) :
  i < length l -> j < length l -> swap i j (l ++ suf) = swap i j l ++ suf.
Proof.
  intros Hi Hj. unfold swap.
  rewrite !nth_error_app1 by assumption.
  destruct (nth_error l i) as [ai|]; [|reflexivity].
  destruct (nth_error l j) as [aj|]; [|reflexivity].
  rewrite set_app by assumption.
  rewrite set_app by (rewrite JSArrayFacts.length_set; assumption).
  reflexivity.
Qed.

(** The loop from index [i] leaves what lies behind index [i] alone. *)
Lemma shuffle_from_app {A} i : forall rnd (l suf : list A),
  i < length l ->
  shuffle_from i rnd (l ++ suf) = shuffle_from i rnd l ++ suf.
Proof.
  induction i as [|i IH]; intros rnd l suf Hi; simpl; [reflexivity|].
  assert (Hj : hd 0 rnd mod (S i + 1) < length l).
  { assert (hd 0 rnd mod (S i + 1) < S i + 1)
      by (apply Nat.mod_upper_bound; lia). lia. }
  rewrite swap_app by assumption.
  apply IH. rewrite swap_length. lia.
Qed.

Lemma last_position {A} (l : list A) : forall k x,
  nth_error l k = Some x -> length l = S k ->
  exists p, l = p ++ [x] /\ length p = k.
Proof.
  induction l as [|h t IH]; intros [|k] x H Hl; simpl in *; try discriminate.
  - inversion H; subst. destruct t; [|discriminate]. exists []. auto.
  - destruct (IH k x H) as (p & -> & Hp); [lia|].
    exists (h :: p). simpl. auto.
Qed.

Lemma swap_brings_last {A} (l : list A) k j x :
  length l = S k -> nth_error l j = Some x ->
  nth_error (swap k j l) k = Some x.
Proof.
  intros Hl Hj. unfold swap.
  assert (Hjl : j < length l) by (apply nth_error_Some; congruence).
  destruct (nth_error l k) as [ak|] eqn:Ek.
  2:{ apply nth_error_None in Ek. lia. }
  rewrite Hj.
  rewrite ServerFacts.nth_error_set
    by (rewrite JSArrayFacts.length_set; exact Hjl).
  destruct (j =? k) eqn:E.
  - apply Nat.eqb_eq in E. subst j. congruence.
  - rewrite ServerFacts.nth_error_set by lia.
    rewrite Nat.eqb_refl. reflexivity.
Qed.

(** Every arrangement of the first [n + 1] elements comes out of the
    loop for some draws. *)
Lemma shuffle_from_reaches {A} n : forall (l target : list A),
  length l = S n -> Permutation l target ->
  exists rnd, shuffle_from n rnd l = target.
Proof.
  induction n as [|n IH]; intros l target Hl Hp.
  - exists []. simpl.
    destruct l as [|a [|b l]]; try discriminate.
    apply Permutation_length_1_inv in Hp. congruence.
  - assert (Ht : length target = S (S n))
      by (rewrite <- (Permutation_length Hp); exact Hl).
    destruct (@exists_last _ target) as (t' & x & ->).
    { intros ->. discriminate. }
    assert (Hx : In x l).
    { apply (Permutation_in _ (Permutation_sym Hp)).
      apply in_or_app. right. left. reflexivity. }
    destruct (In_nth_error _ _ Hx) as (j & Hj).
    assert (Hjl : j < length l) by (apply nth_error_Some; congruence).
    destruct (last_position (swap (S n) j l) (S n) x) as (p & Hswap & Hlen).
    { apply swap_brings_last; assumption. }
    { rewrite swap_length. exact Hl. }
    destruct (IH p t') as (rnd & Hrnd); [exact Hlen|..].
    { apply Permutation_app_inv_r with (l := [x]).
      rewrite <- Hswap, ServerFacts.swap_perm. exact Hp. }
    exists (j :: rnd). cbn [shuffle_from hd tl].
    rewrite (Nat.mod_small j (S n + 1)) by lia.
    rewrite Hswap, shuffle_from_app by lia.
    rewrite Hrnd. reflexivity.
Qed.

(** X1. Whatever the draws, shuffleArray returns a rearrangement of its
    argument; and every rearrangement is returned for some draws. *)
Theorem shuffleArray_arrangements {A} (array : list A) :
  (forall rnd, Permutation (shuffleArray rnd array) array) /\
  (forall target, Permutation array target ->
     exists rnd, shuffleArray rnd array = target).
Proof.
  split.
  - intros rnd. apply ServerFacts.shuffle_from_perm.
  - intros target Hp. unfold shuffleArray.
    destruct array as [|a array].
    + apply Permutation_nil in Hp. subst. exists []. reflexivity.
    + apply shuffle_from_reaches; [simpl; lia|exact Hp].
Qed.

End ShuffleFacts.

(** ** More on the feed *)

Module FeedMoreFacts.
Import JSArray Store Server Spec Terms.

Lemma filter_perm {A} (f : A -> bool) (l l' : list A) :
  Permutation l l' -> Permutation (filter f l) (filter f l').
Proof.
  induction 1 as [|x l l' _ IH|x y l|l l' l'' _ IH1 _ IH2]; simpl.
  - constructor.
  - destruct (f x); [constructor|]; exact IH.
  - destruct (f x), (f y); try reflexivity. apply perm_swap.
  - exact (Permutation_trans IH1 IH2).
Qed.

Lemma filter_none {A} (f : A -> bool) (l : list A) :
  (forall a, In a l -> f a = false) -> filter f l = [].
Proof.
  induction l as [|a l IH]; simpl; intros H; [reflexivity|].
  rewrite (H a) by (left; reflexivity). apply IH.
  intros b Hb. apply H. right. exact Hb.
Qed.

Lemma filter_all {A} (keep : A -> bool) (rows : list A) :
  (forall row, In row rows -> keep row = true) -> filter keep rows = rows.
Proof.
  intros H. induction rows as [|row rows IH]; [reflexivity|].
  cbn [filter]. rewrite (H row (or_introl eq_refl)). f_equal.
  apply IH. intros other Hin. exact (H other (or_intror Hin)).
Qed.

Section WithDatastore.
Context {RT : JSRuntime} {DS : Datastore}.

Lemma res_map_parse_thrown texts :
  res_map JSON_parse texts = Thrown <->
  exists text, In text texts /\ JSON.parse_vector text = None.
Proof.
  induction texts as [|t texts IH]; simpl.
  - split; [discriminate|]. intros (text & [] & _).
  - unfold JSON_parse at 1.
    destruct (JSON.parse_vector t) as [v|] eqn:E; simpl.
    + destruct (res_map JSON_parse texts) as [vs|] eqn:Er; simpl.
      * split; [discriminate|].
        intros (text & [<- | Hin] & Hn); [congruence|].
        assert (H : @Thrown (list (list float)) = Thrown) by reflexivity.
        destruct IH as [_ IH]. discriminate IH. exists text. auto.
      * split; [|reflexivity]. intros _.
        destruct IH as [IH _]. destruct (IH eq_refl) as (text & Hin & Hn).
        exists text. auto.
    + split; [|reflexivity]. intros _. exists t. auto.
Qed.

Lemma averageVectors_thrown texts :
  averageVectors texts = Thrown <->
  exists text, In text texts /\ JSON.parse_vector text = None.
Proof.
  unfold averageVectors. destruct texts as [|t texts].
  - simpl. split; [discriminate|]. intros (text & [] & _).
  - simpl length. simpl Nat.eqb. cbv iota.
    rewrite <- res_map_parse_thrown.
    destruct (res_map JSON_parse (t :: texts)); simpl; split;
      congruence.
Qed.

(** X2. averageVectors of texts that all parse returns the text of a
    vector that has the length of the first vector; its i-th coordinate
    is the mean of the i-th coordinates of all the vectors, where a
    vector that has no i-th coordinate counts as NaN and coordinates
    beyond the length of the first vector are left out. *)
Theorem averageVectors_first_dimension (texts : list string)
    (vectors : list (list float)) :
  texts <> [] ->
  Forall2 (fun text v => JSON.parse_vector text = Some v) texts vectors ->
  exists averageVector,
    averageVectors texts = Ok (Some (JSON.stringify_vector averageVector)) /\
    length averageVector = length (hd [] vectors) /\
    forall i, i < length averageVector ->
      get averageVector i = mean (map (fun v => get v i) vectors).
Proof.
  intros Hne Hparse. unfold averageVectors.
  destruct texts as [|t texts]; [congruence|].
  simpl length. simpl Nat.eqb. cbv iota.
  rewrite (ServerFacts.res_map_parse _ _ Hparse). simpl res_bind.
  replace (nth 0 vectors []) with (hd [] vectors) by (destruct vectors; reflexivity).
  set (L := length (hd [] vectors)).
  destruct (ServerFacts.accumulate_spec L vectors (repeat zero L)) as [Hl Hg].
  { apply repeat_length. }
  eexists. split; [reflexivity|].
  assert (Hlen : length
            (for_each_index L
               (fun _ a => (a / JS.number_of_nat (length vectors))%float)
               (fold_left
                  (fun averageVector vector =>
                     for_each_index L (fun i a => (a + get vector i)%float)
                       averageVector)
                  vectors (repeat zero L))) = L).
  { rewrite JSArrayFacts.for_each_index_length; lia. }
  split; [exact Hlen|].
  intros i Hi. rewrite Hlen in Hi.
  rewrite JSArrayFacts.for_each_index_get by lia.
  rewrite (Hg i Hi), ServerFacts.get_repeat_zero by exact Hi.
  unfold mean. rewrite length_map. reflexivity.
Qed.

(** X4. The placeholder 0 that stands for an empty list of smart ids
    never takes an article out of the dumb rows: the dumb query returns
    the first three of a random order of the never-swiped articles whose
    id is not the id of a smart row.  The placeholder is used only when
    the user has swiped every article, and then there is no dumb row
    either. *)
Theorem dumbQuery_placeholder_harmless (db : DB) (keys : nat -> nat)
    (userId : Z) (tasteVector : option string) :
  let smartArticleIds := map row_id (smartQuery db userId tasteVector) in
  dumbQuery db keys userId smartArticleIds =
  map DumbRow
    (firstn DUMB_FEED_SIZE
       (OrderBy.random keys
          (filter (fun a => negb (existsb (Z.eqb (id a)) smartArticleIds))
             (never_swiped db userId)))) /\
  (idPlaceholders smartArticleIds <> smartArticleIds ->
   never_swiped db userId = [] /\
   dumbQuery db keys userId smartArticleIds = []).
Proof.
  cbv zeta. split; [apply ServerFacts.dumbQuery_smart_ids|].
  intros Hp.
  assert (Hl := ServerFacts.smartQuery_length db userId tasteVector).
  assert (Hn : never_swiped db userId = []).
  { unfold idPlaceholders in Hp. rewrite length_map in Hp.
    destruct (smartQuery db userId tasteVector) as [|r rows];
      [|exfalso; apply Hp; reflexivity].
    simpl in Hl. unfold SMART_FEED_SIZE in Hl.
    destruct (never_swiped db userId); [reflexivity|simpl in Hl; lia]. }
  split; [exact Hn|].
  unfold dumbQuery. rewrite Hn. simpl filter.
  assert (Hr : OrderBy.random keys (@nil Article) = []).
  { apply Permutation_nil. apply OrderByFacts.random_perm. }
  rewrite Hr. reflexivity.
Qed.

Lemma remaining_after_smart (ranked : list Article) n :
  NoDup (map id ranked) ->
  length
    (filter (fun a => negb (existsb (Z.eqb (id a)) (map id (firstn n ranked))))
       ranked) = length ranked - n.
Proof.
  intros Hnd.
  rewrite <- (firstn_skipn n ranked) at 1.
  rewrite <- (firstn_skipn n ranked) in Hnd.
  rewrite map_app in Hnd.
  rewrite filter_app, length_app, filter_none, filter_all.
  - simpl. apply length_skipn.
  - intros a Ha. apply negb_true_iff.
    destruct (existsb _ _) eqn:E; [|reflexivity].
    apply existsb_exists in E as (i & Hi & Heq). apply Z.eqb_eq in Heq.
    exfalso. rewrite <- Heq in Hi.
    assert (H := NoDup_app_remove_l _ _ Hnd).
    clear - Hnd Hi Ha.
    induction (map id (firstn n ranked)) as [|x l IH]; [destruct Hi|].
    simpl in Hnd. inversion Hnd as [|? ? Hx Hrest]; subst.
    destruct Hi as [->|Hi]; [|exact (IH Hrest Hi)].
    apply Hx. apply in_or_app. right. apply in_map. exact Ha.
  - intros a Ha. apply negb_false_iff. apply existsb_exists.
    exists (id a). split; [apply in_map; exact Ha|apply Z.eqb_refl].
Qed.

(** X5. In the blended feed nothing is left out and nothing is padded:
    for a user with a like, the feed has exactly min(10, number of
    never-swiped articles) rows.  Article ids are unique in the table. *)
Theorem feed_blend_size (db : DB) (keys : nat -> nat) (rnd : list nat)
    (userId : Z) (finalFeed : list FeedRow) (steps : list Step) :
  NoDup (map id (articles db)) ->
  has_liked_article db userId ->
  feed db keys rnd userId = (Feed200 finalFeed, steps) ->
  length finalFeed = Nat.min 10 (length (never_swiped db userId)).
Proof.
  intros Hids Hliked Hfeed.
  assert (Hnd := ServerFacts.never_swiped_NoDup db userId Hids).
  unfold feed in Hfeed.
  destruct (tasteQuery db userId TASTE_PROFILE_SIZE) as [|t texts] eqn:E.
  { exfalso. exact (ServerFacts.tasteQuery_nonempty _ _ Hliked E). }
  simpl length in Hfeed. simpl Nat.ltb in Hfeed. cbv iota in Hfeed.
  destruct (averageVectors (t :: texts)) as [tasteVector|]; [|discriminate].
  cbv zeta in Hfeed. inversion Hfeed as [[Hf Hs]]. clear Hfeed Hs.
  rewrite (Permutation_length (ServerFacts.shuffleArray_perm rnd _)).
  rewrite length_app, ServerFacts.dumbQuery_smart_ids.
  rewrite ServerFacts.smartQuery_length, length_map, length_firstn.
  rewrite <- (Permutation_length (OrderByFacts.random_perm keys _)).
  destruct (ServerFacts.smartQuery_rows db userId tasteVector)
    as (ranked & Hranked & Hsmart).
  rewrite (Permutation_length (filter_perm _ _ _ Hranked)).
  rewrite ServerFacts.map_row_id, Hsmart.
  rewrite remaining_after_smart
    by exact (Permutation_NoDup (Permutation_map id Hranked) Hnd).
  rewrite <- (Permutation_length Hranked).
  unfold SMART_FEED_SIZE, DUMB_FEED_SIZE. lia.
Qed.

Lemma feed_rows_never_swiped db keys rnd userId finalFeed steps :
  feed db keys rnd userId = (Feed200 finalFeed, steps) ->
  forall r, In r finalFeed -> In (row_article r) (never_swiped db userId).
Proof.
  unfold feed. intros Hfeed r Hr.
  destruct (0 <? length (tasteQuery db userId TASTE_PROFILE_SIZE)).
  - destruct (averageVectors _) as [tasteVector|]; [|discriminate].
    cbv zeta in Hfeed. inversion Hfeed as [[Hf Hs]]. subst finalFeed.
    apply (Permutation_in _ (ServerFacts.shuffleArray_perm rnd _)) in Hr.
    apply in_app_or in Hr as [Hr|Hr].
    + destruct (ServerFacts.smartQuery_rows db userId tasteVector)
        as (ranked & Hranked & Hsmart).
      apply (Permutation_in _ (Permutation_sym Hranked)).
      apply (ServerFacts.In_firstn SMART_FEED_SIZE). rewrite <- Hsmart.
      apply in_map. exact Hr.
    + destruct (ServerFacts.dumbQuery_rows db keys userId
                  (map row_id (smartQuery db userId tasteVector)))
        as (order & Horder & Hdumb).
      assert (Hin : In (row_article r) order).
      { apply (ServerFacts.In_firstn DUMB_FEED_SIZE). rewrite <- Hdumb.
        apply in_map. exact Hr. }
      apply (Permutation_in _ (Permutation_sym Horder)) in Hin.
      apply filter_In in Hin. apply Hin.
  - inversion Hfeed as [[Hf Hs]]. subst finalFeed.
    destruct (ServerFacts.coldQuery_rows db keys userId)
      as (order & Horder & Hcold).
    apply (Permutation_in _ (Permutation_sym Horder)).
    apply (ServerFacts.In_firstn 10). rewrite <- Hcold.
    apply in_map. exact Hr.
Qed.

End WithDatastore.

Lemma averageVectors_first_dimension_witness :
  exists averageVector,
    averageVectors (RT := Fixture.decimal_runtime) ["[1,3]"; "[3]"]%string =
      Ok (Some (JSON.stringify_vector (RT := Fixture.decimal_runtime)
                  averageVector)) /\
    length averageVector = 2.
Proof.
  destruct (averageVectors_first_dimension (RT := Fixture.decimal_runtime)
              ["[1,3]"; "[3]"]%string [[1; 3]; [3]]%float)
    as (averageVector & H & Hl & _).
  - discriminate.
  - repeat constructor.
  - exists averageVector. split; assumption.
Defined.

Lemma feed_blend_size_witness :
  exists finalFeed steps,
    feed (RT := Fixture.decimal_runtime) (DS := Fixture.toy_store)
      Fixture.db0 (fun k => k) [1; 2; 3] 1 = (Feed200 finalFeed, steps) /\
    length finalFeed = 2.
Proof.
  eexists. eexists. split; [reflexivity|].
  eapply (feed_blend_size (RT := Fixture.decimal_runtime)
            (DS := Fixture.toy_store) Fixture.db0 (fun k => k) [1; 2; 3] 1).
  - simpl. repeat constructor; simpl; intuition discriminate.
  - exists (Fixture.article 1 "u1" "[1,3]"),
      (Fixture.swipe_row 1 1 (Some true) 10).
    simpl. repeat split; auto.
  - reflexivity.
Defined.

End FeedMoreFacts.

(** ** Reset, statistics and liked articles *)

Module SwipeLayerFacts.
Import Store Server SwipeLayer Spec Terms.

Lemma count_occ_filter (names : list string) (name : string) :
  count_occ string_dec names name =
  length (filter (fun n => String.eqb n name) names).
Proof.
  induction names as [|n names IH]; simpl; [reflexivity|].
  destruct (string_dec n name) as [->|Hne].
  - rewrite String.eqb_refl. simpl. rewrite IH. reflexivity.
  - apply String.eqb_neq in Hne. rewrite Hne. exact IH.
Qed.

Lemma likes_count db userId name :
  likes db userId name =
  count_occ string_dec
    (map (fun r => source_name (fst r)) (liked_join db userId)) name.
Proof.
  unfold likes. rewrite count_occ_filter.
  induction (liked_join db userId) as [|r l IH]; simpl; [reflexivity|].
  destruct (String.eqb (source_name (fst r)) name); simpl; rewrite IH;
    reflexivity.
Qed.

Lemma group_count_names names : map fst (group_count names) = nodup string_dec names.
Proof. unfold group_count. rewrite map_map. simpl. apply map_id. Qed.

Lemma group_count_In names n c :
  In (n, c) (group_count names) <->
  In n names /\ c = count_occ string_dec names n.
Proof.
  unfold group_count. rewrite in_map_iff. split.
  - intros (m & Heq & Hin). inversion Heq; subst.
    apply nodup_In in Hin. auto.
  - intros (Hin & ->). exists n. split; [reflexivity|].
    apply nodup_In. exact Hin.
Qed.

Lemma no_like_no_join db userId :
  has_no_like db userId -> liked_join db userId = [].
Proof.
  intros H.
  destruct (liked_join db userId) as [|[a us] l] eqn:E; auto.
  assert (Hin : In (a, us) (liked_join db userId)) by (rewrite E; left; auto).
  apply ServerFacts.liked_join_In in Hin as (_ & Hus & _ & Hu & Hl).
  destruct (H us Hus Hu Hl).
Qed.

Lemma delete_swipes_none db userId us :
  In us (user_swipes (delete_swipes db userId)) -> user_id us <> userId.
Proof.
  simpl. intros H. apply filter_In in H as [_ H].
  apply negb_true_iff, Z.eqb_neq in H. exact H.
Qed.

Section WithDatastore.
Context {RT : JSRuntime} {DS : Datastore}.

(** X7. After a reset the user has no swipe left while the swipes of
    every other user and the articles are as before; the user's next
    feed is the cold one, with min(10, number of articles) rows, and the
    user's statistics are zero swipes and no topic. *)
Theorem reset_restarts (db : DB) (userId : Z) (keys : nat -> nat)
    (rnd : list nat) :
  let db' := snd (reset db userId) in
  swipes_of db' userId = [] /\
  (forall other, other <> userId -> swipes_of db' other = swipes_of db other) /\
  articles db' = articles db /\
  (exists finalFeed,
     feed db' keys rnd userId = (Feed200 finalFeed, [RunTasteQuery; RunColdQuery]) /\
     length finalFeed = Nat.min 10 (length (articles db))) /\
  stats db' userId = Stats200 {| totalSwipes := 0; topTopics := [] |}.
Proof.
  cbv zeta. simpl snd.
  assert (Hnone : swipes_of (delete_swipes db userId) userId = []).
  { unfold swipes_of. apply FeedMoreFacts.filter_none.
    intros us Hus. apply delete_swipes_none in Hus.
    apply Z.eqb_neq. exact Hus. }
  assert (Hno : has_no_like (delete_swipes db userId) userId).
  { intros us Hus Hu. apply delete_swipes_none in Hus. contradiction. }
  split; [exact Hnone|]. split; [|split; [reflexivity|split]].
  - intros other Hother. unfold swipes_of. simpl.
    induction (user_swipes db) as [|us l IH]; simpl; [reflexivity|].
    destruct (user_id us =? userId)%Z eqn:E1; simpl.
    + apply Z.eqb_eq in E1.
      destruct (user_id us =? other)%Z eqn:E2; [|exact IH].
      apply Z.eqb_eq in E2. congruence.
    + destruct (user_id us =? other)%Z; rewrite IH; reflexivity.
  - exists (coldQuery (delete_swipes db userId) keys userId). split.
    + unfold feed. rewrite (ServerFacts.tasteQuery_empty _ _ Hno). reflexivity.
    + unfold coldQuery.
      rewrite length_map, length_firstn.
      rewrite <- (Permutation_length (OrderByFacts.random_perm keys _)).
      unfold never_swiped. rewrite FeedMoreFacts.filter_all; [reflexivity|].
      intros a _. apply negb_true_iff.
      destruct (swiped_by (delete_swipes db userId) userId (id a)) eqn:E;
        [|reflexivity].
      apply ServerFacts.swiped_by_spec in E as (us & Hus & Hu & _).
      apply delete_swipes_none in Hus. contradiction.
  - unfold stats, totalSwipesQuery, topTopicsQuery.
    fold (swipes_of (delete_swipes db userId) userId). rewrite Hnone.
    rewrite (no_like_no_join _ _ Hno). reflexivity.
Qed.

(** X8. The topics of the statistics are at most three distinct source
    names, each with at least one liked article; and no source that is
    left out has more likes than one that is listed. *)
Theorem stats_top_topics (db : DB) (userId : Z) (body : Stats) :
  stats db userId = Stats200 body ->
  length (topTopics body) <= 3 /\
  NoDup (topTopics body) /\
  (forall name, In name (topTopics body) -> 1 <= likes db userId name) /\
  (forall name other,
     In name (topTopics body) -> ~ In other (topTopics body) ->
     likes db userId other <= likes db userId name).
Proof.
  unfold stats. intros H. inversion H; subst. clear H. simpl.
  unfold topTopicsQuery.
  set (names := map (fun r => source_name (fst r)) (liked_join db userId)).
  set (leb := fun x y : string * nat => snd y <=? snd x).
  set (sorted := OrderBy.sort leb (group_count names)).
  assert (Hperm : Permutation (group_count names) sorted)
    by apply OrderByFacts.sort_perm.
  assert (Hsorted : StronglySorted (fun a b => leb a b = true) sorted).
  { apply OrderByFacts.sort_sorted; unfold leb.
    - intros a b. rewrite !Nat.leb_le. lia.
    - intros a b c. rewrite !Nat.leb_le. lia. }
  assert (Hnd : NoDup (map fst sorted)).
  { apply (Permutation_NoDup (Permutation_map fst Hperm)).
    rewrite group_count_names. apply NoDup_nodup. }
  assert (Hin : forall n c, In (n, c) sorted ->
                  In n names /\ c = likes db userId n).
  { intros n c Hnc. apply (Permutation_in _ (Permutation_sym Hperm)) in Hnc.
    apply group_count_In in Hnc as [H1 H2]. split; [exact H1|].
    rewrite likes_count. exact H2. }
  repeat split.
  - rewrite length_map. apply firstn_le_length.
  - rewrite <- firstn_map. apply ServerFacts.NoDup_firstn. exact Hnd.
  - intros name Hname. apply in_map_iff in Hname as ([n c] & <- & Hnc).
    apply ServerFacts.In_firstn in Hnc. destruct (Hin _ _ Hnc) as [H1 _].
    simpl. rewrite likes_count. apply count_occ_In. exact H1.
  - intros name other Hname Hother.
    destruct (Nat.eq_dec (likes db userId other) 0) as [->|Hpos]; [lia|].
    assert (Ho : In other names).
    { apply (count_occ_In string_dec). unfold names.
      rewrite <- likes_count. lia. }
    assert (Hg : In (other, likes db userId other) sorted).
    { apply (Permutation_in _ Hperm). apply group_count_In.
      split; [exact Ho|apply likes_count]. }
    rewrite <- (firstn_skipn 3 sorted) in Hg.
    apply in_app_or in Hg as [Hg|Hg].
    { exfalso. apply Hother. apply in_map_iff.
      exists (other, likes db userId other). auto. }
    apply in_map_iff in Hname as ([n c] & <- & Hnc).
    assert (Hle := OrderByFacts.strongly_sorted_split _ _ 3 Hsorted _ _ Hnc Hg).
    unfold leb in Hle. simpl in Hle. apply Nat.leb_le in Hle.
    apply ServerFacts.In_firstn in Hnc. destruct (Hin _ _ Hnc) as [_ ->].
    exact Hle.
Qed.

(** X9. Every stored swipe, also one on an article the user has swiped
    before, raises the user's total of swipes by one and leaves the total
    of every other user as it was. *)
Theorem swipe_counts_once (db db' : DB) (userId : Z)
    (articleId liked : JS.Value) (row : Swipe) :
  swipe db userId articleId liked = (Swipe201 row, db') ->
  totalSwipesQuery db' userId = S (totalSwipesQuery db userId) /\
  forall other, other <> userId ->
    totalSwipesQuery db' other = totalSwipesQuery db other.
Proof.
  intros Hswipe. unfold swipe in Hswipe.
  destruct (JS.falsy articleId || is_undefined liked); [discriminate|].
  unfold insert_swipe in Hswipe.
  destruct (to_integer articleId) as [aid|]; [|discriminate].
  destruct (to_boolean liked) as [l|]; [|discriminate].
  inversion Hswipe; subst. clear Hswipe.
  unfold totalSwipesQuery. simpl. split.
  - rewrite filter_app, length_app. simpl. rewrite Z.eqb_refl. simpl. lia.
  - intros other Hother. rewrite filter_app, length_app. simpl.
    replace (userId =? other)%Z with false
      by (symmetry; apply Z.eqb_neq; congruence).
    simpl. lia.
Qed.

(** X10. When a like of an article of the corpus is stored, that article
    is the first row of the user's liked articles and its embedding is
    the first one of the user's taste query.  Every earlier swipe was
    recorded before the datastore's present time. *)
Theorem latest_like_leads (db db' : DB) (userId : Z)
    (articleId liked : JS.Value) (row : Swipe) :
  times_before_clock db ->
  swipe db userId articleId liked = (Swipe201 row, db') ->
  Store.liked row = Some true ->
  (exists a, In a (articles db) /\ id a = article_id row) ->
  exists a rows embeddings,
    In a (articles db) /\ id a = article_id row /\
    likedArticles db' userId = Liked200 (liked_columns a :: rows) /\
    tasteQuery db' userId TASTE_PROFILE_SIZE = embedding a :: embeddings.
Proof.
  intros Htimes Hswipe Hliked (a0 & Ha0 & Hid0).
  unfold swipe in Hswipe.
  destruct (JS.falsy articleId || is_undefined liked); [discriminate|].
  unfold insert_swipe in Hswipe.
  destruct (to_integer articleId) as [aid|]; [|discriminate].
  destruct (to_boolean liked) as [l|]; [|discriminate].
  inversion Hswipe; subst. clear Hswipe. simpl in Hliked, Hid0. subst l.
  set (row := {| user_id := userId; article_id := aid; liked := Some true;
                 swipe_time := clock db |}).
  set (db' := {| articles := articles db;
                 user_swipes := user_swipes db ++ [row];
                 next_article_id := next_article_id db;
                 clock := S (clock db) |}).
  set (leb := fun x y : Article * Swipe =>
                swipe_time (snd y) <=? swipe_time (snd x)).
  set (sorted := OrderBy.sort leb (liked_join db' userId)).
  assert (Hperm : Permutation (liked_join db' userId) sorted)
    by apply OrderByFacts.sort_perm.
  assert (Hsorted : StronglySorted (fun x y => leb x y = true) sorted).
  { apply OrderByFacts.sort_sorted; unfold leb.
    - intros x y. rewrite !Nat.leb_le. lia.
    - intros x y z. rewrite !Nat.leb_le. lia. }
  assert (Hnew : In (a0, row) sorted).
  { apply (Permutation_in _ Hperm). apply ServerFacts.liked_join_In.
    simpl. repeat split; auto.
    apply in_or_app. right. left. reflexivity. }
  destruct sorted as [|[a us] rest] eqn:Es; [destruct Hnew|].
  assert (Hhead : In (a, us) (liked_join db' userId)).
  { apply (Permutation_in _ (Permutation_sym Hperm)). left. reflexivity. }
  apply ServerFacts.liked_join_In in Hhead as (Ha & Hus & Hid & _ & _).
  assert (Hus_row : us = row).
  { simpl in Hus. apply in_app_or in Hus as [Hold|[<-|[]]]; [|reflexivity].
    exfalso.
    assert (Hlt : swipe_time us < clock db).
    { unfold times_before_clock in Htimes. rewrite Forall_forall in Htimes.
      exact (Htimes us Hold). }
    destruct Hnew as [Heq|Hrest].
    - inversion Heq; subst. simpl in Hlt. lia.
    - inversion Hsorted as [|? ? _ Hall]; subst.
      rewrite Forall_forall in Hall. specialize (Hall _ Hrest).
      unfold leb in Hall. simpl in Hall. apply Nat.leb_le in Hall. lia. }
  subst us.
  exists a, (map (fun r => liked_columns (fst r)) rest).
  exists (map (fun r => embedding (fst r)) (firstn 2 rest)).
  split; [exact Ha|]. split; [exact Hid|]. split.
  - unfold likedArticles. fold leb. fold sorted. rewrite Es. reflexivity.
  - unfold tasteQuery. fold leb. fold sorted. rewrite Es. reflexivity.
Qed.

End WithDatastore.

Lemma stats_top_topics_witness :
  exists body,
    stats Fixture.db0 1 = Stats200 body /\ length (topTopics body) <= 3.
Proof.
  eexists. split; [reflexivity|].
  eapply (stats_top_topics Fixture.db0 1). reflexivity.
Defined.

Lemma swipe_counts_once_witness :
  exists db',
    swipe (DS := Fixture.toy_store) Fixture.db0 1 (JS.JNum 1) (JS.JBool true) =
      (Swipe201 (Fixture.swipe_row 1 1 (Some true) 30), db') /\
    totalSwipesQuery db' 1 = 3.
Proof.
  eexists. split; [reflexivity|].
  eapply (swipe_counts_once (DS := Fixture.toy_store) Fixture.db0 _ 1
            (JS.JNum 1) (JS.JBool true)). reflexivity.
Defined.

Lemma latest_like_leads_witness :
  exists a rows embeddings,
    In a (articles Fixture.db0) /\ id a = 3%Z /\
    likedArticles
      (snd (swipe (DS := Fixture.toy_store) Fixture.db0 1 (JS.JNum 3)
              (JS.JBool true))) 1 = Liked200 (liked_columns a :: rows) /\
    tasteQuery
      (snd (swipe (DS := Fixture.toy_store) Fixture.db0 1 (JS.JNum 3)
              (JS.JBool true))) 1 TASTE_PROFILE_SIZE = embedding a :: embeddings.
Proof.
  apply (latest_like_leads (DS := Fixture.toy_store) Fixture.db0
           (snd (swipe (DS := Fixture.toy_store) Fixture.db0 1 (JS.JNum 3)
                   (JS.JBool true)))
           1 (JS.JNum 3) (JS.JBool true)
           (Fixture.swipe_row 1 3 (Some true) 30)).
  - repeat constructor.
  - reflexivity.
  - reflexivity.
  - exists (Fixture.article 3 "u3" "[1,3]"). simpl. auto.
Defined.

End SwipeLayerFacts.

(** ** Registration, login and the middleware *)

Module AuthFacts.
Import Auth Terms.

Lemma append_empty (s : string) : (s ++ EmptyString)%string = s.
Proof. induction s as [|c s IH]; simpl; [reflexivity|]. rewrite IH. reflexivity. Qed.

Lemma split_space_nonempty s : split_space s <> [].
Proof.
  destruct s as [|c s]; simpl; [discriminate|].
  destruct (Ascii.eqb c " "); [discriminate|].
  destruct (split_space s); discriminate.
Qed.

(** The first piece of a text that starts with a token. *)
Lemma split_space_token token tail :
  no_space token = true -> ignored_tail tail = true ->
  hd EmptyString (split_space (token ++ tail)) = token.
Proof.
  intros Htoken Htail.
  induction token as [|c token IH]; cbn [append split_space].
  - destruct tail as [|c tail]; [reflexivity|].
    cbn [split_space]. unfold ignored_tail in Htail.
    rewrite Htail. reflexivity.
  - unfold no_space in Htoken. cbn [Text.all_chars] in Htoken.
    apply andb_prop in Htoken as [Hc Htoken].
    apply negb_true_iff in Hc. rewrite Hc.
    specialize (IH Htoken).
    destruct (split_space (token ++ tail)) as [|piece pieces] eqn:E.
    + destruct (split_space_nonempty _ E).
    + simpl in IH. subst piece. reflexivity.
Qed.

Lemma find_last {A} (f : A -> bool) (l : list A) (x : A) :
  existsb f l = false -> f x = true -> find f (l ++ [x]) = Some x.
Proof.
  induction l as [|a l IH]; simpl; intros Hl Hx.
  - rewrite Hx. reflexivity.
  - apply orb_false_iff in Hl as [Ha Hl]. rewrite Ha. exact (IH Hl Hx).
Qed.

Lemma email_taken t email :
  existsb (fun u => String.eqb (Auth.email u) email) (users t) = true <->
  In email (map Auth.email (users t)).
Proof.
  rewrite existsb_exists, in_map_iff. split.
  - intros (u & Hin & He). apply String.eqb_eq in He. exists u. auto.
  - intros (u & He & Hin). exists u. split; [exact Hin|].
    apply String.eqb_eq. exact He.
Qed.

Section WithLibraries.
Context {L : Libraries}.

Lemma authMiddleware_token token tail :
  no_space token = true -> ignored_tail tail = true ->
  authMiddleware (Some ("Bearer " ++ token ++ tail)%string) =
  match jwt_verify token with
  | Some user => Next user
  | None => Unauthorized "Unauthorized: Invalid token"
  end.
Proof.
  intros Htoken Htail. unfold authMiddleware.
  cbn [missing text_of Text.is_empty append String.prefix].
  change (split_space (String "B" (String "e" (String "a" (String "r"
            (String "e" (String "r" (String " " (token ++ tail)))))))))
    with ("Bearer"%string :: split_space (token ++ tail)).
  replace (String.prefix EmptyString (token ++ tail)) with true
    by (destruct (token ++ tail)%string; reflexivity).
  simpl orb. cbv iota.
  change (nth 1 ("Bearer"%string :: split_space (token ++ tail)) EmptyString)
    with (nth 0 (split_space (token ++ tail)) EmptyString).
  replace (nth 0 (split_space (token ++ tail)) EmptyString)
    with (hd EmptyString (split_space (token ++ tail)))
    by (destruct (split_space (token ++ tail)); reflexivity).
  rewrite (split_space_token _ _ Htoken Htail). reflexivity.
Qed.

(** X11. The middleware answers 401 (no token provided) when there is
    no authorization header or the header does not start with the word
    Bearer and a space.  Otherwise it hands to jwt.verify exactly the
    text between that space and the next one, whatever follows: it calls
    next with the user of the payload when the token is accepted, and
    answers 401 (invalid token) when jwt.verify throws. *)
Theorem authMiddleware_bearer :
  authMiddleware None = Unauthorized "Unauthorized: No token provided" /\
  (forall header,
     String.prefix "Bearer " header = false ->
     authMiddleware (Some header) =
     Unauthorized "Unauthorized: No token provided") /\
  (forall token tail,
     no_space token = true -> ignored_tail tail = true ->
     authMiddleware (Some ("Bearer " ++ token ++ tail)%string) =
     match jwt_verify token with
     | Some user => Next user
     | None => Unauthorized "Unauthorized: Invalid token"
     end).
Proof.
  split; [reflexivity|]. split.
  - intros header H. unfold authMiddleware. simpl text_of.
    rewrite H. simpl negb. rewrite orb_true_r. reflexivity.
  - exact authMiddleware_token.
Qed.

Lemma register_cases t salt (email password : JS.Value) :
  let r := register t salt email password in
  (JS.falsy email || JS.falsy password = true ->
   r = (Register400 "Email and password are required.", t)) /\
  (JS.falsy email || JS.falsy password = false ->
   (forall text, password <> JS.JStr text) \/ bind_text email = None ->
   r = (Register500, t)) /\
  (forall address text,
     JS.falsy email || JS.falsy password = false ->
     password = JS.JStr text ->
     bind_text email = Some address ->
     (In address (map Auth.email (users t)) ->
      r = (Register400 "Email already in use.", t)) /\
     (~ In address (map Auth.email (users t)) ->
      let row := {| id := next_user_id t; email := address;
                    password_hash := bcrypt_hash text salt |} in
      r = (Register201 (next_user_id t) address,
           {| users := users t ++ [row];
              next_user_id := (next_user_id t + 1)%Z |}))).
Proof.
  cbv zeta. unfold register.
  destruct (JS.falsy email || JS.falsy password).
  { split; [reflexivity|]. split; intros; discriminate. }
  split; [discriminate|]. split.
  - intros _ [Hp|He].
    + destruct password; try reflexivity. destruct (Hp s eq_refl).
    + rewrite He. destruct password; reflexivity.
  - intros address text _ -> ->. unfold insert_user.
    destruct (existsb _ (users t)) eqn:E.
    + apply email_taken in E. split; [reflexivity|]. contradiction.
    + split; [|reflexivity]. intros Hin. apply email_taken in Hin. congruence.
Qed.



(** X14. A user who has just registered can log in with the same
    password, and the token of that login, sent as a Bearer header, makes
    every /api route run its handler for the id the registration
    returned.  bcrypt accepts a password for its own hash, jwt.verify
    gives back the payload of the token that jwt.sign made, and the token
    has no space. *)
Theorem register_login_round_trip {A} (t t' : Users) (salt email password : string)
    (i : Z) (email' token : string) (handler : Z -> A) :
  register t salt (JS.JStr email) (JS.JStr password) =
    (Register201 i email', t') ->
  bcrypt_compare password (bcrypt_hash password salt) = true ->
  jwt_sign {| token_id := i; token_email := email |} = Some token ->
  jwt_verify token = Some (Some {| token_id := i; token_email := email |}) ->
  no_space token = true ->
  login t' (Some email) (Some password) = Login200 token /\
  under_api (Some ("Bearer " ++ token)%string) handler = Handled (handler i).
Proof.
  intros Hreg Hbcrypt Hsign Hverify Hspace.
  destruct (register_cases t salt (JS.JStr email) (JS.JStr password))
    as (H1 & _ & H3).
  cbv zeta in *.
  destruct (JS.falsy (JS.JStr email) || JS.falsy (JS.JStr password)) eqn:M.
  { rewrite H1 in Hreg by reflexivity. discriminate. }
  destruct (H3 email password eq_refl eq_refl eq_refl) as [H2 H4].
  destruct (in_dec string_dec email (map Auth.email (users t))) as [Hin|Hnot].
  { rewrite H2 in Hreg by auto. discriminate. }
  assert (M' : missing (Some email) || missing (Some password) = false).
  { unfold JS.falsy in M. simpl in M. unfold missing.
    destruct (Text.is_empty email), (Text.is_empty password);
      try discriminate; reflexivity. }
  rewrite H4 in Hreg by auto. inversion Hreg; subst. clear Hreg H1 H2 H3 H4.
  split.
  - unfold login. rewrite M'. simpl text_of. unfold find_user. simpl users.
    rewrite find_last.
    + simpl. rewrite Hbcrypt, Hsign. reflexivity.
    + destruct (existsb _ (users t)) eqn:E; [|reflexivity].
      apply email_taken in E. contradiction.
    + simpl. apply String.eqb_refl.
  - unfold under_api.
    rewrite <- (append_empty token) at 1.
    rewrite (authMiddleware_token token EmptyString Hspace eq_refl).
    rewrite Hverify. reflexivity.
Qed.

End WithLibraries.

Lemma register_login_round_trip_witness :
  login (L := Fixture2.toy_libraries)
    (snd (register (L := Fixture2.toy_libraries) Fixture2.no_users "s1"
            (JS.JStr "a@b.c") (JS.JStr "secret")))
    (Some "a@b.c") (Some "secret") = Login200 "token-a@b.c" /\
  under_api (L := Fixture2.toy_libraries) (Some "Bearer token-a@b.c")
    (fun userId => userId) = Handled 1%Z.
Proof.
  apply (register_login_round_trip (L := Fixture2.toy_libraries)
           Fixture2.no_users
           (snd (register (L := Fixture2.toy_libraries) Fixture2.no_users "s1"
                   (JS.JStr "a@b.c") (JS.JStr "secret")))
           "s1" "a@b.c" "secret" 1 "a@b.c" "token-a@b.c" (fun userId => userId));
    reflexivity.
Defined.

End AuthFacts.

(** ** The routes under /api *)

Module ApiFacts.
Import Store Auth Terms.

(** Every text is a token without a space followed by nothing or by a
    space and the rest. *)
Lemma first_piece (s : string) :
  exists token tail,
    s = (token ++ tail)%string /\
    no_space token = true /\ ignored_tail tail = true.
Proof.
  induction s as [|c s (token & tail & Hs & Ht & Hi)].
  - exists EmptyString, EmptyString. auto.
  - destruct (Ascii.eqb c " ") eqn:E.
    + exists EmptyString, (String c s). split; [reflexivity|].
      split; [reflexivity|exact E].
    + exists (String c token), tail. split; [simpl; rewrite Hs; reflexivity|].
      split; [|exact Hi].
      unfold no_space. cbn [Text.all_chars]. rewrite E. exact Ht.
Qed.

Lemma prefix_append (p s : string) :
  String.prefix p s = true -> exists rest, s = (p ++ rest)%string.
Proof.
  revert s. induction p as [|c p IH]; intros s H.
  - exists s. reflexivity.
  - destruct s as [|d s]; [discriminate|]. simpl in H.
    destruct (Ascii.ascii_dec c d) as [->|]; [|discriminate].
    destruct (IH s H) as [rest ->]. exists rest. reflexivity.
Qed.

Section WithLibraries.
Context {RT : JSRuntime} {DS : Datastore} {L : Libraries}.

(** A handler under /api runs only for a header made of the word
    Bearer, a space and a token that jwt.verify accepts, and then for the
    user of that token. *)
Lemma under_api_handled {A} authorization (handler : Z -> A) a :
  under_api authorization handler = Handled a ->
  exists token tail user,
    authorization = Some ("Bearer " ++ token ++ tail)%string /\
    no_space token = true /\ ignored_tail tail = true /\
    jwt_verify token = Some (Some user) /\
    a = handler (token_id user).
Proof.
  intros H.
  destruct authorization as [header|]; [|discriminate].
  destruct (String.prefix "Bearer " header) eqn:P.
  2:{ unfold under_api, authMiddleware in H. simpl text_of in H.
      rewrite P, orb_true_r in H. discriminate. }
  apply prefix_append in P as [rest ->].
  destruct (first_piece rest) as (token & tail & -> & Ht & Hi).
  unfold under_api in H.
  rewrite (AuthFacts.authMiddleware_token token tail Ht Hi) in H.
  destruct (jwt_verify token) as [[user|]|] eqn:V; try discriminate.
  inversion H; subst. exists token, tail, user. auto.
Qed.

(** X15. Behind the middleware a swipe is stored, and swipes are
    deleted, only when the authorization header is the word Bearer, a
    space and a token (the text up to the next space) that jwt.verify
    accepts, and then for the user of that very token: every other
    request to these routes leaves the datastore as it is. *)
Theorem api_changes_need_token (db : DB) (authorization : option string)
    (articleId liked : JS.Value) :
  (snd (Api.swipe db authorization articleId liked) = db \/
   exists token tail user row,
     authorization = Some ("Bearer " ++ token ++ tail)%string /\
     no_space token = true /\ ignored_tail tail = true /\
     jwt_verify token = Some (Some user) /\
     user_id row = token_id user /\
     user_swipes (snd (Api.swipe db authorization articleId liked)) =
       user_swipes db ++ [row] /\
     articles (snd (Api.swipe db authorization articleId liked)) = articles db) /\
  (snd (Api.reset db authorization) = db \/
   exists token tail user,
     authorization = Some ("Bearer " ++ token ++ tail)%string /\
     no_space token = true /\ ignored_tail tail = true /\
     jwt_verify token = Some (Some user) /\
     snd (Api.reset db authorization) =
       SwipeLayer.delete_swipes db (token_id user)).
Proof.
  split.
  - unfold Api.swipe.
    destruct (under_api authorization
                (fun userId => Server.swipe db userId articleId liked))
      as [error| |[response db']] eqn:E; [left; reflexivity..|].
    apply under_api_handled in E
      as (token & tail & user & -> & Ht & Hi & V & Hr).
    unfold Server.swipe in Hr.
    destruct (JS.falsy articleId || Server.is_undefined liked).
    { inversion Hr; subst. left. reflexivity. }
    unfold Server.insert_swipe in Hr.
    destruct (to_integer articleId) as [aid|];
      [|inversion Hr; subst; left; reflexivity].
    destruct (to_boolean liked) as [l|];
      [|inversion Hr; subst; left; reflexivity].
    inversion Hr; subst. right.
    exists token, tail, user,
      {| user_id := token_id user; article_id := aid; Store.liked := l;
         swipe_time := clock db |}.
    split; [reflexivity|]. split; [exact Ht|]. split; [exact Hi|].
    split; [exact V|]. split; [reflexivity|]. split; reflexivity.
  - unfold Api.reset.
    destruct (under_api authorization (SwipeLayer.reset db))
      as [error| |[response db']] eqn:E; [left; reflexivity..|].
    apply under_api_handled in E
      as (token & tail & user & -> & Ht & Hi & V & Hr).
    unfold SwipeLayer.reset in Hr. inversion Hr; subst.
    right. exists token, tail, user. auto.
Qed.

End WithLibraries.

End ApiFacts.

(** ** More on the ingestion script *)

Module IngestMoreFacts.
Import Ingest Spec Terms IngestFacts.

Section WithWorld.
Context {RT : JSRuntime} (w : World).

Section Loops.
Variable embed : string -> M JS.Value.
Variable skip : JS.Value -> bool.
Hypothesis Hembed : adapter_like embed.

(** One turn of the loop over the articles, with what the adapter
    answered. *)
Lemma process_articles_turn article :
  exists v texts,
    (forall st,
       embed (field_text (title article) ++ ". "
              ++ field_text (description article))%string st =
       (Ok v, with_embedded (embedded st ++ texts) st)) /\
    forall rest n st,
      let st1 := with_embedded (embedded st ++ texts) st in
      process_articles embed skip (article :: rest) n st =
      if missing (title article) || missing (image article)
         || missing (description article)
      then process_articles embed skip rest n st
      else if skip v then process_articles embed skip rest n st1
      else
        match embeddingString v, source article with
        | Ok text, Some name =>
            if has_url (db st) (url article)
            then process_articles embed skip rest n st1
            else
              process_articles embed skip rest (n + 1)
                (set_db
                   (add_row
                      (new_row (db st) (field_text (title article))
                         (field_text (description article)) (url article)
                         (field_text (image article)) name (publishedAt article)
                         text)
                      (db st))
                   st1)
        | _, _ => (Thrown, st1)
        end.
Proof.
  destruct (Hembed (field_text (title article) ++ ". "
                    ++ field_text (description article))%string)
    as (v & texts & He).
  exists v, texts. split; [exact He|]. intros rest n st st1.
  cbn [process_articles].
  destruct (missing (title article) || missing (image article)
            || missing (description article)); [reflexivity|].
  unfold bind at 1. rewrite He. fold st1.
  destruct (skip v); [reflexivity|].
  cbv beta iota zeta delta [bind lift insert_article].
  destruct (embeddingString v) as [text|]; [|reflexivity].
  destruct (source article) as [name|]; [|reflexivity].
  replace (db st1) with (db st) by reflexivity.
  destruct (has_url (db st) (url article)); reflexivity.
Qed.

Lemma has_url_false_before rows st st' u :
  inserted rows st st' -> has_url (db st') u = false -> has_url (db st) u = false.
Proof.
  intros Hi H. destruct (has_url (db st) u) eqn:E; [|reflexivity].
  rewrite (has_url_inserted _ _ _ _ Hi E) in H. discriminate.
Qed.

Lemma has_url_In d u : has_url d u = true <-> In u (map Store.article_url (Store.articles d)).
Proof.
  unfold has_url. rewrite existsb_exists, in_map_iff. split.
  - intros (a & Ha & He). apply String.eqb_eq in He. exists a. auto.
  - intros (a & He & Ha). exists a. split; [exact Ha|].
    apply String.eqb_eq. exact He.
Qed.

(** What the loop over the articles inserts: rows made of headlines of
    its list, with URLs that are new and distinct. *)
Lemma process_articles_rows : forall arts n st,
  exists rows,
    inserted rows st (snd (process_articles embed skip arts n st)) /\
    Forall (fun row => exists h, In h arts /\ row_of embed skip h row) rows /\
    NoDup (map Store.article_url rows) /\
    (forall row, In row rows -> has_url (db st) (Store.article_url row) = false).
Proof.
  induction arts as [|article rest IH]; intros n st.
  - exists []. simpl. repeat split; try constructor.
    + apply inserted_refl.
    + intros row [].
  - destruct (process_articles_turn article) as (v & texts & He & Hstep).
    rewrite Hstep. clear Hstep.
    set (st1 := with_embedded (embedded st ++ texts) st).
    assert (H1 : inserted [] st st1) by apply inserted_with_embedded.
    assert (Hsame : forall m, exists rows,
              inserted rows st (snd (process_articles embed skip rest m st1)) /\
              Forall (fun row => exists h,
                        In h (article :: rest) /\ row_of embed skip h row) rows /\
              NoDup (map Store.article_url rows) /\
              (forall row, In row rows ->
                 has_url (db st) (Store.article_url row) = false)).
    { intros m. destruct (IH m st1) as (rows & Hi & Hf & Hnd & Hnew).
      exists rows. split; [exact (inserted_trans _ _ _ _ _ H1 Hi)|].
      split; [|split; [exact Hnd|exact Hnew]].
      eapply Forall_impl; [|exact Hf].
      intros row (h & Hh & Hrow). exists h. split; [right; exact Hh|exact Hrow]. }
    destruct (missing (title article) || missing (image article)
              || missing (description article)) eqn:M.
    { destruct (IH n st) as (rows & Hi & Hf & Hnd & Hnew).
      exists rows. split; [exact Hi|]. split; [|split; [exact Hnd|exact Hnew]].
      eapply Forall_impl; [|exact Hf].
      intros row (h & Hh & Hrow). exists h. split; [right; exact Hh|exact Hrow]. }
    destruct (skip v) eqn:S; [apply Hsame|].
    destruct (embeddingString v) as [text|] eqn:T;
      [destruct (source article) as [name|] eqn:N|].
    + destruct (has_url (db st) (url article)) eqn:U; [apply Hsame|].
      match goal with |- context [set_db (add_row ?r _) _] => set (row := r) end.
      destruct (IH (n + 1) (set_db (add_row row (db st)) st1))
        as (rows & Hi & Hf & Hnd & Hnew).
      exists (row :: rows). split; [|split; [|split]].
      * exact (inserted_trans [row] rows _ _ _ (inserted_add_row row _ st) Hi).
      * constructor.
        -- exists article. split; [left; reflexivity|].
           apply orb_false_iff in M as [M M3].
           apply orb_false_iff in M as [M1 M2].
           unfold row_of. repeat split; auto.
           exists v. repeat split; auto.
           intros st0. rewrite He. reflexivity.
        -- eapply Forall_impl; [|exact Hf].
           intros r (h & Hh & Hrow). exists h.
           split; [right; exact Hh|exact Hrow].
      * simpl. constructor; [|exact Hnd].
        intros Hin. apply in_map_iff in Hin as (r & Hr & Hin).
        specialize (Hnew r Hin). simpl in Hnew. rewrite Hr in Hnew.
        change (url article) with (Store.article_url row) in Hnew.
        rewrite has_url_add_row in Hnew. discriminate.
      * intros r [<-|Hr]; [exact U|].
        specialize (Hnew r Hr). simpl in Hnew.
        destruct (has_url (db st) (Store.article_url r)) eqn:E; [|reflexivity].
        rewrite (has_url_app (db st) _ [row] (add_row row (db st)) eq_refl E)
          in Hnew.
        discriminate.
    + exists []. split; [exact H1|].
      split; [constructor|]. split; [constructor|]. intros r [].
    + exists []. split; [exact H1|].
      split; [constructor|]. split; [constructor|]. intros r [].
Qed.

(** The loop over [good ++ rest] goes on from where the loop over
    [good] ended. *)
Lemma process_articles_app : forall good rest n st m st2,
  process_articles embed skip good n st = (Ok m, st2) ->
  process_articles embed skip (good ++ rest) n st =
  process_articles embed skip rest m st2.
Proof.
  induction good as [|article good IH]; intros rest n st m st2 H.
  - simpl in H. inversion H; subst. reflexivity.
  - rewrite <- app_comm_cons.
    destruct (process_articles_turn article) as (v & texts & _ & Hstep).
    rewrite Hstep. rewrite Hstep in H. cbv zeta in *.
    destruct (missing (title article) || missing (image article)
              || missing (description article)); [exact (IH _ _ _ _ _ H)|].
    destruct (skip v); [exact (IH _ _ _ _ _ H)|].
    destruct (embeddingString v) as [text|]; [|discriminate].
    destruct (source article) as [name|]; [|discriminate].
    destruct (has_url (db st) (url article)); exact (IH _ _ _ _ _ H).
Qed.

(** An article whose embedding has no [join], or that has no [source],
    throws out of the loop. *)
Lemma process_articles_throws bad rest n st v :
  missing (title bad) || missing (image bad) || missing (description bad) = false ->
  (forall st0,
     fst (embed (field_text (title bad) ++ ". "
                 ++ field_text (description bad))%string st0) = Ok v) ->
  skip v = false ->
  embeddingString v = Thrown \/ source bad = None ->
  exists texts,
    process_articles embed skip (bad :: rest) n st =
    (Thrown, with_embedded (embedded st ++ texts) st).
Proof.
  intros M Hv S Hbad.
  destruct (process_articles_turn bad) as (v' & texts & He & Hstep).
  assert (v' = v).
  { specialize (Hv st). rewrite He in Hv. simpl in Hv. congruence. }
  subst v'. exists texts. rewrite Hstep, M, S. cbv zeta.
  destruct Hbad as [-> | ->]; [reflexivity|].
  destruct (embeddingString v); reflexivity.
Qed.

(** What the loop over the categories inserts. *)
Lemma process_categories_rows : forall cats st,
  incl cats CATEGORIES ->
  exists rows,
    let st' := snd (process_categories w embed skip cats st) in
    Store.articles (db st') = Store.articles (db st) ++ rows /\
    Store.user_swipes (db st') = Store.user_swipes (db st) /\
    Forall (fun row => exists h, fetched_headline w h /\ row_of embed skip h row)
      rows /\
    NoDup (map Store.article_url rows) /\
    (forall row, In row rows -> has_url (db st) (Store.article_url row) = false).
Proof.
  induction cats as [|category rest IH]; intros st Hincl.
  - exists []. simpl. rewrite app_nil_r. repeat split; try constructor.
    intros row [].
  - rewrite process_categories_step. cbv zeta.
    set (st1 := requested category st).
    assert (Hrest : incl rest CATEGORIES)
      by (intros c Hc; apply Hincl; right; exact Hc).
    assert (Hcat : In category CATEGORIES) by (apply Hincl; left; reflexivity).
    assert (Hnone : exists rows : list Store.Article,
              Store.articles (db st1) = Store.articles (db st) ++ rows /\
              Store.user_swipes (db st1) = Store.user_swipes (db st) /\
              Forall (fun row => exists h,
                        fetched_headline w h /\ row_of embed skip h row) rows /\
              NoDup (map Store.article_url rows) /\
              (forall row, In row rows ->
                 has_url (db st) (Store.article_url row) = false)).
    { exists []. simpl. rewrite app_nil_r. repeat split; try constructor.
      intros row []. }
    destruct (gnews w category) as [|status articles] eqn:G; [exact Hnone|].
    destruct (resolves status) eqn:Rs;
      [|destruct (status =? 429); exact Hnone].
    destruct articles as [[|a arts]|];
      try (exact (IH st1 Hrest)).
    destruct (process_articles_rows (a :: arts) 0 st1)
      as (rows1 & Hi & Hf & Hnd & Hnew).
    assert (Hf1 : Forall (fun row => exists h,
                    fetched_headline w h /\ row_of embed skip h row) rows1).
    { eapply Forall_impl; [|exact Hf].
      intros row (h & Hh & Hrow). exists h. split; [|exact Hrow].
      exists category, status, (a :: arts). auto. }
    destruct (process_articles embed skip (a :: arts) 0 st1) as [[n|] st2];
      simpl in Hi.
    + destruct (IH (counted category n st2) Hrest)
        as (rows2 & H1 & H2 & H3 & H4 & H5).
      destruct Hi as (Ha & Hs & _).
      cbv zeta in *. simpl in H1, H2, H5.
      exists (rows1 ++ rows2).
      rewrite H1, H2, Ha, Hs, app_assoc.
      split; [reflexivity|]. split; [reflexivity|].
      split; [apply Forall_app; auto|]. split.
      * rewrite map_app. apply NoDup_app; auto.
        intros u Hu1 Hu2. apply in_map_iff in Hu2 as (r & <- & Hr).
        specialize (H5 r Hr).
        assert (Ht : has_url (db st2) (Store.article_url r) = true).
        { apply has_url_In. rewrite Ha, map_app. apply in_or_app. right.
          exact Hu1. }
        congruence.
      * intros r Hr. apply in_app_or in Hr as [Hr|Hr]; [exact (Hnew r Hr)|].
        specialize (H5 r Hr).
        destruct (has_url (db st) (Store.article_url r)) eqn:E; [|reflexivity].
        rewrite (has_url_app (db st) _ rows1 (db st2) Ha E) in H5.
        discriminate.
    + destruct Hi as (Ha & Hs & _). exists rows1. simpl.
      repeat split; auto.
Qed.

Lemma urls_unique_grows d d' rows :
  Store.articles d' = Store.articles d ++ rows ->
  NoDup (map Store.article_url rows) ->
  (forall row, In row rows -> has_url d (Store.article_url row) = false) ->
  urls_unique d -> urls_unique d'.
Proof.
  unfold urls_unique. intros -> Hnd Hnew Hd.
  rewrite map_app. apply NoDup_app; auto.
  intros u Hu Hu'. apply in_map_iff in Hu' as (r & <- & Hr).
  specialize (Hnew r Hr). apply has_url_In in Hu. congruence.
Qed.

(** The pauses of the loop over the categories. *)
Lemma process_categories_slept : forall cats st,
  slept (snd (process_categories w embed skip cats st)) <=
  slept st
  + 2000 * length (filter (fun c => negb (String.eqb c (last CATEGORIES EmptyString)))
                     cats).
Proof.
  induction cats as [|category rest IH]; intros st.
  - cbn [process_categories filter length]. unfold ret. cbn [snd].
    rewrite Nat.mul_0_r, Nat.add_0_r. apply Nat.le_refl.
  - rewrite process_categories_step. cbv zeta. cbn [filter].
    set (f := filter (fun c => negb (String.eqb c (last CATEGORIES EmptyString)))
                rest) in *.
    assert (IH1 : forall st1,
              slept st1 = slept st ->
              slept (snd (process_categories w embed skip rest st1)) <=
              slept st
              + 2000 * length (if negb (String.eqb category
                                          (last CATEGORIES EmptyString))
                               then category :: f else f)).
    { intros st1 Hst1. eapply Nat.le_trans; [apply IH|]. rewrite Hst1.
      apply Nat.add_le_mono_l, Nat.mul_le_mono_l.
      destruct (negb _); cbn [length];
        [apply Nat.le_succ_diag_r|apply Nat.le_refl]. }
    assert (Hst : forall st1,
              slept st1 = slept st ->
              slept st1 <=
              slept st
              + 2000 * length (if negb (String.eqb category
                                          (last CATEGORIES EmptyString))
                               then category :: f else f)).
    { intros st1 ->. apply Nat.le_add_r. }
    destruct (gnews w category) as [|status articles];
      [exact (Hst (requested category st) eq_refl)|].
    destruct (resolves status);
      [|destruct (status =? 429);
        exact (Hst (requested category st) eq_refl)].
    destruct articles as [[|a arts]|];
      try exact (IH1 (requested category st) eq_refl).
    destruct (process_articles_grows embed skip Hembed (a :: arts) 0
                (requested category st)) as (rows & Hi & _).
    destruct (process_articles embed skip (a :: arts) 0
                (requested category st)) as [[n|] st2];
      cbn [snd] in Hi; destruct Hi as (_ & _ & _ & Hs & _);
      [|exact (Hst _ Hs)].
    change (slept (requested category st)) with (slept st) in Hs.
    eapply Nat.le_trans; [apply IH|].
    unfold counted. cbn [slept]. fold f. rewrite Hs.
    destruct (String.eqb category (last CATEGORIES EmptyString));
      cbn [negb length].
    + apply Nat.le_refl.
    + rewrite Nat.mul_succ_r, (Nat.add_comm (2000 * length f) 2000),
        Nat.add_assoc.
      apply Nat.le_refl.
Qed.

(** The pauses of the loop, counted: one after every category that the
    loop got through and that [pauses_after] names; the category at which
    the loop stopped has no pause after it. *)
Lemma process_categories_pauses : forall cats st,
  match process_categories w embed skip cats st with
  | (Ok Finished, st') =>
      fetched st' = fetched st ++ cats /\
      slept st' = slept st + 2000 * length (filter (pauses_after w) cats)
  | (_, st') =>
      exists pre c post,
        cats = pre ++ c :: post /\
        fetched st' = fetched st ++ pre ++ [c] /\
        slept st' = slept st + 2000 * length (filter (pauses_after w) pre)
  end.
Proof.
  induction cats as [|category rest IH]; intros st.
  - cbn [process_categories filter length]. unfold ret.
    rewrite app_nil_r, Nat.mul_0_r, Nat.add_0_r. auto.
  - rewrite process_categories_step. cbv zeta.
    assert (Hstop : forall st',
              fetched st' = fetched st ++ [category] ->
              slept st' = slept st ->
              exists pre c post,
                category :: rest = pre ++ c :: post /\
                fetched st' = fetched st ++ pre ++ [c] /\
                slept st' =
                slept st + 2000 * length (filter (pauses_after w) pre)).
    { intros st' Hf Hs. exists [], category, rest.
      split; [reflexivity|]. split; [exact Hf|].
      cbn [filter length]. rewrite Nat.mul_0_r, Nat.add_0_r. exact Hs. }
    assert (Hgo : forall st1 extra,
              fetched st1 = fetched st ++ [category] ->
              slept st1 = slept st + extra ->
              extra + 2000 * length (filter (pauses_after w) rest) =
              2000 * length (filter (pauses_after w) (category :: rest)) ->
              (forall pre,
                 extra + 2000 * length (filter (pauses_after w) pre) =
                 2000 * length (filter (pauses_after w) (category :: pre))) ->
              match process_categories w embed skip rest st1 with
              | (Ok Finished, st') =>
                  fetched st' = fetched st ++ category :: rest /\
                  slept st' =
                  slept st
                  + 2000 * length (filter (pauses_after w) (category :: rest))
              | (_, st') =>
                  exists pre c post,
                    category :: rest = pre ++ c :: post /\
                    fetched st' = fetched st ++ pre ++ [c] /\
                    slept st' =
                    slept st + 2000 * length (filter (pauses_after w) pre)
              end).
    { intros st1 extra Hf Hs Hall Hpre. specialize (IH st1).
      assert (Hother : forall st',
                (exists pre c post,
                   rest = pre ++ c :: post /\
                   fetched st' = fetched st1 ++ pre ++ [c] /\
                   slept st' =
                   slept st1 + 2000 * length (filter (pauses_after w) pre)) ->
                exists pre c post,
                  category :: rest = pre ++ c :: post /\
                  fetched st' = fetched st ++ pre ++ [c] /\
                  slept st' =
                  slept st + 2000 * length (filter (pauses_after w) pre)).
      { intros st' (pre & c & post & -> & Hf' & Hs').
        exists (category :: pre), c, post. split; [reflexivity|].
        split.
        - rewrite Hf', Hf, <- app_assoc. reflexivity.
        - rewrite Hs', Hs, <- Nat.add_assoc, Hpre. reflexivity. }
      destruct (process_categories w embed skip rest st1) as [[[|]|] st'];
        try (apply Hother; exact IH).
      destruct IH as [Hf' Hs']. split.
      - rewrite Hf', Hf, <- app_assoc. reflexivity.
      - rewrite Hs', Hs, <- Nat.add_assoc, Hall. reflexivity. }
    assert (Hno : pauses_after w category = false ->
              forall l, 0 + 2000 * length (filter (pauses_after w) l) =
                        2000 * length (filter (pauses_after w) (category :: l))).
    { intros E l. cbn [filter]. rewrite E. reflexivity. }
    unfold pauses_after in Hno at 1.
    destruct (gnews w category) as [|status articles] eqn:G;
      [apply Hstop; reflexivity|].
    destruct (resolves status) eqn:R;
      [|destruct (status =? 429); apply Hstop; reflexivity].
    destruct articles as [[|a arts]|].
    + apply (Hgo (requested category st) 0); [reflexivity| |apply Hno..];
        try reflexivity.
      symmetry. apply Nat.add_0_r.
    + destruct (process_articles_grows embed skip Hembed (a :: arts) 0
                  (requested category st)) as (rows & Hi & _).
      destruct (process_articles embed skip (a :: arts) 0
                  (requested category st)) as [[n|] st2];
        cbn [snd] in Hi; destruct Hi as (_ & _ & Hf & Hs & _);
        [|apply Hstop; [exact Hf|exact Hs]].
      clear Hno.
      assert (Hyes : forall l,
                (if String.eqb category (last CATEGORIES EmptyString)
                 then 0 else 2000)
                + 2000 * length (filter (pauses_after w) l) =
                2000 * length (filter (pauses_after w) (category :: l))).
      { intros l. cbn [filter]. unfold pauses_after at 2. rewrite G, R.
        destruct (String.eqb category (last CATEGORIES EmptyString));
          cbn [andb negb length]; [reflexivity|].
        rewrite Nat.mul_succ_r. apply Nat.add_comm. }
      apply (Hgo (counted category n st2)
               (if String.eqb category (last CATEGORIES EmptyString)
                then 0 else 2000)); [exact Hf| |apply Hyes..].
      unfold counted. cbn [slept]. rewrite Hs.
      change (slept (requested category st)) with (slept st).
      destruct (String.eqb category (last CATEGORIES EmptyString));
        [symmetry; apply Nat.add_0_r|reflexivity].
    + apply (Hgo (requested category st) 0); [reflexivity| |apply Hno..];
        try reflexivity.
      symmetry. apply Nat.add_0_r.
Qed.

Lemma run_loop_final st :
  final (run_loop w embed skip st) =
  snd (process_categories w embed skip CATEGORIES st).
Proof.
  unfold run_loop.
  destruct (process_categories w embed skip CATEGORIES st). reflexivity.
Qed.

Lemma run_loop_reported st :
  reported (run_loop w embed skip st) =
  Some (totalProcessedCount
          (snd (process_categories w embed skip CATEGORIES st))) /\
  outcome (run_loop w embed skip st) = Resolved.
Proof.
  unfold run_loop.
  destruct (process_categories w embed skip CATEGORIES st). auto.
Qed.

(** The rows of a vector-sending service hold texts that parse. *)
Lemma rows_parse (R : float -> float -> Prop) (P : RawArticle -> Prop) rows :
  service_sends_vectors R embed ->
  (forall v, skip v = false -> JS.truthy v = true) ->
  Forall (fun row => exists h, P h /\ row_of embed skip h row) rows ->
  Forall (fun a => JSON.parse_vector (Store.embedding a) <> None) rows.
Proof.
  intros Hsv Hskip Hrows. eapply Forall_impl; [|exact Hrows].
  intros row (h & _ & _ & _ & _ & v & Hv & Hs & He & _).
  set (st0 := initial {| Store.articles := []; Store.user_swipes := [];
                         Store.next_article_id := 0; Store.clock := 0 |}).
  destruct (Hsv _ st0 v (Hv st0) (Hskip v Hs)) as (xs & -> & Hxs).
  rewrite RoundTripFacts.embeddingString_vector in He.
  assert (E : Store.embedding row =
              ("[" ++ String.concat "," (map Number_toString xs) ++ "]")%string)
    by congruence.
  rewrite E, JSONFacts.parse_vector_tokens; [discriminate|].
  apply Forall_map. eapply Forall_impl; [|exact Hxs].
  intros x [Hx _]. exact Hx.
Qed.

End Loops.

End WithWorld.

End IngestMoreFacts.

(** ** Whole runs of the ingestion script *)

Module IngestRunFacts.
Import Ingest Spec Terms IngestFacts IngestMoreFacts.

Section WithWorld.
Context {RT : JSRuntime} (w : World).

(** A run either stops at the configuration checks, with the state it
    started from, or is the loop over the categories. *)
Lemma ingestArticles_cases env d :
  final (ingestArticles w env d) = initial d \/
  ingestArticles w env d = run_loop w (getEmbedding w) JS.falsy (initial d).
Proof.
  unfold ingestArticles.
  destruct (no_key env); [left; reflexivity|].
  destruct (negb (connect_ok w)); [left; reflexivity|right; reflexivity].
Qed.

Lemma ingestArticles_gradio_cases env d :
  final (ingestArticles_gradio w env d) = initial d \/
  ingestArticles_gradio w env d =
  run_loop w (getEmbedding_gradio w) skip_gradio (initial d).
Proof.
  unfold ingestArticles_gradio.
  destruct (no_key env); [left; reflexivity|].
  destruct (missing (ML_SERVICE_URL env) || _); [left; reflexivity|].
  destruct (negb (connect_ok w)); [left; reflexivity|right; reflexivity].
Qed.

Lemma falsy_truthy v : JS.falsy v = false -> JS.truthy v = true.
Proof. unfold JS.falsy. destruct (JS.truthy v); [reflexivity|discriminate]. Qed.

Lemma skip_gradio_truthy v : skip_gradio v = false -> JS.truthy v = true.
Proof.
  unfold skip_gradio. intros H. apply orb_false_iff in H as [H _].
  apply falsy_truthy, H.
Qed.

(** What a run adds, for an adapter and its test. *)
Lemma run_rows embed skip (r : Run) d :
  adapter_like embed ->
  final r = initial d \/ r = run_loop w embed skip (initial d) ->
  exists rows,
    Store.articles (db (final r)) = Store.articles d ++ rows /\
    Store.user_swipes (db (final r)) = Store.user_swipes d /\
    Forall (fun row => exists h, fetched_headline w h /\ row_of embed skip h row)
      rows /\
    NoDup (map Store.article_url rows) /\
    (forall row, In row rows -> has_url d (Store.article_url row) = false).
Proof.
  intros Hembed [-> | ->].
  - exists []. simpl. rewrite app_nil_r.
    split; [reflexivity|]. split; [reflexivity|].
    split; [constructor|]. split; [constructor|]. intros row [].
  - rewrite run_loop_final.
    exact (process_categories_rows w embed skip Hembed CATEGORIES (initial d)
             (incl_refl _)).
Qed.

(** What the two variants add. *)
Lemma ingest_rows (env : Env) (d : Store.DB) :
  (exists rows,
     Store.articles (db (final (ingestArticles w env d))) =
       Store.articles d ++ rows /\
     Store.user_swipes (db (final (ingestArticles w env d))) =
       Store.user_swipes d /\
     Forall (fun row => exists h,
               fetched_headline w h /\
               row_of (getEmbedding w) JS.falsy h row) rows) /\
  (exists rows,
     Store.articles (db (final (ingestArticles_gradio w env d))) =
       Store.articles d ++ rows /\
     Store.user_swipes (db (final (ingestArticles_gradio w env d))) =
       Store.user_swipes d /\
     Forall (fun row => exists h,
               fetched_headline w h /\
               row_of (getEmbedding_gradio w) skip_gradio h row) rows).
Proof.
  split.
  - destruct (run_rows _ _ _ d (getEmbedding_adapter w)
                (ingestArticles_cases env d)) as (rows & Ha & Hs & Hf & _).
    exists rows. auto.
  - destruct (run_rows _ _ _ d (getEmbedding_gradio_adapter w)
                (ingestArticles_gradio_cases env d))
      as (rows & Ha & Hs & Hf & _).
    exists rows. auto.
Qed.

(** X16. Every row a run adds to the articles comes from a headline that
    the source returned, with a status of 200 .. 299, for one of the
    categories: a headline that has a title, an image and a description,
    whose text the adapter turned into a value that passed the test of the
    loop; the row holds the headline's fields and the bracketed text of
    that value.  The added rows have distinct URLs, none of which the
    corpus held, and the swipes are left alone.  Both variants. *)
Theorem ingest_rows_provenance (env : Env) (d : Store.DB) :
  (exists rows,
     Store.articles (db (final (ingestArticles w env d))) =
       Store.articles d ++ rows /\
     Store.user_swipes (db (final (ingestArticles w env d))) =
       Store.user_swipes d /\
     Forall (fun row => exists h,
               fetched_headline w h /\
               row_of (getEmbedding w) JS.falsy h row) rows /\
     NoDup (map Store.article_url rows) /\
     (forall row, In row rows -> has_url d (Store.article_url row) = false)) /\
  (exists rows,
     Store.articles (db (final (ingestArticles_gradio w env d))) =
       Store.articles d ++ rows /\
     Store.user_swipes (db (final (ingestArticles_gradio w env d))) =
       Store.user_swipes d /\
     Forall (fun row => exists h,
               fetched_headline w h /\
               row_of (getEmbedding_gradio w) skip_gradio h row) rows /\
     NoDup (map Store.article_url rows) /\
     (forall row, In row rows -> has_url d (Store.article_url row) = false)).
Proof.
  split.
  - exact (run_rows _ _ _ d (getEmbedding_adapter w)
             (ingestArticles_cases env d)).
  - exact (run_rows _ _ _ d (getEmbedding_gradio_adapter w)
             (ingestArticles_gradio_cases env d)).
Qed.

(** X17. A run keeps the URLs of the corpus distinct: when no two
    articles share a URL before the run, none do after it.  Both
    variants. *)
Theorem ingest_keeps_urls_unique (env : Env) (d : Store.DB) :
  urls_unique d ->
  urls_unique (db (final (ingestArticles w env d))) /\
  urls_unique (db (final (ingestArticles_gradio w env d))).
Proof.
  intros Hd. split.
  - destruct (run_rows _ _ _ d (getEmbedding_adapter w)
                (ingestArticles_cases env d)) as (rows & Ha & _ & _ & Hnd & Hnew).
    exact (urls_unique_grows d _ rows Ha Hnd Hnew Hd).
  - destruct (run_rows _ _ _ d (getEmbedding_gradio_adapter w)
                (ingestArticles_gradio_cases env d))
      as (rows & Ha & _ & _ & Hnd & Hnew).
    exact (urls_unique_grows d _ rows Ha Hnd Hnew Hd).
Qed.

(** X18. When the request for a category that the run reaches fails
    other than by a rate limit (no response, or a status outside
    200 .. 299 that is not 429), the error is caught at the end of the
    script: the run ends there like on a rate limit, with the state the
    earlier categories left plus the logged request, no later category
    requested, the total of the earlier categories reported and the
    promise resolved. *)
Theorem fetch_error_stops_run (env : Env) (d : Store.DB)
    (pre post : list string) (c : string) (st1 : State) :
  no_key env = false ->
  connect_ok w = true ->
  CATEGORIES = pre ++ c :: post ->
  process_categories w (getEmbedding w) JS.falsy pre (initial d) =
    (Ok Finished, st1) ->
  fetch_error w c ->
  let r := ingestArticles w env d in
  final r = requested c st1 /\
  fetched (final r) = pre ++ [c] /\
  reported r = Some (totalProcessedCount st1) /\
  outcome r = Resolved /\
  exit_code r = 0.
Proof.
  intros Hkey Hconn Hcat Hpre Herr r.
  destruct (process_categories_finished w (getEmbedding w) JS.falsy
              (getEmbedding_adapter w) pre (initial d) st1 (c :: post) Hpre)
    as (Happ & Hlog).
  assert (Hrun : process_categories w (getEmbedding w) JS.falsy CATEGORIES
                   (initial d) = (Thrown, requested c st1)).
  { rewrite Hcat, Happ, process_categories_step. cbv zeta.
    unfold fetch_error in Herr.
    destruct (gnews w c) as [|status data]; [reflexivity|].
    destruct Herr as [-> H429].
    apply Nat.eqb_neq in H429. rewrite H429. reflexivity. }
  assert (Hr : r = {| outcome := Resolved;
                      reported := Some (totalProcessedCount st1);
                      final := requested c st1 |}).
  { unfold r, ingestArticles. rewrite Hkey, Hconn. simpl negb. cbv iota.
    unfold run_loop. rewrite Hrun. reflexivity. }
  rewrite Hr. unfold exit_code. simpl.
  split; [reflexivity|]. split; [rewrite Hlog; reflexivity|].
  split; [reflexivity|]. split; reflexivity.
Qed.

(** X19. An article that has its three fields and whose embedding
    passes the test of the loop but has no join (it is not an array), or
    that has no source, throws out of both loops: the run ends at that
    article.  The rows inserted for the articles before it in the same
    category stay, but their count is not added to the total, so the run
    reports the total of the earlier categories only; no pause is taken
    and no later category is requested. *)
Theorem bad_article_stops_run (env : Env) (d : Store.DB)
    (pre post : list string) (c : string) (status : nat)
    (good rest : list RawArticle) (bad : RawArticle)
    (st1 st2 : State) (n : nat) (v : JS.Value) :
  no_key env = false ->
  connect_ok w = true ->
  CATEGORIES = pre ++ c :: post ->
  process_categories w (getEmbedding w) JS.falsy pre (initial d) =
    (Ok Finished, st1) ->
  gnews w c = Response status (Some (good ++ bad :: rest)) ->
  resolves status = true ->
  process_articles (getEmbedding w) JS.falsy good 0 (requested c st1) =
    (Ok n, st2) ->
  missing (title bad) || missing (image bad) || missing (description bad)
    = false ->
  (forall st,
     fst (getEmbedding w (field_text (title bad) ++ ". "
                          ++ field_text (description bad))%string st) = Ok v) ->
  JS.falsy v = false ->
  embeddingString v = Thrown \/ source bad = None ->
  let r := ingestArticles w env d in
  outcome r = Resolved /\
  reported r = Some (totalProcessedCount st1) /\
  db (final r) = db st2 /\
  length (Store.articles (db st2)) = length (Store.articles (db st1)) + n /\
  fetched (final r) = pre ++ [c] /\
  slept (final r) = slept st1.
Proof.
  intros Hkey Hconn Hcat Hpre Hg Hres Hgood M Hv Hskip Hbad r.
  destruct (process_categories_finished w (getEmbedding w) JS.falsy
              (getEmbedding_adapter w) pre (initial d) st1 (c :: post) Hpre)
    as (Happ & Hlog).
  destruct (process_articles_throws (getEmbedding w) JS.falsy
              (getEmbedding_adapter w) bad rest n st2 v M Hv Hskip Hbad)
    as (texts & Hthrow).
  destruct (process_articles_grows (getEmbedding w) JS.falsy
              (getEmbedding_adapter w) good 0 (requested c st1))
    as (rows & Hi & Hn).
  rewrite Hgood in Hi, Hn. simpl in Hi, Hn.
  destruct Hi as (Ha & _ & Hf & Hs & Ht).
  specialize (Hn n eq_refl).
  assert (Hrun : process_categories w (getEmbedding w) JS.falsy CATEGORIES
                   (initial d) =
                 (Thrown, with_embedded (embedded st2 ++ texts) st2)).
  { rewrite Hcat, Happ, process_categories_step. cbv zeta.
    rewrite Hg, Hres.
    rewrite (process_articles_app (getEmbedding w) JS.falsy
               (getEmbedding_adapter w) good (bad :: rest) 0 _ n st2 Hgood).
    rewrite Hthrow.
    destruct (good ++ bad :: rest) eqn:E; [|reflexivity].
    destruct good; discriminate. }
  assert (Hr : r = {| outcome := Resolved;
                      reported := Some (totalProcessedCount st2);
                      final := with_embedded (embedded st2 ++ texts) st2 |}).
  { unfold r, ingestArticles. rewrite Hkey, Hconn. simpl negb. cbv iota.
    unfold run_loop. rewrite Hrun. reflexivity. }
  rewrite Hr. cbn [outcome reported final].
  split; [reflexivity|]. split; [rewrite Ht; reflexivity|].
  split; [reflexivity|].
  split; [rewrite Ha, length_app; simpl; lia|].
  split.
  - change (fetched (with_embedded (embedded st2 ++ texts) st2))
      with (fetched st2).
    rewrite Hf. simpl. rewrite Hlog. reflexivity.
  - change (slept (with_embedded (embedded st2 ++ texts) st2))
      with (slept st2).
    rewrite Hs. reflexivity.
Qed.

(** X20. A run pauses for 2000 ms exactly once after every category
    that it got through, that had articles (answered with a status of
    200 .. 299) and that is not the last one; it does not pause after a
    category without articles, after the last one, or after the category
    at which it stopped.  So it sleeps at most 4 * 2000 ms in all.  Both
    variants. *)
Theorem ingest_pauses (env : Env) (d : Store.DB) :
  slept (final (ingestArticles w env d)) =
    2000 * length (filter (pauses_after w)
                     (removelast (fetched (final (ingestArticles w env d))))) /\
  slept (final (ingestArticles_gradio w env d)) =
    2000 * length (filter (pauses_after w)
                     (removelast
                        (fetched (final (ingestArticles_gradio w env d))))) /\
  slept (final (ingestArticles w env d)) <= 4 * 2000 /\
  slept (final (ingestArticles_gradio w env d)) <= 4 * 2000.
Proof.
  assert (Hlast : pauses_after w (last CATEGORIES EmptyString) = false).
  { unfold pauses_after.
    destruct (gnews w (last CATEGORIES EmptyString)) as [|status [[|a arts]|]];
      try reflexivity.
    rewrite String.eqb_refl. apply andb_false_r. }
  assert (Hall : filter (pauses_after w) CATEGORIES =
                 filter (pauses_after w) (removelast CATEGORIES)).
  { rewrite (app_removelast_last (l := CATEGORIES) EmptyString) at 1
      by discriminate.
    rewrite filter_app. cbn [filter]. rewrite Hlast. apply app_nil_r. }
  assert (Hcount : forall embed skip (r : Run),
            adapter_like embed ->
            final r = initial d \/ r = run_loop w embed skip (initial d) ->
            slept (final r) =
            2000 * length (filter (pauses_after w)
                             (removelast (fetched (final r))))).
  { intros embed skip r Hembed [-> | ->].
    - cbn [initial slept fetched removelast filter length].
      symmetry. apply Nat.mul_0_r.
    - rewrite run_loop_final.
      assert (H := process_categories_pauses w embed skip Hembed CATEGORIES
                     (initial d)).
      destruct (process_categories w embed skip CATEGORIES (initial d))
        as [[[|]|] st']; cbn [snd];
        try (destruct H as (pre & c & post & _ & Hf & Hs);
             rewrite Hs, Hf; cbn [initial slept fetched app];
             rewrite removelast_last; reflexivity).
      destruct H as [Hf Hs]. rewrite Hs, Hf.
      cbn [initial slept fetched app]. rewrite Hall. reflexivity. }
  assert (Hloop : forall embed skip (r : Run),
            adapter_like embed ->
            final r = initial d \/ r = run_loop w embed skip (initial d) ->
            slept (final r) <= 4 * 2000).
  { intros embed skip r Hembed [-> | ->].
    - apply Nat.le_0_l.
    - rewrite run_loop_final.
      exact (process_categories_slept w embed skip Hembed CATEGORIES
               (initial d)). }
  split; [|split; [|split]].
  - exact (Hcount _ _ _ (getEmbedding_adapter w) (ingestArticles_cases env d)).
  - exact (Hcount _ _ _ (getEmbedding_gradio_adapter w)
             (ingestArticles_gradio_cases env d)).
  - exact (Hloop _ _ _ (getEmbedding_adapter w) (ingestArticles_cases env d)).
  - exact (Hloop _ _ _ (getEmbedding_gradio_adapter w)
             (ingestArticles_gradio_cases env d)).
Qed.

(** X21. With an embedding service that sends vectors (every truthy
    value the adapter returns is an array of numbers whose texts read
    back as JSON numbers), a run keeps the corpus parseable: when every
    stored embedding is the text of a vector before the run, every one is
    after it.  Both variants. *)
Theorem ingested_embeddings_parse (R : float -> float -> Prop) (env : Env)
    (d : Store.DB) :
  service_sends_vectors R (getEmbedding w) ->
  service_sends_vectors R (getEmbedding_gradio w) ->
  embeddings_parse d ->
  embeddings_parse (db (final (ingestArticles w env d))) /\
  embeddings_parse (db (final (ingestArticles_gradio w env d))).
Proof.
  intros H1 H2 Hd. unfold embeddings_parse in *. split.
  - destruct (run_rows _ _ _ d (getEmbedding_adapter w)
                (ingestArticles_cases env d)) as (rows & Ha & _ & Hf & _).
    rewrite Ha. apply Forall_app. split; [exact Hd|].
    exact (rows_parse _ _ R _ rows H1 falsy_truthy Hf).
  - destruct (run_rows _ _ _ d (getEmbedding_gradio_adapter w)
                (ingestArticles_gradio_cases env d))
      as (rows & Ha & _ & Hf & _).
    rewrite Ha. apply Forall_app. split; [exact Hd|].
    exact (rows_parse _ _ R _ rows H2 skip_gradio_truthy Hf).
Qed.

End WithWorld.

Lemma ingest_keeps_urls_unique_witness :
  urls_unique
    (db (final (ingestArticles (RT := Fixture.decimal_runtime)
                  Fixture.news_world Fixture.env_ok Fixture.db0))) /\
  urls_unique
    (db (final (ingestArticles_gradio (RT := Fixture.decimal_runtime)
                  Fixture.news_world Fixture.env_ok Fixture.db0))).
Proof.
  apply (ingest_keeps_urls_unique (RT := Fixture.decimal_runtime)
           Fixture.news_world Fixture.env_ok Fixture.db0).
  unfold urls_unique. simpl.
  repeat constructor; simpl; intuition discriminate.
Defined.

Lemma fetch_error_stops_run_witness :
  fetched (final (ingestArticles (RT := Fixture.decimal_runtime)
                    Fixture.broken_world Fixture.env_ok Fixture.db0)) =
    [] ++ ["general"] /\
  reported (ingestArticles (RT := Fixture.decimal_runtime)
              Fixture.broken_world Fixture.env_ok Fixture.db0) = Some 0.
Proof.
  destruct (fetch_error_stops_run (RT := Fixture.decimal_runtime)
              Fixture.broken_world Fixture.env_ok Fixture.db0
              [] ["technology"; "science"; "sports"; "entertainment"] "general"
              (initial Fixture.db0))
    as (_ & Hf & Hr & _).
  - reflexivity.
  - reflexivity.
  - reflexivity.
  - reflexivity.
  - simpl. split; [reflexivity|]. apply Nat.eqb_neq. reflexivity.
  - split; [exact Hf|exact Hr].
Defined.

Lemma bad_article_stops_run_witness :
  reported (ingestArticles (RT := Fixture.decimal_runtime)
              Fixture2.mixed_world Fixture.env_ok Fixture.db0) = Some 0 /\
  length (Store.articles
            (db (final (ingestArticles (RT := Fixture.decimal_runtime)
                          Fixture2.mixed_world Fixture.env_ok Fixture.db0)))) =
    length (Store.articles Fixture.db0) + 1.
Proof.
  destruct (bad_article_stops_run (RT := Fixture.decimal_runtime)
              Fixture2.mixed_world Fixture.env_ok Fixture.db0
              [] ["technology"; "science"; "sports"; "entertainment"] "general"
              200
              [Fixture.headline "A" "u8"] [Fixture.headline "C" "u10"]
              (Fixture.headline "B" "u9")
              (initial Fixture.db0)
              (snd (process_articles (RT := Fixture.decimal_runtime)
                      (getEmbedding Fixture2.mixed_world) JS.falsy
                      [Fixture.headline "A" "u8"] 0
                      (requested "general" (initial Fixture.db0))))
              1 (JS.JStr "oops"))
    as (_ & Hr & Hd & Hl & _).
  - reflexivity.
  - reflexivity.
  - reflexivity.
  - reflexivity.
  - reflexivity.
  - reflexivity.
  - vm_compute. reflexivity.
  - reflexivity.
  - intros st. rewrite getEmbedding_eval. reflexivity.
  - reflexivity.
  - left. reflexivity.
  - split; [exact Hr|]. rewrite Hd. exact Hl.
Defined.

Lemma ingested_embeddings_parse_witness :
  embeddings_parse (RT := Fixture.decimal_runtime)
    (db (final (ingestArticles (RT := Fixture.decimal_runtime)
                  Fixture.news_world Fixture.env_ok Fixture.db0))) /\
  embeddings_parse (RT := Fixture.decimal_runtime)
    (db (final (ingestArticles_gradio (RT := Fixture.decimal_runtime)
                  Fixture.news_world Fixture.env_ok Fixture.db0))).
Proof.
  apply (ingested_embeddings_parse (RT := Fixture.decimal_runtime)
           Fixture.news_world eq Fixture.env_ok Fixture.db0).
  - intros text st v H Ht. rewrite getEmbedding_eval in H.
    destruct (blank text); simpl in H; inversion H; subst v;
      [discriminate Ht|].
    exists [1; 2]%float. split; [reflexivity|].
    repeat constructor.
  - intros text st v H Ht. rewrite getEmbedding_gradio_eval in H.
    destruct (blank text); simpl in H; inversion H; subst v;
      discriminate Ht.
  - unfold embeddings_parse. simpl. repeat constructor; discriminate.
Defined.

End IngestRunFacts.

(** ** The corpus and the feed *)

Module CorpusFacts.
Import Store Server Terms.

Section WithRuntime.
Context {RT : JSRuntime} {DS : Datastore}.

(** X22. On a corpus whose stored embeddings are all texts of vectors,
    the feed handler never answers 500: every user gets a feed, whatever
    the swipes, the random order and the shuffle. *)
Theorem feed_answers_on_parsed_corpus (db : DB) (keys : nat -> nat)
    (rnd : list nat) (userId : Z) :
  embeddings_parse db ->
  exists finalFeed, fst (feed db keys rnd userId) = Feed200 finalFeed.
Proof.
  intros Hdb. unfold feed.
  destruct (0 <? length (tasteQuery db userId TASTE_PROFILE_SIZE));
    [|eexists; reflexivity].
  destruct (averageVectors (tasteQuery db userId TASTE_PROFILE_SIZE))
    as [tasteVector|] eqn:E; [eexists; reflexivity|].
  apply FeedMoreFacts.averageVectors_thrown in E as (text & Hin & Hnone).
  exfalso. unfold tasteQuery in Hin.
  apply in_map_iff in Hin as ([a us] & <- & Hin).
  apply ServerFacts.In_firstn, OrderByFacts.sort_In in Hin.
  apply ServerFacts.liked_join_In in Hin as (Ha & _).
  unfold embeddings_parse in Hdb. rewrite Forall_forall in Hdb.
  exact (Hdb a Ha Hnone).
Qed.

End WithRuntime.

Lemma feed_answers_on_parsed_corpus_witness :
  exists finalFeed,
    fst (feed (RT := Fixture.decimal_runtime) (DS := Fixture.toy_store)
           Fixture.db0 (fun n => n) [] 1) = Feed200 finalFeed.
Proof.
  apply (feed_answers_on_parsed_corpus (RT := Fixture.decimal_runtime)
           (DS := Fixture.toy_store) Fixture.db0 (fun n => n) [] 1).
  unfold embeddings_parse. simpl. repeat constructor; discriminate.
Defined.

End CorpusFacts.

(** ** A swipe and the feeds after it *)

Module SessionFacts.
Import Store Server SwipeLayer Terms.

Section WithDatastore.
Context {RT : JSRuntime} {DS : Datastore}.

(** A swipe request keeps the rows of the table. *)
Lemma swipe_keeps_rows db userId articleId liked us :
  In us (user_swipes db) ->
  In us (user_swipes (snd (swipe db userId articleId liked))).
Proof.
  intros Hin. unfold swipe.
  destruct (JS.falsy articleId || is_undefined liked); [exact Hin|].
  unfold insert_swipe.
  destruct (to_integer articleId) as [aid|]; [|exact Hin].
  destruct (to_boolean liked) as [l|]; [|exact Hin].
  simpl. apply in_or_app. left. exact Hin.
Qed.

(** None of these steps takes a swipe of the user out of the table. *)
Lemma later_keeps_swipe userId db later us :
  later_without_reset userId db later ->
  user_id us = userId ->
  In us (user_swipes db) -> In us (user_swipes later).
Proof.
  intros Hlater Hu Hin.
  induction Hlater as [|db1 other articleId liked _ IH|db1 other _ IH Hother
                       |db1 w env _ IH|db1 w env _ IH].
  - exact Hin.
  - apply swipe_keeps_rows. exact IH.
  - simpl. apply filter_In. split; [exact IH|].
    apply negb_true_iff, Z.eqb_neq. congruence.
  - destruct (IngestRunFacts.ingest_rows w env db1)
      as [(rows & _ & Hs & _) _].
    rewrite Hs. exact IH.
  - destruct (IngestRunFacts.ingest_rows w env db1)
      as [_ (rows & _ & Hs & _)].
    rewrite Hs. exact IH.
Qed.

(** X6. Once a swipe on an article is stored (liked or not), no feed of
    that user holds the article until the user resets: not the next
    feed, and not a feed after any number of further swipes of any user,
    resets of other users and runs of the ingestion script. *)
Theorem swiped_article_leaves_feed (db db' later : DB) (userId : Z)
    (articleId liked : JS.Value) (row : Swipe) (keys : nat -> nat)
    (rnd : list nat) (finalFeed : list FeedRow) (steps : list Step) :
  swipe db userId articleId liked = (Swipe201 row, db') ->
  later_without_reset userId db' later ->
  feed later keys rnd userId = (Feed200 finalFeed, steps) ->
  ~ In (article_id row) (map row_id finalFeed).
Proof.
  intros Hswipe Hlater Hfeed Hin.
  apply in_map_iff in Hin as (r & Hid & Hr).
  apply (FeedMoreFacts.feed_rows_never_swiped _ _ _ _ _ _ Hfeed) in Hr.
  apply ServerFacts.never_swiped_In in Hr as [_ Hnot]. apply Hnot.
  unfold swipe in Hswipe.
  destruct (JS.falsy articleId || is_undefined liked); [discriminate|].
  unfold insert_swipe in Hswipe.
  destruct (to_integer articleId) as [aid|]; [|discriminate].
  destruct (to_boolean liked) as [l|]; [|discriminate].
  inversion Hswipe; subst. clear Hswipe.
  exists {| user_id := userId; article_id := aid; Store.liked := l;
            swipe_time := clock db |}.
  split.
  - apply (later_keeps_swipe _ _ _ _ Hlater); [reflexivity|].
    simpl. apply in_or_app. right. left. reflexivity.
  - simpl. split; [reflexivity|]. symmetry. exact Hid.
Qed.

End WithDatastore.

Lemma swiped_article_leaves_feed_witness :
  exists finalFeed steps,
    feed (RT := Fixture.decimal_runtime) (DS := Fixture.toy_store)
      (Ingest.db
         (Ingest.final
            (Ingest.ingestArticles (RT := Fixture.decimal_runtime)
               Fixture.news_world Fixture.env_ok
               (snd (reset
                       (snd (swipe (DS := Fixture.toy_store) Fixture.db0 2
                               (JS.JNum 3) (JS.JBool false)))
                       1)))))
      (fun k => k) [1; 2; 3] 2 = (Feed200 finalFeed, steps) /\
    ~ In 3%Z (map row_id finalFeed).
Proof.
  eexists. eexists.
  split; [vm_compute; reflexivity|].
  apply (swiped_article_leaves_feed (RT := Fixture.decimal_runtime)
           (DS := Fixture.toy_store) Fixture.db0
           (snd (swipe (DS := Fixture.toy_store) Fixture.db0 2
                   (JS.JNum 3) (JS.JBool false)))
           (Ingest.db
              (Ingest.final
                 (Ingest.ingestArticles (RT := Fixture.decimal_runtime)
                    Fixture.news_world Fixture.env_ok
                    (snd (reset
                            (snd (swipe (DS := Fixture.toy_store) Fixture.db0
                                    2 (JS.JNum 3) (JS.JBool false)))
                            1)))))
           2 (JS.JNum 3)
           (JS.JBool false) (Fixture.swipe_row 2 3 (Some false) 30)
           (fun k => k) [1; 2; 3] _
           [RunTasteQuery; RunColdQuery]).
  - reflexivity.
  - apply later_ingest. apply later_reset; [apply later_now|].
    intros H. discriminate H.
  - vm_compute. reflexivity.
Defined.

End SessionFacts.
